(** * design-to-code-expert: the stack detector, the HTML draft inspector
    and the target path

  A shallow embedding of [scripts/detect_stack.py],
  [scripts/inspect_html.py] and [scripts/suggest_target_path.py], the
  properties their specification states about them, and further properties
  of the code.

  Numbers are the ones Python computes with: scores and confidences are
  binary64 floats (the kernel's primitive floats), counts are naturals.
  Dictionaries whose iteration order reaches the output are association
  lists in insertion order.  Text is a [string] of 8-bit characters, read as
  the code points below 256, with Python's character classes on them. *)

From Stdlib Require Import List Bool String Ascii Lia PeanoNat Permutation Sorted.
From Stdlib Require Import PrimInt63 PrimFloat.
From Stdlib Require DecimalString.
Import ListNotations.

Set Warnings "-inexact-float,-register-all".
Local Open Scope string_scope.

(** ** The Python built-ins the two scripts rely on *)

Module Py.

(** *** Exceptions: a computation that may raise returns [None]. *)

Definition bind {A B} (m : option A) (f : A -> option B) : option B :=
  match m with
  | Some a => f a
  | None => None
  end.

Notation "x <- m ;; k" := (bind m (fun x => k))
  (at level 61, m at next level, right associativity).

(** *** Floats *)

(** Python's [max(a, b)] and [min(a, b)]: the first argument is kept
    unless the second is strictly larger (smaller). *)
Definition max (a b : float) : float := if PrimFloat.ltb a b then b else a.
Definition min (a b : float) : float := if PrimFloat.ltb b a then b else a.

(** [round(x, 2)]: CPython rounds the exact binary value of [x] to two
    decimals, ties to even, and returns the double nearest to that decimal.

    [frshiftexp] and [normfr_mantissa] give [|x| = m / 2^k] exactly, with
    [2^52 <= m < 2^53] and [k = 2154 - e].  For [k <= 6] ([2^46 <= |x|])
    the doubles are more than [0.01] apart and [x] is its own rounding.  For
    [62 < k] ([|x| < 2^-9]) the rounding is zero.  Otherwise [100 * m] is
    below [2^60], so the 63-bit integer arithmetic is exact: [n] is the
    integer nearest to [100 * |x|], ties to even, [n < 2^53] is a double,
    and the correctly rounded division by [100] is the double nearest to
    [n / 100]. *)
Definition round2 (x : float) : float :=
  if is_nan x || is_infinity x || is_zero x then x
  else
    let (f, e) := frshiftexp (abs x) in
    let m := normfr_mantissa f in
    if PrimInt63.leb 2148 e then x
    else
      let k := PrimInt63.sub 2154 e in
      let n :=
        if PrimInt63.ltb 62 k then 0%uint63
        else
          let num := PrimInt63.mul 100 m in
          let q := PrimInt63.lsr num k in
          let r := PrimInt63.sub num (PrimInt63.lsl q k) in
          let half := PrimInt63.lsl 1 (PrimInt63.sub k 1) in
          if PrimInt63.ltb r half then q
          else if PrimInt63.ltb half r then PrimInt63.add q 1
          else if PrimInt63.eqb (PrimInt63.land q 1) 0 then q
          else PrimInt63.add q 1 in
      let r := (of_uint63 n / 100)%float in
      if get_sign x then (- r)%float else r.

(** *** Dictionaries, in insertion order *)

Definition dict (V : Type) := list (string * V).

Fixpoint get {V} (d : dict V) (k : string) : option V :=
  match d with
  | [] => None
  | (k', v) :: d' => if String.eqb k' k then Some v else get d' k
  end.

(** [d[k] = v]: an existing key keeps its place, a new key goes last. *)
Fixpoint set {V} (d : dict V) (k : string) (v : V) : dict V :=
  match d with
  | [] => [(k, v)]
  | (k', v') :: d' =>
      if String.eqb k' k then (k', v) :: d' else (k', v') :: set d' k v
  end.

Definition keys {V} (d : dict V) : list string := map fst d.
Definition values {V} (d : dict V) : list V := map snd d.

(** [Counter]'s [c[k] += 1]: a missing key counts as [0]. *)
Definition incr (c : dict nat) (k : string) : dict nat :=
  match get c k with
  | Some n => set c k (S n)
  | None => set c k 1
  end.

Definition count (c : dict nat) (k : string) : nat :=
  match get c k with
  | Some n => n
  | None => 0
  end.

Definition sum (l : list nat) : nat := fold_left Nat.add l 0.

(** *** Stable sorting, largest key first

    [sorted(items, key=..., reverse=True)] is stable: among equal keys the
    original order is kept.  A stable sort has one possible result, so a
    stable insertion sort stands for it.  [lt] is the key's [<]. *)
Section Sorting.
Context {A K : Type} (lt : K -> K -> bool) (key : A -> K).

Fixpoint insert_desc (x : A) (l : list A) : list A :=
  match l with
  | [] => [x]
  | y :: l' =>
      if lt (key x) (key y) then y :: insert_desc x l' else x :: l
  end.

Definition sorted_desc (l : list A) : list A :=
  fold_right insert_desc [] l.
End Sorting.

(** [Counter.most_common(n)] and [most_common()]. *)
Definition most_common_all (c : dict nat) : list (string * nat) :=
  sorted_desc Nat.ltb snd c.
Definition most_common (n : nat) (c : dict nat) : list (string * nat) :=
  firstn n (most_common_all c).

(** *** Strings *)

Definition chars (s : string) : list ascii := list_ascii_of_string s.
Definition str (l : list ascii) : string := string_of_list_ascii l.

Definition mem (x : string) (l : list string) : bool :=
  existsb (String.eqb x) l.

Definition startswith (s p : string) : bool := String.prefix p s.

Definition endswith (s p : string) : bool :=
  String.prefix (str (rev (chars p))) (str (rev (chars s))).

Fixpoint contains_from (fuel : nat) (needle hay : string) : bool :=
  String.prefix needle hay ||
  match fuel, hay with
  | S fuel', String _ hay' => contains_from fuel' needle hay'
  | _, _ => false
  end.

(** [needle in hay] *)
Definition contains (needle hay : string) : bool :=
  contains_from (String.length hay) needle hay.

(** [str.lower] on one character: [A-Z], and the capital letters of
    Latin-1 ([0xC0-0xDE] but the multiplication sign [0xD7]). *)
Definition lower_char (c : ascii) : ascii :=
  let n := nat_of_ascii c in
  if ((65 <=? n)%nat && (n <=? 90)%nat)
     || ((192 <=? n)%nat && (n <=? 222)%nat && negb (n =? 215)%nat)
  then ascii_of_nat (n + 32) else c.

Definition lower (s : string) : string := str (map lower_char (chars s)).

(** [str.isspace] on one character. *)
Definition is_space (c : ascii) : bool :=
  let n := nat_of_ascii c in
  ((9 <=? n)%nat && (n <=? 13)%nat) || ((28 <=? n)%nat && (n <=? 32)%nat)
  || (n =? 133)%nat || (n =? 160)%nat.

Fixpoint lstrip_chars (l : list ascii) : list ascii :=
  match l with
  | c :: l' => if is_space c then lstrip_chars l' else l
  | [] => []
  end.

Definition strip (s : string) : string :=
  str (rev (lstrip_chars (rev (lstrip_chars (chars s))))).

(** [s.split()]: the maximal runs of non-space characters. *)
Fixpoint split_chars (cur : list ascii) (l : list ascii) : list string :=
  match l with
  | [] => match cur with [] => [] | _ => [str (rev cur)] end
  | c :: l' =>
      if is_space c
      then match cur with
           | [] => split_chars [] l'
           | _ => str (rev cur) :: split_chars [] l'
           end
      else split_chars (c :: cur) l'
  end.

Definition split (s : string) : list string := split_chars [] (chars s).

(** [str(n)] for a natural number. *)
Definition str_of_nat (n : nat) : string :=
  DecimalString.NilEmpty.string_of_uint (Nat.to_uint n).

Definition nonempty (s : string) : bool := negb (String.eqb s "").

End Py.

(** ** [scripts/detect_stack.py] *)

Module DetectStack.
Import Py.
Local Open Scope float_scope.

(** *** The project directory

    [path_exists] answers [(project_root / rel).exists()]; [tree] is what
    [os.walk] sees: every directory with its file names and its
    sub-directories, in the order the system lists them. *)

Inductive dir : Type :=
| Dir (files : list string) (subdirs : list (string * dir)).

Record project : Type := {
  root_path : string;
  root_is_dir : bool;
  path_exists : string -> bool;
  tree : dir
}.

Definition EXCLUDED_DIRS : list string :=
  ["node_modules"; ".git"; ".next"; ".nuxt"; "dist"; "build"; "coverage";
   "out"; ".turbo"]%string.

(** *** [gather_source_stats] *)

(** The keys of the [counts] dictionary, and the dictionary: every key is
    present from the start, so it is a total map. *)
Inductive stat : Type :=
| ts | tsx | js | jsx | vue | svelte | scss | less | css
| module_css | module_scss | module_less.

Definition source_stats : Type := stat -> nat.

Definition stat_eqb (a b : stat) : bool :=
  match a, b with
  | ts, ts | tsx, tsx | js, js | jsx, jsx | vue, vue | svelte, svelte
  | scss, scss | less, less | css, css
  | module_css, module_css | module_scss, module_scss
  | module_less, module_less => true
  | _, _ => false
  end.

Definition no_stats : source_stats := fun _ => 0%nat.

(** [counts[key] += 1] *)
Definition bump (key : stat) (counts : source_stats) : source_stats :=
  fun k => if stat_eqb key k then S (counts k) else counts k.

(** Index of the last ['.'] of a name, as [str.rfind] gives it. *)
Fixpoint rfind_dot (l : list ascii) (i : nat) (found : option nat) : option nat :=
  match l with
  | [] => found
  | c :: l' =>
      rfind_dot l' (S i) (if Ascii.eqb c "."%char then Some i else found)
  end.

(** [PurePath.suffix] of a file name: the part from the last dot, unless
    that dot is the first or the last character. *)
Definition suffix (filename : string) : string :=
  match rfind_dot (chars filename) 0 None with
  | Some i =>
      if (0 <? i)%nat && (i <? String.length filename - 1)%nat
      then String.substring i (String.length filename - i) filename
      else ""%string
  | None => ""%string
  end.

(** The body of the inner loop after [scanned += 1]: the two [if] chains. *)
Definition count_file (filename : string) (counts : source_stats)
  : source_stats :=
  let sfx := lower (suffix filename) in
  let lower_name := lower filename in
  let counts :=
    if String.eqb sfx ".ts" then bump ts counts
    else if String.eqb sfx ".tsx" then bump tsx counts
    else if String.eqb sfx ".js" then bump js counts
    else if String.eqb sfx ".jsx" then bump jsx counts
    else if String.eqb sfx ".vue" then bump vue counts
    else if String.eqb sfx ".svelte" then bump svelte counts
    else if String.eqb sfx ".scss" then bump scss counts
    else if String.eqb sfx ".less" then bump less counts
    else if String.eqb sfx ".css" then bump css counts
    else counts in
  if endswith lower_name ".module.css" then bump module_css counts
  else if endswith lower_name ".module.scss" then bump module_scss counts
  else if endswith lower_name ".module.less" then bump module_less counts
  else counts.

(** [os.walk(project_root)], top-down, with [dirs[:]] pruned of the
    excluded names before the walk descends: the [files] list of every
    directory visited, in visiting order. *)
Fixpoint walk (d : dir) : list (list string) :=
  match d with
  | Dir files subdirs =>
      files ::
      (fix walk_subdirs (l : list (string * dir)) : list (list string) :=
         match l with
         | [] => []
         | (name, sub) :: l' =>
             if mem name EXCLUDED_DIRS then walk_subdirs l'
             else (walk sub ++ walk_subdirs l')%list
         end) subdirs
  end.

(** A loop body either goes on with the loop state or returns from the
    function. *)
Inductive flow (S R : Type) : Type :=
| Continue (s : S)
| Return (r : R).
Arguments Continue {S R} s.
Arguments Return {S R} r.

(** The loop state: [counts] and [scanned]. *)
Definition scan_state : Type := (source_stats * nat)%type.

(** [for filename in files: ...] *)
Fixpoint scan_files (max_files : nat) (files : list string) (st : scan_state)
  : flow scan_state source_stats :=
  match files with
  | [] => Continue st
  | filename :: files' =>
      let (counts, scanned) := st in
      if (max_files <=? scanned)%nat then Return counts
      else scan_files max_files files' (count_file filename counts, S scanned)
  end.

(** [for current_root, dirs, files in os.walk(project_root): ...] *)
Fixpoint scan_walk (max_files : nat) (w : list (list string)) (st : scan_state)
  : flow scan_state source_stats :=
  match w with
  | [] => Continue st
  | files :: w' =>
      match scan_files max_files files st with
      | Return counts => Return counts
      | Continue st' => scan_walk max_files w' st'
      end
  end.

(** [gather_source_stats(project_root, max_files)]: the early [return
    counts] of the loop, or the [return counts] after it. *)
Definition gather_source_stats (root : project) (max_files : nat)
  : source_stats :=
  match scan_walk max_files (walk (tree root)) (no_stats, 0%nat) with
  | Return counts => counts
  | Continue (counts, _) => counts
  end.

(** The default of the parameter: [max_files: int = 4000]. *)
Definition max_files_default : nat := 4000.

(** *** The evidence store shared by the two weighted classifiers

    [scores] and [evidence] are the two dictionaries of a detector, and
    [add] its local function: [scores[name] += points] and
    [evidence[name].append(reason)], a [KeyError] on a name that is not a
    key. *)

Record tally : Type := {
  scores : dict float;
  evidence : dict (list string)
}.

Definition add_call : Type := (string * float * string)%type.

Definition add (call : add_call) (t : tally) : option tally :=
  let '(name, points, reason) := call in
  s <- get (scores t) name ;;
  e <- get (evidence t) name ;;
  Some {| scores := set (scores t) name (s + points);
          evidence := set (evidence t) name (e ++ [reason])%list |}.

(** [evidence = {name: [] for name in scores}] *)
Definition start (init : dict float) : tally :=
  {| scores := init; evidence := map (fun kv => (fst kv, [])) init |}.

(** One [if cond: add(...); add(...)] statement. *)
Record rule : Type := When { fires : bool; adds : list add_call }.

Fixpoint run_adds (calls : list add_call) (t : tally) : option tally :=
  match calls with
  | [] => Some t
  | call :: calls' => t' <- add call t ;; run_adds calls' t'
  end.

(** The statements of a detector, from top to bottom. *)
Fixpoint run_rules (rules : list rule) (t : tally) : option tally :=
  match rules with
  | [] => Some t
  | r :: rules' =>
      t' <- (if fires r then run_adds (adds r) t else Some t) ;;
      run_rules rules' t'
  end.

(** [ordered = sorted(scores.items(), key=lambda x: x[1], reverse=True)] *)
Definition ordered (sc : dict float) : list (string * float) :=
  sorted_desc PrimFloat.ltb snd sc.

(** [top_name, top_score = ordered[0]] and
    [second_score = ordered[1][1] if len(ordered) > 1 else 0.0];
    [ordered[0]] raises on an empty list. *)
Definition top_two (sc : dict float) : option (string * float * float) :=
  match ordered sc with
  | [] => None
  | (top_name, top_score) :: rest =>
      Some (top_name, top_score,
            match rest with
            | (_, second_score) :: _ => second_score
            | [] => 0.0
            end)
  end.

(** *** [detect_framework] *)

Definition framework_scores0 : dict float :=
  [("next", 0.0); ("react", 0.0); ("nuxt", 0.0); ("vue", 0.0); ("taro", 0.0);
   ("svelte", 0.0); ("vanilla", 0.2)]%string.

Definition framework_rules (root : project) (dep_names : list string)
  : list rule :=
  [ When (mem "next" dep_names) [("next", 1.2, "dependency: next")];
    When (mem "react" dep_names) [("react", 0.9, "dependency: react")];
    When (mem "react-dom" dep_names) [("react", 0.3, "dependency: react-dom")];
    When (mem "react-router" dep_names || mem "react-router-dom" dep_names)
      [("react", 0.2, "dependency: react-router")];
    When (mem "nuxt" dep_names) [("nuxt", 1.2, "dependency: nuxt")];
    When (mem "vue" dep_names) [("vue", 0.9, "dependency: vue")];
    When (mem "vue-router" dep_names) [("vue", 0.2, "dependency: vue-router")];
    When (existsb (fun dep => startswith dep "@tarojs/") dep_names)
      [("taro", 1.3, "dependency: @tarojs/*")];
    When (mem "svelte" dep_names) [("svelte", 1.0, "dependency: svelte")];
    When (mem "@sveltejs/kit" dep_names)
      [("svelte", 0.5, "dependency: @sveltejs/kit")];
    When (path_exists root "next.config.js" || path_exists root "next.config.mjs")
      [("next", 0.4, "config: next.config.*")];
    When (path_exists root "nuxt.config.ts" || path_exists root "nuxt.config.js")
      [("nuxt", 0.4, "config: nuxt.config.*")];
    When (path_exists root "src/app" || path_exists root "app")
      [("next", 0.3, "dir: app router structure")];
    When (path_exists root "pages" || path_exists root "src/pages")
      [("next", 0.1, "dir: pages structure");
       ("react", 0.1, "dir: pages structure");
       ("nuxt", 0.1, "dir: pages structure")];
    When (path_exists root "config/index.ts" || path_exists root "config/index.js")
      [("taro", 0.3, "config: taro-like config/index.*")] ]%string.

(** The confidence arithmetic of [detect_framework], lines 159-167. *)
Definition framework_confidence (top_name : string) (top_score second_score : float)
  : float :=
  let confidence :=
    if String.eqb top_name "vanilla" then
      if 0.2 <? top_score then 0.55 else 0.35
    else
      let confidence := min 0.98 (0.45 + top_score * 0.28) in
      if top_score - second_score <? 0.25 then confidence - 0.12
      else confidence in
  max 0.1 (round2 confidence).

Definition detect_framework (root : project) (deps : dict string)
  : option (string * float * list string * dict float) :=
  let dep_names := keys deps in
  t <- run_rules (framework_rules root dep_names) (start framework_scores0) ;;
  tt <- top_two (scores t) ;;
  let '(top_name, top_score, second_score) := tt in
  let confidence := framework_confidence top_name top_score second_score in
  ev <- get (evidence t) top_name ;;
  Some (top_name, confidence, ev, scores t).

(** *** [detect_language] *)

Definition detect_language (root : project) (st : source_stats)
  : string * list string :=
  let ts_total := (st ts + st tsx)%nat in
  let js_total := (st js + st jsx)%nat in
  if path_exists root "tsconfig.json" then
    ("typescript", ["file: tsconfig.json"])%string
  else if (js_total <? ts_total)%nat then
    ("typescript",
     ["source: ts files " ++ str_of_nat ts_total ++ " > js files "
        ++ str_of_nat js_total])%string
  else
    ("javascript",
     ["source: js files " ++ str_of_nat js_total ++ " >= ts files "
        ++ str_of_nat ts_total])%string.

(** *** [detect_style_system] *)

Definition style_scores0 : dict float :=
  [("tailwind", 0.0); ("css-modules", 0.0); ("scss", 0.0); ("less", 0.0);
   ("styled-components", 0.0); ("emotion", 0.0); ("css", 0.2)]%string.

Definition style_rules (root : project) (dep_names : list string)
  (st : source_stats) : list rule :=
  let module_total := (st module_css + st module_scss + st module_less)%nat in
  [ When (mem "tailwindcss" dep_names)
      [("tailwind", 1.0, "dependency: tailwindcss")];
    When (path_exists root "tailwind.config.js" || path_exists root "tailwind.config.ts")
      [("tailwind", 0.5, "config: tailwind.config.*")];
    When (0 <? module_total)%nat
      [("css-modules", 0.9,
        "source: module style files " ++ str_of_nat module_total)];
    When ((0 <? st scss)%nat || mem "sass" dep_names)
      [("scss", 0.7, "source/dependency: scss or sass")];
    When ((0 <? st less)%nat || mem "less" dep_names)
      [("less", 0.7, "source/dependency: less")];
    When (mem "styled-components" dep_names)
      [("styled-components", 1.0, "dependency: styled-components")];
    When (mem "@emotion/react" dep_names || mem "@emotion/styled" dep_names)
      [("emotion", 1.0, "dependency: emotion")] ]%string.

(** The confidence arithmetic of [detect_style_system], lines 234-237. *)
Definition style_confidence (top_score second_score : float) : float :=
  let confidence := min 0.98 (0.45 + top_score * 0.35) in
  let confidence :=
    if top_score - second_score <? 0.2 then confidence - 0.1
    else confidence in
  max 0.1 (round2 confidence).

(** The scores and evidence when the rules of [detect_style_system] have
    run. *)
Definition style_tally (root : project) (deps : dict string)
  (st : source_stats) : option tally :=
  run_rules (style_rules root (keys deps) st) (start style_scores0).

Definition detect_style_system (root : project) (deps : dict string)
  (st : source_stats) : option (string * list string * float) :=
  t <- style_tally root deps st ;;
  tt <- top_two (scores t) ;;
  let '(top_name, top_score, second_score) := tt in
  let confidence := style_confidence top_score second_score in
  ev <- get (evidence t) top_name ;;
  Some (top_name, ev, confidence).

(** *** [detect_package_manager] *)

Definition detect_package_manager (root : project) : string * list string :=
  if path_exists root "pnpm-lock.yaml" then ("pnpm", ["file: pnpm-lock.yaml"])
  else if path_exists root "yarn.lock" then ("yarn", ["file: yarn.lock"])
  else if path_exists root "package-lock.json" then
    ("npm", ["file: package-lock.json"])
  else if path_exists root "bun.lockb" || path_exists root "bun.lock" then
    ("bun", ["file: bun lock"])
  else ("npm", ["fallback: no lockfile"]).

(** *** [main] *)

(** The two options of the command line after [--project-root]; [argparse]
    admits ["auto"] or one of the axis's labels. *)
Record args : Type := { arg_framework : string; arg_style : string }.

(** The object of [package.json] as [main] reads it: each of the three
    blocks, when it is present and an object, with its values already passed
    through [str]. *)
Record package_data : Type := {
  dependencies : option (dict string);
  devDependencies : option (dict string);
  peerDependencies : option (dict string)
}.

(** [deps.update(block)] *)
Definition update (deps : dict string) (block : dict string) : dict string :=
  fold_left (fun d kv => set d (fst kv) (snd kv)) block deps.

(** [main], lines 279-284, on the value [load_package_json] returned;
    [None] is a value that is not an object. *)
Definition collect_deps (pkg : option package_data) : dict string :=
  match pkg with
  | None => []
  | Some data =>
      fold_left
        (fun deps block =>
           match block with
           | Some b => update deps b
           | None => deps
           end)
        [dependencies data; devDependencies data; peerDependencies data] []
  end.

Record report : Type := {
  framework : string;
  language : string;
  style_system : string;
  package_manager : string;
  confidence : float;
  evidence_framework : list string;
  evidence_language : list string;
  evidence_style_system : list string;
  evidence_package_manager : list string;
  diagnostics_framework_scores : dict float;
  diagnostics_source_stats : source_stats;
  overrides : dict string
}.

(** What [main] prints, with its exit status. *)
Inductive output : Type :=
| Failure (message : string) (status : nat)
| Success (r : report) (status : nat).

(** The values of [main]'s locals when the override block (lines 292-308)
    has run: the two winners, evidence lists and per-axis confidences, and
    [overrides]. *)
Record axes : Type := {
  ax_framework : string;
  ax_fw_evidence : list string;
  ax_fw_confidence : float;
  ax_style_system : string;
  ax_style_evidence : list string;
  ax_style_confidence : float;
  ax_overrides : dict string
}.

Definition resolve_axes (a : args)
  (fw : string * float * list string * dict float)
  (st : string * list string * float) : axes :=
  let '(framework, fw_confidence, fw_evidence, _) := fw in
  let '(style_system, style_evidence, style_confidence) := st in
  let overrides : dict string := [] in
  let '(framework, overrides, fw_evidence, fw_confidence) :=
    if negb (String.eqb (arg_framework a) "auto") then
      (arg_framework a, set overrides "framework" (arg_framework a),
       ["override: framework=" ++ arg_framework a]%string, 0.99)
    else (framework, overrides, fw_evidence, fw_confidence) in
  let '(style_system, overrides, style_evidence, style_confidence) :=
    if negb (String.eqb (arg_style a) "auto") then
      (arg_style a, set overrides "style_system" (arg_style a),
       ["override: style=" ++ arg_style a]%string, 0.99)
    else (style_system, overrides, style_evidence, style_confidence) in
  let fw_evidence :=
    match fw_evidence with
    | [] => ["fallback: framework=" ++ framework]%string
    | _ => fw_evidence
    end in
  let style_evidence :=
    match style_evidence with
    | [] => ["fallback: style_system=" ++ style_system]%string
    | _ => style_evidence
    end in
  {| ax_framework := framework; ax_fw_evidence := fw_evidence;
     ax_fw_confidence := fw_confidence;
     ax_style_system := style_system; ax_style_evidence := style_evidence;
     ax_style_confidence := style_confidence; ax_overrides := overrides |}.

(** Line 310. *)
Definition report_confidence (fw_confidence style_confidence : float) : float :=
  round2 (min 0.99 ((fw_confidence + style_confidence) / 2.0)).

(** [main] with the value [pkg] that [load_package_json] returned; [None]
    is an exception escaping it. *)
Definition main (a : args) (root : project) (pkg : option package_data)
  : option output :=
  if negb (root_is_dir root) then
    Some (Failure ("project root not found: " ++ root_path root) 2)
  else
    let deps := collect_deps pkg in
    let source_stats := gather_source_stats root max_files_default in
    fw <- detect_framework root deps ;;
    let '(language, language_evidence) := detect_language root source_stats in
    st <- detect_style_system root deps source_stats ;;
    let '(package_manager, pm_evidence) := detect_package_manager root in
    let ax := resolve_axes a fw st in
    let fw_scores := snd fw in
    Some (Success
            {| framework := ax_framework ax;
               language := language;
               style_system := ax_style_system ax;
               package_manager := package_manager;
               confidence :=
                 report_confidence (ax_fw_confidence ax) (ax_style_confidence ax);
               evidence_framework := ax_fw_evidence ax;
               evidence_language := language_evidence;
               evidence_style_system := ax_style_evidence ax;
               evidence_package_manager := pm_evidence;
               diagnostics_framework_scores :=
                 map (fun kv => (fst kv, round2 (snd kv))) fw_scores;
               diagnostics_source_stats := source_stats;
               overrides := ax_overrides ax |}
            0).

(** *** [load_package_json], and [main] from its first line *)

(** What reading [package.json] comes to.  [load_package_json] returns the
    empty object when the file does not exist, and when [read_text] or
    [json.loads] raises a [json.JSONDecodeError] or an [OSError].  Its [try]
    catches nothing else: any other exception raised in the function
    escapes it, as the [UnicodeDecodeError] that [read_text] raises on a file
    that is not UTF-8 text.  Otherwise it returns the document, an object or
    not. *)
Inductive package_file : Type :=
| NoFile
| Caught
| Escapes
| Document (data : option package_data).




End DetectStack.

(** ** The regular expressions of [re.findall]

  A backtracking matcher with Python's priorities: the left alternative
  first, repetitions greedy.  A continuation receives the position reached
  and the text of group 1, and may refuse, which makes the matcher try its
  next choice. *)

Module Re.
Import Py.

Inductive regex : Type :=
| Eps
| Chr (p : ascii -> bool)
| Cat (r1 r2 : regex)
| Alt (r1 r2 : regex)
| Star (r : regex)
| Group (r : regex)
| WordBoundary.

(** [\w] on one character. *)
Definition is_word (c : ascii) : bool :=
  let n := nat_of_ascii c in
  (((48 <=? n) && (n <=? 57)) || ((65 <=? n) && (n <=? 90))
   || ((97 <=? n) && (n <=? 122)) || (n =? 95)
   || (n =? 170) || (n =? 178) || (n =? 179) || (n =? 181) || (n =? 185)
   || (n =? 186) || ((188 <=? n) && (n <=? 190))
   || ((192 <=? n) && (n <=? 214)) || ((216 <=? n) && (n <=? 246))
   || (248 <=? n))%nat.

(** A position in the text: the characters before it, nearest first, and
    the characters after it. *)
Definition cursor : Type := (list ascii * list ascii)%type.

Definition remaining (c : cursor) : nat := List.length (snd c).

(** The text between two positions of one text, [c] before [c']. *)
Definition between (c c' : cursor) : string :=
  str (rev (firstn (List.length (fst c') - List.length (fst c)) (fst c'))).

Definition at_boundary (c : cursor) : bool :=
  let before := match fst c with x :: _ => is_word x | [] => false end in
  let after := match snd c with x :: _ => is_word x | [] => false end in
  xorb before after.

Section Match.
Context {R : Type}.

Fixpoint matches (r : regex) (c : cursor) (cap : option string)
  (k : cursor -> option string -> option R) : option R :=
  match r with
  | Eps => k c cap
  | Chr p =>
      match snd c with
      | x :: rest => if p x then k (x :: fst c, rest) cap else None
      | [] => None
      end
  | Cat r1 r2 => matches r1 c cap (fun c' cap' => matches r2 c' cap' k)
  | Alt r1 r2 =>
      match matches r1 c cap k with
      | Some x => Some x
      | None => matches r2 c cap k
      end
  | Star r1 =>
      (fix star (fuel : nat) (c : cursor) (cap : option string) : option R :=
         match fuel with
         | 0 => k c cap
         | S fuel' =>
             match
               matches r1 c cap
                 (fun c' cap' =>
                    if (remaining c' <? remaining c)%nat then star fuel' c' cap'
                    else None)
             with
             | Some x => Some x
             | None => k c cap
             end
         end) (remaining c) c cap
  | Group r1 => matches r1 c cap (fun c' _ => k c' (Some (between c c')))
  | WordBoundary => if at_boundary c then k c cap else None
  end.
End Match.

(** The pattern syntax used by the script. *)
Definition chr (x : ascii) : regex := Chr (Ascii.eqb x).
Definition chr_i (x : ascii) : regex :=
  Chr (fun y => Ascii.eqb (lower_char y) (lower_char x)).
Definition none_of (s : string) : regex :=
  Chr (fun y => negb (existsb (Ascii.eqb y) (chars s))).
Definition seq (l : list regex) : regex := fold_right Cat Eps l.
Definition lit (s : string) : regex := seq (map chr (chars s)).
Definition lit_i (s : string) : regex := seq (map chr_i (chars s)).
Definition plus (r : regex) : regex := Cat r (Star r).
Definition opt (r : regex) : regex := Alt r Eps.
Fixpoint at_most (n : nat) (r : regex) : regex :=
  match n with
  | 0 => Eps
  | S n' => opt (Cat r (at_most n' r))
  end.
Fixpoint exactly (n : nat) (r : regex) : regex :=
  match n with
  | 0 => Eps
  | S n' => Cat r (exactly n' r)
  end.
(** [r{lo,hi}] *)
Definition repeat (lo hi : nat) (r : regex) : regex :=
  Cat (exactly lo r) (at_most (hi - lo) r).
Definition space : regex := Chr is_space.
(** [r1|r2|...|rn] *)
Fixpoint one_of (l : list regex) : regex :=
  match l with
  | [] => Chr (fun _ => false)
  | [r] => r
  | r :: l' => Alt r (one_of l')
  end.

(** [re.findall(pattern, text)]: the matches from left to right, each
    search starting where the previous match ended (one further after an
    empty match); the item is group 1 when the pattern has a group, the
    whole match otherwise. *)
Fixpoint findall_from (fuel : nat) (r : regex) (has_group : bool) (c : cursor)
  : list string :=
  match fuel with
  | 0 => []
  | S fuel' =>
      match matches r c None (fun c' cap => Some (c', cap)) with
      | Some (c', cap) =>
          let item :=
            if has_group then match cap with Some s => s | None => "" end
            else between c c' in
          if (remaining c' <? remaining c)%nat then
            item :: findall_from fuel' r has_group c'
          else
            match snd c with
            | x :: rest => item :: findall_from fuel' r has_group (x :: fst c, rest)
            | [] => [item]
            end
      | None =>
          match snd c with
          | x :: rest => findall_from fuel' r has_group (x :: fst c, rest)
          | [] => []
          end
      end
  end.

Definition findall (r : regex) (has_group : bool) (text : string) : list string :=
  findall_from (S (String.length text)) r has_group ([], chars text).

End Re.

(** ** [scripts/inspect_html.py] *)

Module InspectHtml.
Import Py Re.
Local Open Scope list_scope.

Definition SEMANTIC_TAGS : list string :=
  ["header"; "main"; "section"; "footer"; "nav"; "article"; "aside"; "form"].
Definition INTERACTIVE_TAGS : list string :=
  ["button"; "a"; "input"; "select"; "textarea"; "summary"].

(** An attribute value is [None] for an attribute written without one. *)
Definition attrs : Type := list (string * option string).

(** The calls [HTMLParser.feed] makes on the handlers the class overrides,
    in document order. *)
Inductive event : Type :=
| StartTag (tag : string) (a : attrs)
| StartEndTag (tag : string) (a : attrs)
| EndTag (tag : string)
| Data (data : string).

(** An entry of [interactive_elements] or of [root_children] (which has no
    [role]). *)
Record sample : Type := {
  s_tag : string;
  s_id : option string;
  s_class : option string;
  s_role : option string
}.

Record DraftInspector : Type := {
  tag_counter : dict nat;
  class_counter : dict nat;
  semantic_sections : dict nat;
  interactive_elements : list sample;
  images : list string;
  stylesheets : list string;
  scripts : list string;
  inline_styles : list string;
  style_blocks : list string;
  in_style : bool;
  style_buffer : list string;
  stack : list string;
  root_children : list sample
}.

(** [__init__] *)
Definition init : DraftInspector :=
  {| tag_counter := []; class_counter := []; semantic_sections := [];
     interactive_elements := []; images := []; stylesheets := [];
     scripts := []; inline_styles := []; style_blocks := [];
     in_style := false; style_buffer := []; stack := [];
     root_children := [] |}.

(** [{k: v for k, v in attrs}]: the last binding of a name wins. *)
Definition attrs_dict (a : attrs) : dict (option string) :=
  fold_left (fun d kv => set d (fst kv) (snd kv)) a [].

(** [d.get(k)] and [d.get(k, "")] *)
Definition dget (d : dict (option string)) (k : string) : option string :=
  match get d k with
  | Some v => v
  | None => None
  end.
Definition dget_or (d : dict (option string)) (k : string) (default : string)
  : option string :=
  match get d k with
  | Some v => v
  | None => Some default
  end.

(** The truth value of a string or [None]. *)
Definition truthy (v : option string) : bool :=
  match v with
  | Some s => nonempty s
  | None => false
  end.

Definition text (v : option string) : string :=
  match v with
  | Some s => s
  | None => ""
  end.

(** The condition of line 48. *)
Definition is_interactive (tag : string) (d : dict (option string)) : bool :=
  mem tag INTERACTIVE_TAGS
  || truthy (dget d "onclick")
  || match dget d "role" with
     | Some r => String.eqb r "button"
     | None => false
     end.

Definition last_or_empty (l : list string) : string := last l "".

Definition handle_starttag (tag : string) (a : attrs) (s : DraftInspector)
  : DraftInspector :=
  let d := attrs_dict a in
  let tag_counter := incr (tag_counter s) tag in
  let class_attr := dget d "class" in
  let class_counter :=
    if truthy class_attr
    then fold_left incr (split (text class_attr)) (class_counter s)
    else class_counter s in
  let semantic_sections :=
    if mem tag SEMANTIC_TAGS then incr (semantic_sections s) tag
    else semantic_sections s in
  let interactive_elements :=
    if is_interactive tag d then
      interactive_elements s ++
        [{| s_tag := tag; s_id := dget_or d "id" "";
            s_class := dget_or d "class" ""; s_role := dget_or d "role" "" |}]
    else interactive_elements s in
  let images :=
    if String.eqb tag "img" && truthy (dget d "src")
    then images s ++ [text (dget d "src")] else images s in
  let stylesheets :=
    if String.eqb tag "link" && truthy (dget d "href") then
      let rel := lower (text (dget d "rel")) in
      if contains "stylesheet" rel
      then stylesheets s ++ [text (dget d "href")] else stylesheets s
    else stylesheets s in
  let scripts :=
    if String.eqb tag "script" && truthy (dget d "src")
    then scripts s ++ [text (dget d "src")] else scripts s in
  let style_attr := dget d "style" in
  let inline_styles :=
    if truthy style_attr then inline_styles s ++ [text style_attr]
    else inline_styles s in
  let parent := last_or_empty (stack s) in
  let root_children :=
    if String.eqb parent "body" && (List.length (root_children s) <? 30)%nat
    then
      root_children s ++
        [{| s_tag := tag; s_id := dget_or d "id" "";
            s_class := dget_or d "class" ""; s_role := None |}]
    else root_children s in
  let is_style := String.eqb tag "style" in
  {| tag_counter := tag_counter;
     class_counter := class_counter;
     semantic_sections := semantic_sections;
     interactive_elements := interactive_elements;
     images := images;
     stylesheets := stylesheets;
     scripts := scripts;
     inline_styles := inline_styles;
     style_blocks := style_blocks s;
     in_style := if is_style then true else in_style s;
     style_buffer := if is_style then [] else style_buffer s;
     stack := stack s ++ [tag];
     root_children := root_children |}.

Definition with_stack (s : DraftInspector) (st : list string) : DraftInspector :=
  {| tag_counter := tag_counter s; class_counter := class_counter s;
     semantic_sections := semantic_sections s;
     interactive_elements := interactive_elements s;
     images := images s; stylesheets := stylesheets s; scripts := scripts s;
     inline_styles := inline_styles s; style_blocks := style_blocks s;
     in_style := in_style s; style_buffer := style_buffer s;
     stack := st; root_children := root_children s |}.

Definition handle_startendtag (tag : string) (a : attrs) (s : DraftInspector)
  : DraftInspector :=
  let s := handle_starttag tag a s in
  match stack s with
  | [] => s
  | _ =>
      if String.eqb (last_or_empty (stack s)) tag
      then with_stack s (removelast (stack s))
      else s
  end.

(** [del l[idx]], an [IndexError] out of range. *)
Fixpoint del (l : list string) (idx : nat) : option (list string) :=
  match l, idx with
  | [], _ => None
  | _ :: l', 0 => Some l'
  | x :: l', S idx' => l'' <- del l' idx' ;; Some (x :: l'')
  end.

(** [for idx in range(n - 1, -1, -1): if stack[idx] == tag: del stack[idx];
    break], [stack[idx]] an [IndexError] out of range. *)
Fixpoint close_tag (n : nat) (st : list string) (tag : string)
  : option (list string) :=
  match n with
  | 0 => Some st
  | S idx =>
      x <- nth_error st idx ;;
      if String.eqb x tag then del st idx else close_tag idx st tag
  end.

(** [None] is an exception escaping the handler. *)
Definition handle_endtag (tag : string) (s : DraftInspector)
  : option DraftInspector :=
  let s :=
    if String.eqb tag "style" && in_style s then
      let txt := strip (String.concat "" (style_buffer s)) in
      {| tag_counter := tag_counter s; class_counter := class_counter s;
         semantic_sections := semantic_sections s;
         interactive_elements := interactive_elements s;
         images := images s; stylesheets := stylesheets s;
         scripts := scripts s; inline_styles := inline_styles s;
         style_blocks :=
           if nonempty txt then style_blocks s ++ [txt] else style_blocks s;
         in_style := false; style_buffer := [];
         stack := stack s; root_children := root_children s |}
    else s in
  st <- close_tag (List.length (stack s)) (stack s) tag ;;
  Some (with_stack s st).

Definition handle_data (data : string) (s : DraftInspector) : DraftInspector :=
  if in_style s then
    {| tag_counter := tag_counter s; class_counter := class_counter s;
       semantic_sections := semantic_sections s;
       interactive_elements := interactive_elements s;
       images := images s; stylesheets := stylesheets s;
       scripts := scripts s; inline_styles := inline_styles s;
       style_blocks := style_blocks s;
       in_style := in_style s; style_buffer := style_buffer s ++ [data];
       stack := stack s; root_children := root_children s |}
  else s.

Definition handle (e : event) (s : DraftInspector) : option DraftInspector :=
  match e with
  | StartTag tag a => Some (handle_starttag tag a s)
  | StartEndTag tag a => Some (handle_startendtag tag a s)
  | EndTag tag => handle_endtag tag s
  | Data data => Some (handle_data data s)
  end.

(** [inspector.feed(raw_html)], as the sequence of handler calls it makes. *)
Fixpoint feed (events : list event) (s : DraftInspector) : option DraftInspector :=
  match events with
  | [] => Some s
  | e :: events' => s' <- handle e s ;; feed events' s'
  end.

(** *** [unique_limited] and [extract_tokens] *)

(** The loop of [unique_limited], with its locals [seen] and [result]. *)
Fixpoint unique_limited_loop (limit : nat) (items seen result : list string)
  : list string :=
  match items with
  | [] => result
  | item :: items' =>
      let normalized := strip item in
      if negb (nonempty normalized) then
        unique_limited_loop limit items' seen result
      else if mem normalized seen then
        unique_limited_loop limit items' seen result
      else
        let seen := normalized :: seen in
        let result := result ++ [normalized] in
        if (limit <=? List.length result)%nat then result
        else unique_limited_loop limit items' seen result
  end.

Definition unique_limited (items : list string) (limit : nat) : list string :=
  unique_limited_loop limit items [] [].

Definition hex_digit : regex :=
  Chr (fun c =>
         let n := nat_of_ascii c in
         (((48 <=? n) && (n <=? 57)) || ((97 <=? n) && (n <=? 102))
          || ((65 <=? n) && (n <=? 70)))%nat).

(** [#(?:[0-9a-fA-F]{3,8})\b|rgba?\([^)]*\)|hsla?\([^)]*\)] *)
Definition colors_re : regex :=
  Alt (seq [lit "#"; repeat 3 8 hex_digit; WordBoundary])
    (Alt (seq [lit "rgb"; opt (lit "a"); lit "("; Star (none_of ")"); lit ")"])
         (seq [lit "hsl"; opt (lit "a"); lit "("; Star (none_of ")"); lit ")"])).

(** [name\s*:\s*([^;}{]+)] with [re.IGNORECASE], [name] one of the
    alternatives. *)
Definition declaration_re (names : list string) : regex :=
  seq [one_of (map lit_i names);
       Star space; lit ":"; Star space; Group (plus (none_of ";}{"))].

Definition font_sizes_re : regex := declaration_re ["font-size"].
Definition spacings_re : regex :=
  declaration_re ["margin"; "padding"; "gap"; "row-gap"; "column-gap"].
Definition radii_re : regex := declaration_re ["border-radius"].
Definition shadows_re : regex := declaration_re ["box-shadow"].

Record tokens : Type := {
  colors : list string;
  font_sizes : list string;
  spacings : list string;
  radii : list string;
  shadows : list string
}.

Definition extract_tokens (css_text : string) : tokens :=
  {| colors := unique_limited (findall colors_re false css_text) 40;
     font_sizes := unique_limited (findall font_sizes_re true css_text) 40;
     spacings := unique_limited (findall spacings_re true css_text) 40;
     radii := unique_limited (findall radii_re true css_text) 40;
     shadows := unique_limited (findall shadows_re true css_text) 40 |}.

(** *** [main], from the parsed draft on *)

Record summary : Type := {
  element_count : nat;
  unique_tags : nat;
  top_tags : list (string * nat);
  semantic_sections_out : list (string * nat);
  interactive_elements_out : nat;
  external_images : list string;
  external_stylesheets : list string;
  external_scripts : list string
}.

Record output : Type := {
  html_path : string;
  out_summary : summary;
  out_tokens : tokens;
  out_root_children : list sample;
  repeated_classes : list (string * nat);
  sample_interactive : list sample
}.

(** Lines 173-207. *)
Definition build_output (path : string) (inspector : DraftInspector) : output :=
  let combined_css :=
    String.concat (String "010"%char "")
      (inline_styles inspector ++ style_blocks inspector) in
  let tokens := extract_tokens combined_css in
  let repeated_classes :=
    filter (fun cc => (2 <=? snd cc)%nat)
      (most_common 30 (class_counter inspector)) in
  {| html_path := path;
     out_summary :=
       {| element_count := sum (values (tag_counter inspector));
          unique_tags := List.length (tag_counter inspector);
          top_tags := most_common 15 (tag_counter inspector);
          semantic_sections_out :=
            most_common_all (semantic_sections inspector);
          interactive_elements_out :=
            List.length (interactive_elements inspector);
          external_images := unique_limited (images inspector) 50;
          external_stylesheets := unique_limited (stylesheets inspector) 50;
          external_scripts := unique_limited (scripts inspector) 50 |};
     out_tokens := tokens;
     out_root_children := root_children inspector;
     repeated_classes := repeated_classes;
     sample_interactive := firstn 20 (interactive_elements inspector) |}.

(** [main] once the file has been read: [None] is an exception escaping. *)
Definition main (path : string) (events : list event) : option output :=
  inspector <- feed events init ;;
  Some (build_output path inspector).

End InspectHtml.

(** ** [scripts/suggest_target_path.py] *)

Module SuggestTargetPath.
Import Py.

(** *** [load_dependencies] *)

(** The reading of [package.json] is that of [detect_stack.py], with the
    same [try]: [DetectStack.package_file] says what it comes to.  [None] is
    an exception escaping [load_dependencies]: one that reading the file
    raises and the [try] does not catch, or the [AttributeError] of
    [data.get] on a document that is not an object, which nothing catches. *)
Definition load_dependencies (file : DetectStack.package_file)
  : option (dict string) :=
  match file with
  | DetectStack.NoFile => Some []
  | DetectStack.Caught => Some []
  | DetectStack.Escapes => None
  | DetectStack.Document None => None
  | DetectStack.Document (Some data) =>
      Some
        (fold_left
           (fun deps block =>
              match block with
              | Some b => DetectStack.update deps b
              | None => deps
              end)
           [DetectStack.dependencies data; DetectStack.devDependencies data;
            DetectStack.peerDependencies data] [])
  end.

(** *** [infer_framework] and [infer_language] *)

Definition infer_framework (root : DetectStack.project) (deps : dict string)
  (framework_opt : string) : string :=
  if negb (String.eqb framework_opt "auto") then framework_opt
  else
    let dep_names := keys deps in
    if mem "next" dep_names then "next"
    else if mem "nuxt" dep_names then "nuxt"
    else if existsb (fun name => startswith name "@tarojs/") dep_names
    then "taro"
    else if mem "@sveltejs/kit" dep_names || mem "svelte" dep_names
    then "svelte"
    else if mem "vue" dep_names then "vue"
    else if mem "react" dep_names then "react"
    else if DetectStack.path_exists root "src/app"
            || DetectStack.path_exists root "app" then "next"
    else if DetectStack.path_exists root "pages"
            && DetectStack.path_exists root "nuxt.config.ts" then "nuxt"
    else "vanilla".

Definition infer_language (root : DetectStack.project) (language_opt : string)
  : string :=
  if negb (String.eqb language_opt "auto") then language_opt
  else if DetectStack.path_exists root "tsconfig.json" then "typescript"
  else "javascript".

(** *** [to_pascal_case] and [to_kebab_case] *)

(** The character classes [[a-z]], [[A-Z]], [[0-9]] and [[a-zA-Z0-9]]. *)
Definition is_lower (c : ascii) : bool :=
  let n := nat_of_ascii c in ((97 <=? n) && (n <=? 122))%nat.
Definition is_upper (c : ascii) : bool :=
  let n := nat_of_ascii c in ((65 <=? n) && (n <=? 90))%nat.
Definition is_digit (c : ascii) : bool :=
  let n := nat_of_ascii c in ((48 <=? n) && (n <=? 57))%nat.
Definition is_alnum (c : ascii) : bool :=
  is_lower c || is_upper c || is_digit c.

(** [re.split(r"[^a-zA-Z0-9]+", value)]: the pieces between the maximal
    runs of other characters; a run at either end leaves an empty piece
    there.  [cur] is the piece being read, backwards, and [in_run] says
    that the last character read belongs to a run. *)
Fixpoint re_split (cur : list ascii) (in_run : bool) (l : list ascii)
  : list string :=
  match l with
  | [] => [str (rev cur)]
  | c :: l' =>
      if is_alnum c then re_split (c :: cur) false l'
      else if in_run then re_split [] true l'
      else str (rev cur) :: re_split [] true l'
  end.

(** [str.upper] on one character of a chunk, which is an ASCII letter or
    digit. *)
Definition upper_char (c : ascii) : ascii :=
  if is_lower c then ascii_of_nat (nat_of_ascii c - 32) else c.

(** [chunk[:1].upper() + chunk[1:]] *)
Definition capitalize (chunk : string) : string :=
  match chunk with
  | EmptyString => EmptyString
  | String c rest => String (upper_char c) rest
  end.

Definition to_pascal_case (value : string) : string :=
  let chunks := re_split [] false (chars value) in
  let filtered := filter nonempty chunks in
  match filtered with
  | [] => "RestoredDesign"
  | _ => String.concat "" (map capitalize filtered)
  end.

(** [re.sub(r"([a-z0-9])([A-Z])", r"\1-\2", value)]: from left to right, a
    lower-case letter or digit followed by a capital takes a dash in
    between, and the search resumes after the capital. *)
Fixpoint split_words (l : list ascii) : list ascii :=
  match l with
  | [] => []
  | c :: l' =>
      match l' with
      | c' :: l'' =>
          if (is_lower c || is_digit c) && is_upper c'
          then c :: "-"%char :: c' :: split_words l''
          else c :: split_words l'
      | [] => [c]
      end
  end.

(** [re.sub(r"[^a-zA-Z0-9]+", "-", replaced)]: every maximal run of other
    characters becomes one dash. *)
Fixpoint replace_runs (in_run : bool) (l : list ascii) : list ascii :=
  match l with
  | [] => []
  | c :: l' =>
      if is_alnum c then c :: replace_runs false l'
      else if in_run then replace_runs true l'
      else "-"%char :: replace_runs true l'
  end.

Fixpoint lstrip_dashes (l : list ascii) : list ascii :=
  match l with
  | c :: l' => if Ascii.eqb c "-" then lstrip_dashes l' else l
  | [] => []
  end.

(** [s.strip("-")] on the characters of [s]. *)
Definition strip_dashes (l : list ascii) : list ascii :=
  rev (lstrip_dashes (rev (lstrip_dashes l))).

Definition to_kebab_case (value : string) : string :=
  let replaced := split_words (chars value) in
  let replaced := replace_runs false replaced in
  let normalized := lower (str (strip_dashes replaced)) in
  if nonempty normalized then normalized else "restored-design".

(** *** [choose_extension] *)

Definition choose_extension (framework language : string) : string :=
  if mem framework ["vue"; "nuxt"] then "vue"
  else if String.eqb framework "svelte" then "svelte"
  else if String.eqb framework "vanilla" then "html"
  else if mem framework ["next"; "react"; "taro"] then
    if String.eqb language "typescript" then "tsx" else "jsx"
  else if String.eqb language "typescript" then "tsx" else "jsx".

(** *** [default_path] *)

(** A relative path, as the operands of the [/] that builds it, from left
    to right.  The operands are fixed directories, the two names, which
    hold letters, digits and dashes only, and file names made from them:
    on such operands [str(path)] joins them with a slash. *)
Definition path : Type := list string.

Definition path_str (p : path) : string := String.concat "/" p.

Definition default_path (root : DetectStack.project)
  (framework scope name extension : string) : path :=
  let component_name := to_pascal_case name in
  let route_name := to_kebab_case name in
  let file (stem : string) : string := stem ++ "." ++ extension in
  if String.eqb framework "next" then
    if String.eqb scope "page" then
      if DetectStack.path_exists root "src/app" then
        ["src/app"; route_name; file "page"]
      else if DetectStack.path_exists root "app" then
        ["app"; route_name; file "page"]
      else if DetectStack.path_exists root "src/pages" then
        ["src/pages"; file route_name]
      else ["pages"; file route_name]
    else ["src/components"; file component_name]
  else if String.eqb framework "react" then
    if String.eqb scope "page" then ["src/pages"; file component_name]
    else ["src/components"; file component_name]
  else if String.eqb framework "nuxt" then
    if String.eqb scope "page" then ["pages"; route_name ++ ".vue"]
    else ["components"; component_name ++ ".vue"]
  else if String.eqb framework "vue" then
    if String.eqb scope "page" then ["src/views"; component_name ++ ".vue"]
    else ["src/components"; component_name ++ ".vue"]
  else if String.eqb framework "taro" then
    if String.eqb scope "page" then ["src/pages"; route_name; file "index"]
    else ["src/components"; component_name; file "index"]
  else if String.eqb framework "svelte" then
    if String.eqb scope "page" then
      if DetectStack.path_exists root "src/routes" then
        ["src/routes"; route_name; "+page.svelte"]
      else ["src/pages"; route_name ++ ".svelte"]
    else if DetectStack.path_exists root "src/lib" then
      ["src/lib"; component_name ++ ".svelte"]
    else ["src/components"; component_name ++ ".svelte"]
  else if String.eqb scope "page" then
    if DetectStack.path_exists root "src/pages" then
      ["src/pages"; route_name ++ ".html"]
    else ["pages"; route_name ++ ".html"]
  else ["components"; route_name ++ ".html"].

(** *** [main] *)

(** The command line after [--project-root]; [argparse] admits for each
    option ["auto"] or one of its choices, and any string for [--target] and
    [--name]. *)
Record args : Type := {
  arg_framework : string;
  arg_language : string;
  arg_scope : string;
  arg_target : string;
  arg_name : string;
  arg_overwrite : string
}.

(** What [pathlib] and the file system answer on an explicit target, lines
    202-211 and 218: [str(suggested_rel)], [str(suggested_abs)] and
    [suggested_abs.exists()]. *)
Record target : Type := {
  target_rel : string;
  target_abs : string;
  target_exists : bool
}.

(** [str(project_root / rel)] for a resolved root. *)
Definition under_root (root : DetectStack.project) (rel : string) : string :=
  if String.eqb (DetectStack.root_path root) "/" then "/" ++ rel
  else DetectStack.root_path root ++ "/" ++ rel.

Record report : Type := {
  framework : string;
  language : string;
  scope : string;
  recommended_path : string;
  recommended_path_abs : string;
  path_exists : bool;
  overwrite : string;
  needs_confirmation : bool;
  confirmation_reasons : list string;
  reasoning : list string
}.

Inductive output : Type :=
| Failure (message : string) (status : nat)
| Success (r : report) (status : nat).

(** Lines 218-232: [needs_confirmation] and [confirmation_reasons]. *)
Definition confirmation (framework framework_opt overwrite : string)
  (path_exists : bool) : bool * list string :=
  let needs_confirmation := false in
  let confirmation_reasons : list string := [] in
  let '(needs_confirmation, confirmation_reasons) :=
    if String.eqb framework "vanilla" && String.eqb framework_opt "auto"
    then (true, confirmation_reasons ++ ["framework fallback to vanilla"])%list
    else (needs_confirmation, confirmation_reasons) in
  let '(needs_confirmation, confirmation_reasons) :=
    if path_exists && mem overwrite ["ask"; "new"]
    then (true,
          confirmation_reasons
            ++ [("target exists and overwrite=" ++ overwrite)%string])%list
    else (needs_confirmation, confirmation_reasons) in
  let '(needs_confirmation, confirmation_reasons) :=
    if negb path_exists && String.eqb overwrite "patch"
    then (true,
          confirmation_reasons
            ++ ["overwrite=patch but target file does not exist"])%list
    else (needs_confirmation, confirmation_reasons) in
  (needs_confirmation, confirmation_reasons).

(** [main]; [None] is an exception escaping it. *)
Definition main (a : args) (root : DetectStack.project)
  (pkg : DetectStack.package_file) (explicit : string -> target)
  : option output :=
  if negb (DetectStack.root_is_dir root) then
    Some (Failure ("project root not found: " ++ DetectStack.root_path root) 2)
  else
    deps <- load_dependencies pkg ;;
    let framework := infer_framework root deps (arg_framework a) in
    let language := infer_language root (arg_language a) in
    let extension := choose_extension framework language in
    let scope := arg_scope a in
    let normalized_scope :=
      if String.eqb scope "section" then "component" else scope in
    let reasoning : list string :=
      [if String.eqb (arg_framework a) "auto"
       then "framework inferred as " ++ framework
       else "framework override applied: " ++ framework] in
    let reasoning :=
      (reasoning ++
       [if String.eqb (arg_language a) "auto"
        then ("language inferred as " ++ language)%string
        else ("language override applied: " ++ language)%string])%list in
    let '(suggested_rel, suggested_abs, path_exists, reasoning) :=
      if nonempty (arg_target a) then
        let t := explicit (arg_target a) in
        (target_rel t, target_abs t, target_exists t,
         (reasoning ++ ["explicit target path provided"])%list)
      else
        let suggested_rel :=
          path_str
            (default_path root framework normalized_scope (arg_name a)
               extension) in
        (suggested_rel, under_root root suggested_rel,
         DetectStack.path_exists root suggested_rel,
         (reasoning ++
          [("target path suggested from framework=" ++ framework
              ++ " scope=" ++ normalized_scope)%string])%list) in
    let '(needs_confirmation, confirmation_reasons) :=
      confirmation framework (arg_framework a) (arg_overwrite a) path_exists in
    Some (Success
            {| framework := framework;
               language := language;
               scope := scope;
               recommended_path := suggested_rel;
               recommended_path_abs := suggested_abs;
               path_exists := path_exists;
               overwrite := arg_overwrite a;
               needs_confirmation := needs_confirmation;
               confirmation_reasons := confirmation_reasons;
               reasoning := reasoning |}
            0).

End SuggestTargetPath.

(** ** The vocabulary of the specification *)

Module Spec.
Import Py.
Local Open Scope list_scope.

(** *** Exhaustive case analysis on the conditions of the rules *)

Definition all_bool (p : bool -> bool) : bool := p true && p false.

(** *** The classifiers *)

(** The fixed enumeration order of each axis. *)
Definition framework_labels : list string :=
  ["next"; "react"; "nuxt"; "vue"; "taro"; "svelte"; "vanilla"].
Definition style_labels : list string :=
  ["tailwind"; "css-modules"; "scss"; "less"; "styled-components";
   "emotion"; "css"].

Fixpoint index_of (x : string) (l : list string) : option nat :=
  match l with
  | [] => None
  | y :: l' =>
      if String.eqb y x then Some 0
      else match index_of x l' with
           | Some i => Some (S i)
           | None => None
           end
  end.

(** [winner] is a label of the axis, no label has a larger score, and
    every label declared before it has a strictly smaller one. *)
Definition first_max (labels : list string) (sc : dict float)
  (winner : string) : Prop :=
  exists i w,
    nth_error labels i = Some winner /\ get sc winner = Some w /\
    forall j l, nth_error labels j = Some l ->
      exists v, get sc l = Some v /\
                PrimFloat.leb v w = true /\
                (j < i -> PrimFloat.ltb v w = true).

Fixpoint first_max_from (j i : nat) (w : float) (labels : list string)
  (sc : dict float) : bool :=
  match labels with
  | [] => true
  | l :: labels' =>
      match get sc l with
      | Some v =>
          PrimFloat.leb v w && (if (j <? i)%nat then PrimFloat.ltb v w else true)
          && first_max_from (S j) i w labels' sc
      | None => false
      end
  end.

Definition first_maxb (labels : list string) (sc : dict float)
  (winner : string) : bool :=
  match index_of winner labels, get sc winner with
  | Some i, Some w => first_max_from 0 i w labels sc
  | _, _ => false
  end.

(** The states a detector goes through: the tally before the first [add]
    and after every [add] it executes. *)
Definition fired (rules : list DetectStack.rule) : list DetectStack.add_call :=
  flat_map (fun r => if DetectStack.fires r then DetectStack.adds r else [])
    rules.

Fixpoint trace_adds (calls : list DetectStack.add_call) (t : DetectStack.tally)
  : list DetectStack.tally :=
  t :: match calls with
       | [] => []
       | call :: calls' =>
           match DetectStack.add call t with
           | Some t' => trace_adds calls' t'
           | None => []
           end
       end.

Definition trace (rules : list DetectStack.rule) (t : DetectStack.tally)
  : list DetectStack.tally :=
  trace_adds (fired rules) t.

Definition nonneg_scores (t : DetectStack.tally) : bool :=
  forallb (fun kv => PrimFloat.leb 0 (snd kv)) (DetectStack.scores t).

(** The largest score among the labels other than [winner]: the score of
    the runner-up. *)
Definition runner_up (sc : dict float) (winner : string) : float :=
  fold_left
    (fun m kv =>
       if String.eqb (fst kv) winner then m
       else if PrimFloat.ltb m (snd kv) then snd kv else m)
    sc 0%float.

Definition smaller (a b : float) : float := if PrimFloat.leb a b then a else b.
Definition floor_at (lo x : float) : float := if PrimFloat.ltb x lo then lo else x.

(** The framework confidence as the specification words it. *)
Definition spec_framework_confidence (winner : string) (sc : dict float)
  : option float :=
  top_score <- get sc winner ;;
  let runner := runner_up sc winner in
  let c :=
    if String.eqb winner "vanilla" then
      if PrimFloat.ltb 0.2 top_score then 0.55%float else 0.35%float
    else
      let c := smaller 0.98 (0.45 + top_score * 0.28)%float in
      if PrimFloat.ltb (top_score - runner) 0.25 then (c - 0.12)%float else c in
  Some (floor_at 0.1 (round2 c)).

(** [x] lies in [[0.1, 0.99]]. *)
Definition in_range (x : float) : bool :=
  PrimFloat.leb 0.1 x && PrimFloat.leb x 0.99.

(** [x] is a two-decimal value: the double nearest to a whole number of
    hundredths. *)
Definition two_decimal (x : float) : Prop :=
  exists i : int, PrimFloat.eqb x (of_uint63 i / 100)%float = true.

(** The whole part of [100 * x + 0.5], for [x] from [0.005] up: the number
    of hundredths to try.  The mantissa of [m * 2^(e - 2101)], a 53-bit
    integer, is shifted down to its whole part. *)
Definition nearest_hundredth (x : float) : int :=
  let (m, e) := frshiftexp (x * 100 + 0.5)%float in
  PrimInt63.lsr (normfr_mantissa m) (PrimInt63.sub 2154 e).

Definition two_decimalb (x : float) : bool :=
  PrimFloat.eqb x (of_uint63 (nearest_hundredth x) / 100)%float.

Definition confidence_ok (x : float) : bool := in_range x && two_decimalb x.

(** Every confidence [detect_style_system] can return. *)
Definition style_confidences : list float :=
  [0.97; 0.7; 0.8; 0.77; 0.59; 0.69; 0.62; 0.52]%float.

(** What the exhaustive analysis of a detector checks on one run: the
    scores stay non-negative, the winner is the first maximum, the
    confidence is the specified one, a two-decimal value of [[0.1, 0.99]],
    and so is the report's confidence with every confidence the other axis
    can have. *)
Definition framework_facts (tr : list DetectStack.tally)
  (o : option (string * float * list string * dict float)) : bool :=
  forallb nonneg_scores tr &&
  match o with
  | Some (w, conf, _, sc) =>
      first_maxb framework_labels sc w
      && match spec_framework_confidence w sc with
         | Some c => PrimFloat.eqb conf c
         | None => false
         end
      && confidence_ok conf
      && forallb (fun s => confidence_ok (DetectStack.report_confidence conf s))
           (0.99%float :: style_confidences)
  | None => false
  end.

Definition style_facts (tr : list DetectStack.tally)
  (t : option DetectStack.tally) (o : option (string * list string * float))
  : bool :=
  forallb nonneg_scores tr &&
  match t, o with
  | Some t, Some (w, _, conf) =>
      first_maxb style_labels (DetectStack.scores t) w && confidence_ok conf
  | _, _ => false
  end.

(** Replace the condition of every rule by a boolean variable, then check
    the goal for each value of them. *)
Ltac abstract_conditions :=
  repeat match goal with
         | |- context [DetectStack.When ?c _] =>
             tryif is_var c then fail
             else (let b := fresh "b" in generalize c; intro b)
         end.
Ltac check_all_cases all_bool_ok :=
  repeat match goal with
         | b : bool |- _ => revert b; apply all_bool_ok
         end;
  vm_compute; reflexivity.

(** A project directory with nothing in it, and a command line with no
    override. *)
Definition empty_project : DetectStack.project :=
  {| DetectStack.root_path := "/project";
     DetectStack.root_is_dir := true;
     DetectStack.path_exists := fun _ => false;
     DetectStack.tree := DetectStack.Dir [] [] |}.

Definition no_override : DetectStack.args :=
  {| DetectStack.arg_framework := "auto"; DetectStack.arg_style := "auto" |}.

(** Every entry of the scores under the key [vanilla] holds the baseline. *)
Definition vanilla_at_baseline (sc : dict float) : Prop :=
  forall v, In ("vanilla", v) sc -> v = 0.2%float.

(** A command line that forces the framework only, and a [package.json]
    whose one dependency is [next]. *)
Definition override_vue : DetectStack.args :=
  {| DetectStack.arg_framework := "vue"; DetectStack.arg_style := "auto" |}.

Definition package_with_next : DetectStack.package_data :=
  {| DetectStack.dependencies := Some [("next", "14.0.0")];
     DetectStack.devDependencies := None;
     DetectStack.peerDependencies := None |}.

(** *** The source statistics *)

(** The file names of the project in the order the walk meets them, the
    excluded directories left out. *)
Definition walk_files (root : DetectStack.project) : list string :=
  List.concat (DetectStack.walk (DetectStack.tree root)).

(** The counts of a list of files, without any bound. *)
Definition count_files (files : list string) (c : DetectStack.source_stats)
  : DetectStack.source_stats :=
  fold_left (fun c f => DetectStack.count_file f c) files c.

(** The number of files counted under a suffix, and under a module suffix. *)
Definition suffix_total (c : DetectStack.source_stats) : nat :=
  c DetectStack.ts + c DetectStack.tsx + c DetectStack.js + c DetectStack.jsx
  + c DetectStack.vue + c DetectStack.svelte + c DetectStack.scss
  + c DetectStack.less + c DetectStack.css.
Definition module_total (c : DetectStack.source_stats) : nat :=
  c DetectStack.module_css + c DetectStack.module_scss
  + c DetectStack.module_less.

(** *** The inspector *)

(** Remove the first occurrence of [tag]; on the stack read innermost
    first, this is the innermost open [tag]. *)
Fixpoint remove_first (tag : string) (l : list string) : list string :=
  match l with
  | [] => []
  | x :: l' => if String.eqb x tag then l' else x :: remove_first tag l'
  end.

Definition remove_innermost (tag : string) (st : list string) : list string :=
  rev (remove_first tag (rev st)).

(** The handler calls for [<div><span></div>]. *)
Definition unclosed_span : list InspectHtml.event :=
  [InspectHtml.StartTag "div" []; InspectHtml.StartTag "span" [];
   InspectHtml.EndTag "div"].

(** The opening tags of a draft, self-closing ones included, in document
    order. *)
Fixpoint start_tags (events : list InspectHtml.event)
  : list (string * InspectHtml.attrs) :=
  match events with
  | [] => []
  | InspectHtml.StartTag tag a :: events' => (tag, a) :: start_tags events'
  | InspectHtml.StartEndTag tag a :: events' => (tag, a) :: start_tags events'
  | _ :: events' => start_tags events'
  end.

(** The class names an element lists, with their repetitions. *)
Definition class_tokens (a : InspectHtml.attrs) : list string :=
  let class_attr := InspectHtml.dget (InspectHtml.attrs_dict a) "class" in
  if InspectHtml.truthy class_attr then split (InspectHtml.text class_attr)
  else [].

Definition occurrences (x : string) (l : list string) : nat :=
  count_occ string_dec l x.


(** The attributes of a tag, read off the list the parser hands over: what
    the tag gives the attribute [name] where it is written last.  [None]: the
    tag does not carry the attribute; [Some None]: it carries it without a
    value. *)
Fixpoint attribute (a : InspectHtml.attrs) (name : string)
  : option (option string) :=
  match a with
  | [] => None
  | (k, v) :: a' =>
      match attribute a' name with
      | Some v' => Some v'
      | None => if String.eqb k name then Some v else None
      end
  end.

(** An opening tag is interactive, in the words of the specification: the
    tag carries a non-empty [onclick], or a [role] that is [button]. *)
Definition interactive_spec (tag : string) (a : InspectHtml.attrs) : Prop :=
  In tag ["button"; "a"; "input"; "select"; "textarea"; "summary"]
  \/ (exists v, In ("onclick", Some v) a /\ v <> "")
  \/ In ("role", Some "button") a.

(** The same, with an attribute that is written more than once read where
    it is written last. *)
Definition interactive_last (tag : string) (a : InspectHtml.attrs) : Prop :=
  In tag ["button"; "a"; "input"; "select"; "textarea"; "summary"]
  \/ (exists v, attribute a "onclick" = Some (Some v) /\ v <> "")
  \/ attribute a "role" = Some (Some "button").

Definition qualifies (ta : string * InspectHtml.attrs) : bool :=
  mem (fst ta) ["button"; "a"; "input"; "select"; "textarea"; "summary"]
  || match attribute (snd ta) "onclick" with
     | Some (Some v) => nonempty v
     | _ => false
     end
  || match attribute (snd ta) "role" with
     | Some (Some r) => String.eqb r "button"
     | _ => false
     end.

(** The sample recorded for an interactive element: the tag with its [id],
    [class] and [role], the empty text standing for an attribute the tag does
    not carry. *)
Definition or_empty (v : option (option string)) : option string :=
  match v with
  | Some v' => v'
  | None => Some ""
  end.

Definition sample_of (ta : string * InspectHtml.attrs) : InspectHtml.sample :=
  {| InspectHtml.s_tag := fst ta;
     InspectHtml.s_id := or_empty (attribute (snd ta) "id");
     InspectHtml.s_class := or_empty (attribute (snd ta) "class");
     InspectHtml.s_role := or_empty (attribute (snd ta) "role") |}.

(** The handler calls for [<p onclick="x()" onclick="">] and for
    [<div id="cta" onclick="go()">]. *)
Definition twice_onclick : InspectHtml.attrs :=
  [("onclick", Some "x()"); ("onclick", Some "")].

Definition call_to_action : list InspectHtml.event :=
  [InspectHtml.StartTag "div" [("id", Some "cta"); ("onclick", Some "go()")]].

(** The handler calls for
    [<div class="card"><div class="card"><button onclick="x()">Go</button></div></div>]
    and for [<div class="card card">]. *)
Definition nested_cards : list InspectHtml.event :=
  [InspectHtml.StartTag "div" [("class", Some "card")];
   InspectHtml.StartTag "div" [("class", Some "card")];
   InspectHtml.StartTag "button" [("onclick", Some "x()")];
   InspectHtml.Data "Go";
   InspectHtml.EndTag "button"; InspectHtml.EndTag "div";
   InspectHtml.EndTag "div"].


(** *** Design tokens *)

(** Trim the captures and drop the empty ones. *)
Definition clean (items : list string) : list string :=
  filter nonempty (map strip items).

(** Keep the first occurrence of every text. *)
Fixpoint dedup (l : list string) : list string :=
  match l with
  | [] => []
  | x :: l' => x :: filter (fun y => negb (String.eqb y x)) (dedup l')
  end.

(** [dedup] with the texts already seen. *)
Fixpoint dedup_from (seen l : list string) : list string :=
  match l with
  | [] => []
  | x :: l' =>
      if mem x seen then dedup_from seen l'
      else x :: dedup_from (x :: seen) l'
  end.

(** What the specification says of one class of tokens: the captures
    trimmed, the empty ones dropped, first occurrences kept, at most [limit]
    of them. *)
Definition token_list (limit : nat) (captures result : list string) : Prop :=
  result = firstn limit (dedup (clean captures)) /\
  NoDup result /\
  List.length result <= limit /\
  ~ In "" result /\
  Forall (fun x => exists item, In item captures /\ x = strip item) result.

Definition newline : string := String (ascii_of_nat 10) "".

(** *** Further vocabulary for the inspector *)

(** Drafts whose tags are properly nested: text, self-closing tags, and
    elements opened and closed around a properly nested body. *)
Inductive balanced : list InspectHtml.event -> Prop :=
| balanced_nil : balanced []
| balanced_data (data : string) (rest : list InspectHtml.event) :
    balanced rest -> balanced (InspectHtml.Data data :: rest)
| balanced_void (tag : string) (a : InspectHtml.attrs)
    (rest : list InspectHtml.event) :
    balanced rest -> balanced (InspectHtml.StartEndTag tag a :: rest)
| balanced_element (tag : string) (a : InspectHtml.attrs)
    (body rest : list InspectHtml.event) :
    balanced body -> balanced rest ->
    balanced (InspectHtml.StartTag tag a :: body ++ InspectHtml.EndTag tag :: rest).

(** The value an opening tag gives an attribute, where it is written last;
    [None] when the tag does not carry it or gives it no value. *)
Definition attr (ta : string * InspectHtml.attrs) (name : string)
  : option string :=
  match attribute (snd ta) name with
  | Some v => v
  | None => None
  end.

(** What one opening tag contributes to each list of raw text. *)
Definition image_of (ta : string * InspectHtml.attrs) : list string :=
  if String.eqb (fst ta) "img" && InspectHtml.truthy (attr ta "src")
  then [InspectHtml.text (attr ta "src")] else [].

Definition stylesheet_of (ta : string * InspectHtml.attrs) : list string :=
  if String.eqb (fst ta) "link" && InspectHtml.truthy (attr ta "href")
     && contains "stylesheet" (lower (InspectHtml.text (attr ta "rel")))
  then [InspectHtml.text (attr ta "href")] else [].

Definition script_of (ta : string * InspectHtml.attrs) : list string :=
  if String.eqb (fst ta) "script" && InspectHtml.truthy (attr ta "src")
  then [InspectHtml.text (attr ta "src")] else [].

Definition inline_style_of (ta : string * InspectHtml.attrs) : list string :=
  if InspectHtml.truthy (attr ta "style")
  then [InspectHtml.text (attr ta "style")] else [].

(** The handler calls for a draft with a style sheet, a script, an inline
    script, twice the same image and an image without [src]. *)
Definition asset_draft : list InspectHtml.event :=
  [InspectHtml.StartEndTag "link"
     [("rel", Some "Stylesheet"); ("href", Some "site.css")];
   InspectHtml.StartEndTag "link" [("rel", Some "icon"); ("href", Some "i.png")];
   InspectHtml.StartTag "script" [("src", Some "app.js")];
   InspectHtml.EndTag "script";
   InspectHtml.StartTag "script" []; InspectHtml.Data "x = 1";
   InspectHtml.EndTag "script";
   InspectHtml.StartEndTag "img" [("src", Some " a.png"); ("alt", Some "A")];
   InspectHtml.StartEndTag "img" [("src", Some "a.png")];
   InspectHtml.StartEndTag "img" [("alt", Some "none")]].

(** A [<style>] element with its text nodes. *)
Definition style_element (a : InspectHtml.attrs) (texts : list string)
  : list InspectHtml.event :=
  InspectHtml.StartTag "style" a :: map InspectHtml.Data texts
    ++ [InspectHtml.EndTag "style"].

(** *** Further vocabulary for the classifiers *)

(** The [add] calls made for one label, the score they lead to from a
    baseline, added in the order of the calls, and their reasons. *)
Definition calls_for (name : string) (calls : list DetectStack.add_call)
  : list DetectStack.add_call :=
  filter (fun call => String.eqb (fst (fst call)) name) calls.

Definition weights_from (baseline : float) (calls : list DetectStack.add_call)
  : float :=
  fold_left (fun acc call => (acc + snd (fst call))%float) calls baseline.

Definition reasons (calls : list DetectStack.add_call) : list string :=
  map snd calls.

(** The style confidence as the specification words it. *)
Definition spec_style_confidence (winner : string) (sc : dict float)
  : option float :=
  top_score <- get sc winner ;;
  let runner := runner_up sc winner in
  let c := smaller 0.98 (0.45 + top_score * 0.35)%float in
  let c := if PrimFloat.ltb (top_score - runner) 0.2 then (c - 0.1)%float else c in
  Some (floor_at 0.1 (round2 c)).

Definition is_nil {A} (l : list A) : bool :=
  match l with
  | [] => true
  | _ :: _ => false
  end.

(** What the exhaustive analysis checks on one run of [detect_framework]
    besides [framework_facts]; [all_light] says that every [add] call made
    weighs less than 0.2. *)
Definition framework_more_facts (all_light : bool)
  (o : option (string * float * list string * dict float)) : bool :=
  match o with
  | Some (w, conf, ev, sc) =>
      Bool.eqb (String.eqb w "vanilla") all_light
      && Bool.eqb (String.eqb w "vanilla") (is_nil ev)
      && PrimFloat.leb 0.35 conf && PrimFloat.leb conf 0.98
      && forallb (fun kv => PrimFloat.leb (snd kv) 2.0) sc
  | None => false
  end.

(** The same for [detect_style_system]; [none_fired] says that no rule
    fired. *)
Definition style_more_facts (none_fired : bool) (t : option DetectStack.tally)
  (o : option (string * list string * float)) : bool :=
  match t, o with
  | Some t, Some (w, ev, conf) =>
      match spec_style_confidence w (DetectStack.scores t) with
      | Some c => PrimFloat.eqb conf c
      | None => false
      end
      && Bool.eqb (String.eqb w "css") none_fired
      && Bool.eqb (String.eqb w "css") (is_nil ev)
      && PrimFloat.leb 0.52 conf && PrimFloat.leb conf 0.97
      && (if String.eqb w "css" then PrimFloat.eqb conf 0.52 else true)
      && forallb (fun kv => PrimFloat.leb (snd kv) 1.5) (DetectStack.scores t)
  | _, _ => false
  end.

(** The [add] calls of the rules that fired all weigh less than 0.2; no rule
    fired. *)
Definition all_light (rules : list DetectStack.rule) : bool :=
  forallb (fun call => PrimFloat.ltb (snd (fst call)) 0.2) (fired rules).

Definition none_fired (rules : list DetectStack.rule) : bool :=
  forallb (fun r => negb (DetectStack.fires r)) rules.

(** The blocks of a [package.json] read from the last to the first: the
    value a name has in the merged dependencies. *)
Definition block_value (block : option (dict string)) (name : string)
  : option string :=
  match block with
  | Some b => get (rev b) name
  | None => None
  end.

Definition merged_value (data : DetectStack.package_data) (name : string)
  : option string :=
  match block_value (DetectStack.peerDependencies data) name with
  | Some v => Some v
  | None =>
      match block_value (DetectStack.devDependencies data) name with
      | Some v => Some v
      | None => block_value (DetectStack.dependencies data) name
      end
  end.

(** *** Further vocabulary for the source statistics *)

(** Two trees that differ at most inside excluded directories: the same
    files in every directory, the same sub-directory names in the same
    order, and the same again below every sub-directory whose name is not
    excluded. *)
Inductive same_outside_excluded : DetectStack.dir -> DetectStack.dir -> Prop :=
| same_dir (files : list string) (subdirs subdirs' : list (string * DetectStack.dir)) :
    Forall2
      (fun s s' =>
         fst s = fst s' /\
         (mem (fst s) DetectStack.EXCLUDED_DIRS = true \/
          same_outside_excluded (snd s) (snd s')))
      subdirs subdirs' ->
    same_outside_excluded (DetectStack.Dir files subdirs)
      (DetectStack.Dir files subdirs').

Definition with_tree (root : DetectStack.project) (t : DetectStack.dir)
  : DetectStack.project :=
  {| DetectStack.root_path := DetectStack.root_path root;
     DetectStack.root_is_dir := DetectStack.root_is_dir root;
     DetectStack.path_exists := DetectStack.path_exists root;
     DetectStack.tree := t |}.

(** Two trees with a [node_modules] and a [src] directory; they differ
    inside [node_modules] only. *)
Definition installed_tree : DetectStack.dir :=
  DetectStack.Dir ["index.html"]
    [("node_modules", DetectStack.Dir ["a.js"; "b.ts"] []);
     ("src", DetectStack.Dir ["App.tsx"; "App.module.css"] [])].

Definition bare_tree : DetectStack.dir :=
  DetectStack.Dir ["index.html"]
    [("node_modules", DetectStack.Dir [] []);
     ("src", DetectStack.Dir ["App.tsx"; "App.module.css"] [])].

(** The name of a file ends with a module suffix: [ext] is [css], [scss] or
    [less]. *)
Definition module_suffix (ext : string) : string := ".module." ++ ext.

(** *** The target path *)

(** A route name: words of lower-case letters and digits, joined by single
    dashes, [[a-z0-9]+(-[a-z0-9]+)*].  [after_dash] says that a word has to
    start here. *)
Fixpoint kebab_from (after_dash : bool) (l : list ascii) : bool :=
  match l with
  | [] => negb after_dash
  | c :: l' =>
      if SuggestTargetPath.is_lower c || SuggestTargetPath.is_digit c
      then kebab_from false l'
      else Ascii.eqb c "-" && negb after_dash && kebab_from true l'
  end.

Definition kebab_shape (s : string) : bool := kebab_from true (chars s).

(** A component name: letters and digits, the first one not a lower-case
    letter. *)
Definition pascal_shape (s : string) : bool :=
  match chars s with
  | [] => false
  | c :: l =>
      (SuggestTargetPath.is_upper c || SuggestTargetPath.is_digit c)
      && forallb SuggestTargetPath.is_alnum l
  end.

(** The letters and digits of a text, in lower case. *)
Definition spelling (s : string) : list ascii :=
  map lower_char (filter SuggestTargetPath.is_alnum (chars s)).

(** The characters of a suggested path, and the number of its dots. *)
Definition path_char (c : ascii) : bool :=
  SuggestTargetPath.is_alnum c
  || Ascii.eqb c "-" || Ascii.eqb c "/" || Ascii.eqb c "." || Ascii.eqb c "+".

Definition dots (s : string) : nat :=
  List.length (filter (Ascii.eqb ".") (chars s)).

(** A path that stays below the directory it is joined to: it starts with a
    lower-case letter, holds only letters, digits, dashes, slashes, a plus,
    and one dot, so that no part of it is [..]. *)
Definition stays_inside (s : string) : bool :=
  match chars s with
  | [] => false
  | c :: _ => SuggestTargetPath.is_lower c
  end
  && forallb path_char (chars s) && (dots s =? 1)%nat.

(** The shape of the text between the two substitutions and the strip: no
    two dashes in a row; and the same with a letter or digit at the end. *)
Fixpoint dashed (after_dash : bool) (l : list ascii) : bool :=
  match l with
  | [] => true
  | c :: l' =>
      if SuggestTargetPath.is_alnum c then dashed false l'
      else Ascii.eqb c "-" && negb after_dash && dashed true l'
  end.

Fixpoint worded (after_dash : bool) (l : list ascii) : bool :=
  match l with
  | [] => negb after_dash
  | c :: l' =>
      if SuggestTargetPath.is_alnum c then worded false l'
      else Ascii.eqb c "-" && negb after_dash && worded true l'
  end.


(** The extensions [choose_extension] knows. *)
Definition extensions : list string := ["vue"; "svelte"; "html"; "tsx"; "jsx"].

(** The command line with another [--scope], and a report with another
    [scope] entry. *)
Definition with_scope (a : SuggestTargetPath.args) (s : string)
  : SuggestTargetPath.args :=
  {| SuggestTargetPath.arg_framework := SuggestTargetPath.arg_framework a;
     SuggestTargetPath.arg_language := SuggestTargetPath.arg_language a;
     SuggestTargetPath.arg_scope := s;
     SuggestTargetPath.arg_target := SuggestTargetPath.arg_target a;
     SuggestTargetPath.arg_name := SuggestTargetPath.arg_name a;
     SuggestTargetPath.arg_overwrite := SuggestTargetPath.arg_overwrite a |}.

Definition report_with_scope (r : SuggestTargetPath.report) (s : string)
  : SuggestTargetPath.report :=
  {| SuggestTargetPath.framework := SuggestTargetPath.framework r;
     SuggestTargetPath.language := SuggestTargetPath.language r;
     SuggestTargetPath.scope := s;
     SuggestTargetPath.recommended_path := SuggestTargetPath.recommended_path r;
     SuggestTargetPath.recommended_path_abs :=
       SuggestTargetPath.recommended_path_abs r;
     SuggestTargetPath.path_exists := SuggestTargetPath.path_exists r;
     SuggestTargetPath.overwrite := SuggestTargetPath.overwrite r;
     SuggestTargetPath.needs_confirmation :=
       SuggestTargetPath.needs_confirmation r;
     SuggestTargetPath.confirmation_reasons :=
       SuggestTargetPath.confirmation_reasons r;
     SuggestTargetPath.reasoning := SuggestTargetPath.reasoning r |}.

(** The default command line, and the answers on an explicit target when
    there is none to ask about. *)
Definition default_args : SuggestTargetPath.args :=
  {| SuggestTargetPath.arg_framework := "auto";
     SuggestTargetPath.arg_language := "auto";
     SuggestTargetPath.arg_scope := "component";
     SuggestTargetPath.arg_target := "";
     SuggestTargetPath.arg_name := "RestoredDesign";
     SuggestTargetPath.arg_overwrite := "ask" |}.

Definition no_target (t : string) : SuggestTargetPath.target :=
  {| SuggestTargetPath.target_rel := t;
     SuggestTargetPath.target_abs := t;
     SuggestTargetPath.target_exists := false |}.

(** A rule that makes a call of weight 0.2 or more. *)
Definition heavy (r : DetectStack.rule) : bool :=
  existsb (fun call => negb (PrimFloat.ltb (snd (fst call)) 0.2))
    (DetectStack.adds r).

(** *** The tokens *)

(** What a pattern can match at a position: with [before] read, nearest
    character first, and [w ++ after] ahead, the pattern matches [w] and
    turns the text of group 1 from [cap] into [cap']. *)
Inductive spans :
  Re.regex -> list ascii -> list ascii -> list ascii ->
  option string -> option string -> Prop :=
| spans_eps before after cap : spans Re.Eps before [] after cap cap
| spans_chr (p : ascii -> bool) x before after cap :
    p x = true -> spans (Re.Chr p) before [x] after cap cap
| spans_cat r1 r2 before w1 w2 after cap cap1 cap2 :
    spans r1 before w1 (w2 ++ after) cap cap1 ->
    spans r2 (rev w1 ++ before) w2 after cap1 cap2 ->
    spans (Re.Cat r1 r2) before (w1 ++ w2) after cap cap2
| spans_alt_left r1 r2 before w after cap cap1 :
    spans r1 before w after cap cap1 ->
    spans (Re.Alt r1 r2) before w after cap cap1
| spans_alt_right r1 r2 before w after cap cap1 :
    spans r2 before w after cap cap1 ->
    spans (Re.Alt r1 r2) before w after cap cap1
| spans_star_stop r before after cap : spans (Re.Star r) before [] after cap cap
| spans_star_step r before w1 w2 after cap cap1 cap2 :
    spans r before w1 (w2 ++ after) cap cap1 ->
    spans (Re.Star r) (rev w1 ++ before) w2 after cap1 cap2 ->
    spans (Re.Star r) before (w1 ++ w2) after cap cap2
| spans_group r before w after cap cap1 :
    spans r before w after cap cap1 ->
    spans (Re.Group r) before w after cap (Some (str w))
| spans_boundary before after cap :
    Re.at_boundary (before, after) = true ->
    spans Re.WordBoundary before [] after cap cap.

(** The characters of a declared value: any but [;], [}] and [{]. *)
Definition value_char (c : ascii) : bool :=
  negb (existsb (Ascii.eqb c) (chars ";}{")).

(** A colour in hexadecimal notation: [#] and three to eight hexadecimal
    digits. *)
Definition is_hex (c : ascii) : bool :=
  let n := nat_of_ascii c in
  (((48 <=? n) && (n <=? 57)) || ((97 <=? n) && (n <=? 102))
   || ((65 <=? n) && (n <=? 70)))%nat.

Definition hex_color (s : string) : bool :=
  match chars s with
  | "#"%char :: l =>
      (3 <=? List.length l)%nat && (List.length l <=? 8)%nat
      && forallb is_hex l
  | _ => false
  end.

(** A colour in functional notation: [rgb(], [rgba(], [hsl(] or [hsla(],
    then anything but a closing parenthesis, then the closing parenthesis. *)
Fixpoint after_prefix (p l : list ascii) : option (list ascii) :=
  match p with
  | [] => Some l
  | c :: p' =>
      match l with
      | x :: l' => if Ascii.eqb c x then after_prefix p' l' else None
      | [] => None
      end
  end.

Definition not_closing (c : ascii) : bool :=
  negb (existsb (Ascii.eqb c) (chars ")")).

Definition functional_color (s : string) : bool :=
  existsb
    (fun name =>
       match after_prefix (chars name) (chars s) with
       | Some rest =>
           match rev rest with
           | ")"%char :: body => forallb not_closing body
           | _ => false
           end
       | None => false
       end)
    ["rgb("; "rgba("; "hsl("; "hsla("].

Definition color_shape (s : string) : bool :=
  hex_color s || functional_color s.

(** A style sheet with a font size, a colour in each notation and a word
    that only looks like a colour. *)
Definition sample_css : string :=
  "h1 { font-size: 2rem ; color: #1a2b3c; background: rgba(0, 0, 0, .5) } #main-title {}".

End Spec.

(** * Properties *)

(** ** Case analysis and dictionaries *)

Section Basics.
Import Py Spec.
Local Open Scope list_scope.

Lemma all_bool_ok (p : bool -> bool) :
  all_bool p = true -> forall b, p b = true.
Proof.
  unfold all_bool. intros H b.
  apply andb_prop in H. destruct H as [Ht Hf]. now destruct b.
Qed.

Lemma bind_some {A B} (m : option A) (f : A -> option B) (b : B) :
  bind m f = Some b -> exists a, m = Some a /\ f a = Some b.
Proof.
  destruct m as [a|]; simpl; intros H; [now exists a | discriminate].
Qed.

Lemma get_set_same {V} (d : dict V) (k : string) (v : V) :
  get (set d k v) k = Some v.
Proof.
  induction d as [|[k' v'] d IH]; simpl.
  - now rewrite String.eqb_refl.
  - destruct (String.eqb k' k) eqn:E; simpl; rewrite E; auto.
Qed.

Lemma get_set_other {V} (d : dict V) (k k0 : string) (v : V) :
  k <> k0 -> get (set d k v) k0 = get d k0.
Proof.
  intros Hk. induction d as [|[k' v'] d IH]; simpl.
  - destruct (String.eqb k k0) eqn:E; auto.
    apply String.eqb_eq in E. contradiction.
  - destruct (String.eqb k' k) eqn:E; simpl.
    + apply String.eqb_eq in E. subst k'.
      destruct (String.eqb k k0) eqn:E0; auto.
      apply String.eqb_eq in E0. contradiction.
    + now rewrite IH.
Qed.

Lemma keys_set_present {V} (d : dict V) (k : string) (v v0 : V) :
  get d k = Some v0 -> keys (set d k v) = keys d.
Proof.
  induction d as [|[k' v'] d IH]; simpl; [discriminate|].
  unfold keys in *.
  destruct (String.eqb k' k) eqn:E; simpl; intros H; [reflexivity|].
  now rewrite IH.
Qed.

Lemma get_in {V} (d : dict V) (k : string) (v : V) :
  get d k = Some v -> In (k, v) d.
Proof.
  induction d as [|[k' v'] d IH]; simpl; [discriminate|].
  destruct (String.eqb k' k) eqn:E; intros H.
  - apply String.eqb_eq in E. injection H as ->. subst. now left.
  - right. auto.
Qed.

(** [round2] on values where Python's [round(x, 2)] is known to surprise:
    the binary value decides, not the decimal literal. *)
Example round2_examples :
  round2 0.125 = 0.12%float /\ round2 2.675 = 2.67%float /\
  round2 0.755 = 0.76%float /\ round2 0.765 = 0.77%float /\
  round2 0.345 = 0.34%float /\ round2 1.005 = 1.0%float /\
  round2 0.004 = 0.0%float /\ round2 1e+20 = 1e+20%float.
Proof. vm_compute. repeat split. Qed.

(** The sort is stable: among equal keys the earlier item stays first. *)
Example sorted_desc_stable :
  sorted_desc Nat.ltb snd [("a", 1); ("b", 2); ("c", 1); ("d", 2)] =
  [("b", 2); ("d", 2); ("a", 1); ("c", 1)].
Proof. reflexivity. Qed.

(** The matcher backtracks as [re] does: [\s*] gives back the blank that
    [[^;}{]+] needs, and [{3,8}] shrinks until [\b] holds. *)
Example findall_examples :
  Re.findall (Re.seq [Re.lit_i "font-size"; Re.Star Re.space; Re.lit ":";
                      Re.Star Re.space; Re.Group (Re.plus (Re.none_of ";}{"))])
    true "Font-Size: ;x" = [" "] /\
  Re.findall (Re.seq [Re.lit "#"; Re.repeat 3 8 (Re.Chr Re.is_word);
                      Re.WordBoundary])
    false "#abcdefghi #abc-d" = ["#abc"].
Proof. vm_compute. split; reflexivity. Qed.

End Basics.

(** ** The weighted classifiers *)

Section Classifiers.
Import Py DetectStack Spec.
Local Open Scope list_scope.

(** One exhaustive analysis of [detect_framework]: its fifteen conditions
    are the only way the project reaches the result. *)
Lemma framework_facts_hold (root : project) (deps : dict string) :
  framework_facts
    (trace (framework_rules root (keys deps)) (start framework_scores0))
    (detect_framework root deps) = true.
Proof.
  unfold detect_framework, framework_rules.
  generalize (keys deps). intros dep_names.
  abstract_conditions. clear root deps dep_names.
  check_all_cases all_bool_ok.
Qed.

Lemma style_facts_hold (root : project) (deps : dict string)
  (st : source_stats) :
  style_facts
    (trace (style_rules root (keys deps) st) (start style_scores0))
    (style_tally root deps st)
    (detect_style_system root deps st) = true.
Proof.
  unfold detect_style_system, style_tally, style_rules.
  generalize (keys deps). intros dep_names.
  cbv zeta.
  abstract_conditions.
  generalize (st module_css + st module_scss + st module_less)%nat.
  intros module_total.
  check_all_cases all_bool_ok.
Qed.

Lemma index_of_nth (x : string) (l : list string) (i : nat) :
  index_of x l = Some i -> nth_error l i = Some x.
Proof.
  revert i. induction l as [|y l IH]; simpl; intros i H; [discriminate|].
  destruct (String.eqb y x) eqn:E.
  - injection H as <-. apply String.eqb_eq in E. now subst.
  - destruct (index_of x l) as [i'|]; [|discriminate].
    injection H as <-. simpl. now apply IH.
Qed.

Lemma first_max_from_spec (labels : list string) (sc : dict float)
  (j0 i : nat) (w : float) :
  first_max_from j0 i w labels sc = true ->
  forall j l, nth_error labels j = Some l ->
    exists v, get sc l = Some v /\ PrimFloat.leb v w = true /\
              (j0 + j < i -> PrimFloat.ltb v w = true).
Proof.
  revert j0. induction labels as [|l0 labels IH]; simpl; intros j0 H j l Hj.
  - destruct j; discriminate.
  - destruct (get sc l0) as [v|] eqn:G; [|discriminate].
    apply andb_prop in H. destruct H as [H Hrest].
    apply andb_prop in H. destruct H as [Hle Hlt].
    destruct j as [|j]; simpl in Hj.
    + injection Hj as <-. exists v. repeat split; auto.
      intros Hji. rewrite Nat.add_0_r in Hji.
      apply Nat.ltb_lt in Hji. now rewrite Hji in Hlt.
    + destruct (IH (S j0) Hrest j l Hj) as (v' & Gv & Hv & Hs).
      exists v'. repeat split; auto.
      intros Hji. apply Hs. lia.
Qed.

Lemma first_maxb_spec (labels : list string) (sc : dict float) (w : string) :
  first_maxb labels sc w = true -> first_max labels sc w.
Proof.
  unfold first_maxb, first_max.
  destruct (index_of w labels) as [i|] eqn:I; [|discriminate].
  destruct (get sc w) as [v|] eqn:G; [|discriminate].
  intros H. exists i, v. repeat split; auto using index_of_nth.
  intros j l Hj.
  destruct (first_max_from_spec labels sc 0 i v H j l Hj) as (x & Gx & Hx & Hs).
  exists x. repeat split; auto.
Qed.

(** The parts of [framework_facts], for a run that returned. *)
Lemma framework_facts_parts (root : project) (deps : dict string) :
  exists w conf ev sc,
    detect_framework root deps = Some (w, conf, ev, sc) /\
    first_maxb framework_labels sc w = true /\
    (exists c, spec_framework_confidence w sc = Some c /\
               PrimFloat.eqb conf c = true) /\
    confidence_ok conf = true /\
    forallb (fun s => confidence_ok (report_confidence conf s))
      (0.99%float :: style_confidences) = true.
Proof.
  pose proof (framework_facts_hold root deps) as H.
  unfold framework_facts in H.
  apply andb_prop in H. destruct H as [_ H].
  destruct (detect_framework root deps) as [[[[w conf] ev] sc]|];
    [|discriminate].
  apply andb_prop in H. destruct H as [H Hrep].
  apply andb_prop in H. destruct H as [H Hok].
  apply andb_prop in H. destruct H as [Hmax Hspec].
  exists w, conf, ev, sc. repeat split; auto.
  destruct (spec_framework_confidence w sc) as [c|]; [|discriminate].
  now exists c.
Qed.

Lemma style_facts_parts (root : project) (deps : dict string)
  (st : source_stats) :
  exists t w ev conf,
    style_tally root deps st = Some t /\
    detect_style_system root deps st = Some (w, ev, conf) /\
    first_maxb style_labels (scores t) w = true /\
    confidence_ok conf = true.
Proof.
  pose proof (style_facts_hold root deps st) as H.
  unfold style_facts in H.
  apply andb_prop in H. destruct H as [_ H].
  destruct (style_tally root deps st) as [t|]; [|discriminate].
  destruct (detect_style_system root deps st) as [[[w ev] conf]|];
    [|discriminate].
  apply andb_prop in H. destruct H as [Hmax Hok].
  now exists t, w, ev, conf.
Qed.

(** C1. On each weighted axis the detector returns, and its winner is a
    label whose score no other label of the axis exceeds; every label
    declared before the winner in the fixed enumeration order has a strictly
    smaller score, so among equal maximal scores the first-declared label is
    the one selected.  The result is a function of the dependency set, the
    existing paths and the source counts. *)
Theorem winner_is_first_maximum (root : project) (deps : dict string)
  (st : source_stats) :
  (exists w conf ev sc,
      detect_framework root deps = Some (w, conf, ev, sc) /\
      first_max framework_labels sc w) /\
  (exists t w ev conf,
      style_tally root deps st = Some t /\
      detect_style_system root deps st = Some (w, ev, conf) /\
      first_max style_labels (scores t) w).
Proof.
  split.
  - destruct (framework_facts_parts root deps)
      as (w & conf & ev & sc & Hrun & Hmax & _).
    exists w, conf, ev, sc. split; [exact Hrun|].
    now apply first_maxb_spec.
  - destruct (style_facts_parts root deps st)
      as (t & w & ev & conf & Ht & Hrun & Hmax & _).
    exists t, w, ev, conf. repeat split; auto.
    now apply first_maxb_spec.
Qed.

(** C2. The confidence [detect_framework] returns equals the specified one:
    0.55 or 0.35 for a winning vanilla according to whether its score exceeds
    0.2, otherwise the smaller of 0.98 and 0.45 + 0.28 * top score, less 0.12
    when the top score is within 0.25 of the runner-up's; rounded to two
    decimals, then raised to 0.1 if below. *)
Theorem framework_confidence_as_specified (root : project) (deps : dict string) :
  exists w conf ev sc c,
    detect_framework root deps = Some (w, conf, ev, sc) /\
    spec_framework_confidence w sc = Some c /\
    PrimFloat.eqb conf c = true.
Proof.
  destruct (framework_facts_parts root deps)
    as (w & conf & ev & sc & Hrun & _ & (c & Hc & Heq) & _).
  now exists w, conf, ev, sc, c.
Qed.

Lemma two_decimalb_spec (x : float) :
  two_decimalb x = true -> two_decimal x.
Proof. intros H. now exists (nearest_hundredth x). Qed.

Lemma confidence_ok_spec (x : float) :
  confidence_ok x = true -> in_range x = true /\ two_decimal x.
Proof.
  unfold confidence_ok. intros H.
  apply andb_prop in H. destruct H as [Hr Hd].
  split; [exact Hr | now apply two_decimalb_spec].
Qed.

(** The confidence of the style axis is one of eight values. *)
Lemma style_confidence_values (root : project) (deps : dict string)
  (st : source_stats) (w : string) (ev : list string) (conf : float) :
  detect_style_system root deps st = Some (w, ev, conf) ->
  In conf style_confidences.
Proof.
  unfold detect_style_system, style_tally, style_rules.
  generalize (keys deps). intros dep_names.
  cbv zeta.
  abstract_conditions.
  generalize (st module_css + st module_scss + st module_less)%nat.
  intros module_total.
  repeat match goal with b : bool |- _ => destruct b end;
    vm_compute; intros H; injection H as _ _ <-;
    repeat (first [left; reflexivity | right]).
Qed.

(** The report's confidence when the framework axis is overridden. *)
Lemma overridden_report_confidence_ok :
  forallb (fun s => confidence_ok (report_confidence 0.99 s))
    (0.99%float :: style_confidences) = true.
Proof. vm_compute. reflexivity. Qed.

Lemma report_confidence_ok (root : project) (deps : dict string)
  (st : source_stats) (a : args)
  (fw : string * float * list string * dict float)
  (sty : string * list string * float) :
  detect_framework root deps = Some fw ->
  detect_style_system root deps st = Some sty ->
  let ax := resolve_axes a fw sty in
  confidence_ok (ax_fw_confidence ax) = true /\
  confidence_ok (ax_style_confidence ax) = true /\
  confidence_ok
    (report_confidence (ax_fw_confidence ax) (ax_style_confidence ax)) = true.
Proof.
  intros Hfw Hsty.
  destruct (framework_facts_parts root deps)
    as (w & conf & ev & sc & Hrun & _ & _ & Hok & Hrep).
  rewrite Hfw in Hrun. injection Hrun as ->.
  destruct (style_facts_parts root deps st)
    as (t & sw & sev & sconf & _ & Hsrun & _ & Hsok).
  rewrite Hsty in Hsrun. injection Hsrun as ->.
  pose proof (style_confidence_values root deps st sw sev sconf Hsty) as Hin.
  pose proof overridden_report_confidence_ok as Hov.
  rewrite forallb_forall in Hrep, Hov.
  unfold resolve_axes.
  destruct (negb (String.eqb (arg_framework a) "auto"));
    destruct (negb (String.eqb (arg_style a) "auto")); cbn zeta iota beta;
    repeat match goal with
           | |- context [match ?l with [] => _ | _ :: _ => _ end] => destruct l
           end;
    cbn [ax_fw_confidence ax_style_confidence];
    repeat split; auto;
    first [ apply Hov; simpl; tauto | apply Hrep; simpl; tauto | idtac ].
Qed.

Lemma run_rules_fired (rules : list rule) (t : tally) :
  run_rules rules t = run_adds (fired rules) t.
Proof.
  revert t. induction rules as [|r rules IH]; intros t; [reflexivity|].
  unfold fired. simpl. fold (fired rules).
  destruct (fires r); simpl; [|apply IH].
  generalize (adds r). intros calls. revert t.
  induction calls as [|call calls IHc]; intros t; simpl; [apply IH|].
  destruct (add call t) as [t'|]; simpl; [apply IHc | reflexivity].
Qed.

(** The tally a detector ends with is a state of its trace. *)
Lemma run_in_trace (rules : list rule) (t t' : tally) :
  run_rules rules t = Some t' -> In t' (trace rules t).
Proof.
  rewrite run_rules_fired. unfold trace.
  generalize (fired rules). intros calls. revert t.
  induction calls as [|call calls IH]; intros t; simpl.
  - intros H. injection H as ->. now left.
  - destruct (add call t) as [t1|]; simpl; [|discriminate].
    intros H. right. now apply IH.
Qed.

(** C5. Every confidence the classifier produces lies in [[0.1, 0.99]] and
    is a two-decimal value: the one [detect_framework] returns, the one
    [detect_style_system] returns, the two per-axis confidences once the
    overrides are applied, and the [confidence] field of the report.  Every
    score of every label is non-negative in every state a detector goes
    through, the returned scores included.  [main] fails only on a missing
    project root. *)
Theorem confidences_and_scores_in_range (a : args) (root : project)
  (pkg : option package_data) (deps : dict string) (st : source_stats) :
  (exists w c ev sc sw sev sconf,
      detect_framework root deps = Some (w, c, ev, sc) /\
      detect_style_system root deps st = Some (sw, sev, sconf) /\
      in_range c = true /\ two_decimal c /\
      in_range sconf = true /\ two_decimal sconf /\
      forallb (fun kv => PrimFloat.leb 0 (snd kv)) sc = true /\
      let ax := resolve_axes a (w, c, ev, sc) (sw, sev, sconf) in
      in_range (ax_fw_confidence ax) = true /\
      two_decimal (ax_fw_confidence ax) /\
      in_range (ax_style_confidence ax) = true /\
      two_decimal (ax_style_confidence ax) /\
      in_range
        (report_confidence (ax_fw_confidence ax) (ax_style_confidence ax))
        = true /\
      two_decimal
        (report_confidence (ax_fw_confidence ax) (ax_style_confidence ax))) /\
  Forall (fun t => nonneg_scores t = true)
    (trace (framework_rules root (keys deps)) (start framework_scores0)) /\
  Forall (fun t => nonneg_scores t = true)
    (trace (style_rules root (keys deps) st) (start style_scores0)) /\
  match main a root pkg with
  | Some (Success r _) =>
      in_range (confidence r) = true /\ two_decimal (confidence r)
  | Some (Failure _ _) => root_is_dir root = false
  | None => False
  end.
Proof.
  assert (Hfw_trace :
            Forall (fun t => nonneg_scores t = true)
              (trace (framework_rules root (keys deps)) (start framework_scores0))).
  { pose proof (framework_facts_hold root deps) as H.
    unfold framework_facts in H. apply andb_prop in H. destruct H as [H _].
    rewrite forallb_forall in H. now apply Forall_forall. }
  split; [|split; [exact Hfw_trace|split]].
  - destruct (framework_facts_parts root deps)
      as (w & c & ev & sc & Hrun & _ & _ & Hok & _).
    destruct (style_facts_parts root deps st)
      as (t & sw & sev & sconf & _ & Hsrun & _ & Hsok).
    destruct (report_confidence_ok root deps st a _ _ Hrun Hsrun)
      as (Hax1 & Hax2 & Hrep).
    apply confidence_ok_spec in Hok, Hsok, Hax1, Hax2, Hrep.
    exists w, c, ev, sc, sw, sev, sconf.
    split; [exact Hrun|]. split; [exact Hsrun|].
    split; [tauto|]. split; [tauto|]. split; [tauto|]. split; [tauto|].
    split; [|cbv zeta; tauto].
    unfold detect_framework in Hrun.
    apply bind_some in Hrun. destruct Hrun as (t0 & Ht & Hrun).
    apply bind_some in Hrun. destruct Hrun as ([[tn ts] ss] & _ & Hrun).
    apply bind_some in Hrun. destruct Hrun as (ev' & _ & Hrun).
    injection Hrun as _ _ _ <-.
    apply run_in_trace in Ht.
    rewrite Forall_forall in Hfw_trace. exact (Hfw_trace t0 Ht).
  - pose proof (style_facts_hold root deps st) as H.
    unfold style_facts in H. apply andb_prop in H. destruct H as [H _].
    rewrite forallb_forall in H. now apply Forall_forall.
  - unfold main. destruct (root_is_dir root); simpl; [|reflexivity].
    set (deps0 := collect_deps pkg).
    set (st0 := gather_source_stats root max_files_default).
    destruct (framework_facts_parts root deps0)
      as (w & c & ev & sc & Hfw & _).
    destruct (style_facts_parts root deps0 st0)
      as (t & sw & sev & sc' & _ & Hsty & _).
    rewrite Hfw. simpl.
    destruct (detect_language root st0) as [language language_evidence].
    rewrite Hsty. simpl.
    destruct (detect_package_manager root) as [package_manager pm_evidence].
    cbn [confidence].
    destruct (report_confidence_ok root deps0 st0 a _ _ Hfw Hsty)
      as (_ & _ & Hrep).
    now apply confidence_ok_spec in Hrep.
Qed.

Lemma set_in_other {V} (d : dict V) (k k0 : string) (v v0 : V) :
  k <> k0 -> In (k0, v0) (set d k v) -> In (k0, v0) d.
Proof.
  intros Hk. induction d as [|[k' v'] d IH]; simpl.
  - intros [H|[]]. injection H as -> _. contradiction.
  - destruct (String.eqb k' k) eqn:E; simpl.
    + apply String.eqb_eq in E. subst k'.
      intros [H|H]; [|now right].
      injection H as -> _. contradiction.
    + intros [H|H]; [now left | right; auto].
Qed.

Lemma add_keeps_vanilla (call : add_call) (t t' : tally) :
  fst (fst call) <> "vanilla" ->
  add call t = Some t' ->
  get (scores t') "vanilla" = get (scores t) "vanilla" /\
  (vanilla_at_baseline (scores t) -> vanilla_at_baseline (scores t')).
Proof.
  destruct call as [[name points] reason]. simpl. intros Hn H.
  apply bind_some in H. destruct H as (s & Hs & H).
  apply bind_some in H. destruct H as (e & He & H).
  injection H as <-. simpl. split.
  - now apply get_set_other.
  - intros Hb v Hv. apply (Hb v). eapply set_in_other; eauto.
Qed.

Lemma trace_keeps_vanilla (calls : list add_call) (t : tally) :
  Forall (fun call => fst (fst call) <> "vanilla") calls ->
  get (scores t) "vanilla" = Some 0.2%float ->
  vanilla_at_baseline (scores t) ->
  Forall (fun t' => get (scores t') "vanilla" = Some 0.2%float /\
                    vanilla_at_baseline (scores t'))
    (trace_adds calls t).
Proof.
  intros Hcalls. revert t.
  induction Hcalls as [|call calls Hcall Hcalls IH]; intros t Hg Hb; simpl.
  - repeat constructor; auto.
  - constructor; [now split|].
    destruct (add call t) as [t'|] eqn:A; [|constructor].
    destruct (add_keeps_vanilla call t t' Hcall A) as [Hg' Hb'].
    apply IH; [congruence | auto].
Qed.

Lemma fired_forall (P : add_call -> Prop) (rules : list rule) :
  Forall P (flat_map adds rules) -> Forall P (fired rules).
Proof.
  induction rules as [|r rules IH]; simpl; intros H; [constructor|].
  apply Forall_app in H. destruct H as [Hr Hrest].
  unfold fired. simpl. fold (fired rules).
  apply Forall_app. split; [|auto].
  destruct (fires r); [exact Hr | constructor].
Qed.

(** No statement of [detect_framework] names [vanilla]. *)
Lemma framework_rules_spare_vanilla (root : project) (dep_names : list string) :
  Forall (fun call => fst (fst call) <> "vanilla")
    (flat_map adds (framework_rules root dep_names)).
Proof.
  unfold framework_rules. simpl.
  repeat constructor; simpl; discriminate.
Qed.

Lemma insert_desc_in {A K} (lt : K -> K -> bool) (key : A -> K) (x y : A)
  (l : list A) :
  In y (insert_desc lt key x l) -> y = x \/ In y l.
Proof.
  induction l as [|z l IH]; simpl.
  - intros [H|[]]. now left.
  - destruct (lt (key x) (key z)); simpl.
    + intros [H|H]; [right; now left|].
      destruct (IH H) as [H'|H']; [now left | right; now right].
    + intros [H|H]; [now left | now right].
Qed.

Lemma sorted_desc_in {A K} (lt : K -> K -> bool) (key : A -> K) (y : A)
  (l : list A) :
  In y (sorted_desc lt key l) -> In y l.
Proof.
  induction l as [|x l IH]; simpl; [auto|].
  intros H. apply insert_desc_in in H.
  destruct H as [H|H]; [now left | right; auto].
Qed.

(** The winner and its score are an entry of the scores. *)
Lemma top_two_in (sc : dict float) (top_name : string)
  (top_score second_score : float) :
  top_two sc = Some (top_name, top_score, second_score) ->
  In (top_name, top_score) sc.
Proof.
  unfold top_two, ordered.
  destruct (sorted_desc PrimFloat.ltb snd sc) as [|[n s] rest] eqn:E;
    [discriminate|].
  intros H. injection H as -> -> _.
  apply (sorted_desc_in PrimFloat.ltb snd). rewrite E. now left.
Qed.

(** C10. No statement of [detect_framework] adds to [vanilla]; its score is
    the baseline 0.2 in every state the detector goes through and in the
    scores it returns; and whenever [vanilla] is the winner the confidence is
    0.35: the branch that would give 0.55 is never taken. *)
Theorem vanilla_stays_at_baseline (root : project) (deps : dict string) :
  Forall (fun call => fst (fst call) <> "vanilla")
    (flat_map adds (framework_rules root (keys deps))) /\
  Forall (fun t => get (scores t) "vanilla" = Some 0.2%float)
    (trace (framework_rules root (keys deps)) (start framework_scores0)) /\
  exists w conf ev sc,
    detect_framework root deps = Some (w, conf, ev, sc) /\
    get sc "vanilla" = Some 0.2%float /\
    (w = "vanilla" -> conf = 0.35%float).
Proof.
  pose proof (framework_rules_spare_vanilla root (keys deps)) as Hspare.
  assert (Htrace :
            Forall (fun t' => get (scores t') "vanilla" = Some 0.2%float /\
                              vanilla_at_baseline (scores t'))
              (trace (framework_rules root (keys deps)) (start framework_scores0))).
  { apply trace_keeps_vanilla.
    - now apply fired_forall.
    - reflexivity.
    - intros v Hv. simpl in Hv.
      repeat (destruct Hv as [Hv|Hv]; [try discriminate Hv|]);
        [now injection Hv as <- | contradiction]. }
  split; [exact Hspare|]. split.
  - eapply Forall_impl; [|exact Htrace]. now intros t [H _].
  - destruct (framework_facts_parts root deps)
      as (w & conf & ev & sc & Hrun & _).
    exists w, conf, ev, sc. split; [exact Hrun|].
    unfold detect_framework in Hrun.
    apply bind_some in Hrun. destruct Hrun as (t & Ht & Hrun).
    apply bind_some in Hrun. destruct Hrun as ([[tn ts] ss] & Htop & Hrun).
    apply bind_some in Hrun. destruct Hrun as (ev' & _ & Hrun).
    injection Hrun as <- <- _ <-.
    apply run_in_trace in Ht.
    rewrite Forall_forall in Htrace.
    destruct (Htrace t Ht) as [Hg Hb].
    split; [exact Hg|].
    intros ->. apply top_two_in in Htop. apply Hb in Htop. subst ts.
    vm_compute. reflexivity.
Qed.

(** On the empty project [vanilla] wins, with confidence 0.35. *)
Lemma vanilla_stays_at_baseline_witness :
  exists conf ev sc,
    detect_framework empty_project [] = Some ("vanilla", conf, ev, sc) /\
    conf = 0.35%float.
Proof.
  destruct (vanilla_stays_at_baseline empty_project [])
    as (_ & _ & w & conf & ev & sc & Hrun & _ & Hconf).
  assert (Hw : w = "vanilla").
  { vm_compute in Hrun. now injection Hrun as <- _ _ _. }
  exists conf, ev, sc. split; [now rewrite <- Hw | now apply Hconf].
Defined.

(** C3, as stated, fails: with the framework forced to [vue] on a project
    whose only dependency is [next], the winner and the evidence are the
    override's, but the report's confidence is 0.76, not 0.99, and the
    diagnostics carry the scores the rules gave ([next] has 1.2): the rules
    ran. *)
Lemma override_report_confidence_counterexample :
  match main override_vue empty_project (Some package_with_next) with
  | Some (Success r _) =>
      framework r = "vue" /\
      evidence_framework r = ["override: framework=vue"] /\
      confidence r = 0.76%float /\
      PrimFloat.eqb (confidence r) 0.99 = false /\
      get (diagnostics_framework_scores r) "next" = Some 1.2%float
  | _ => False
  end.
Proof. vm_compute. repeat split. Qed.

Lemma neq_auto (s : string) :
  s <> "auto" -> negb (String.eqb s "auto") = true.
Proof.
  intros H. destruct (String.eqb s "auto") eqn:E; [|reflexivity].
  apply String.eqb_eq in E. contradiction.
Qed.

Lemma eq_auto (s : string) :
  s = "auto" -> negb (String.eqb s "auto") = false.
Proof. now intros ->. Qed.

(** C3, amended.  An override forces the winner of its axis, whatever the
    evidence, replaces the axis's evidence by the single override marker and
    is recorded in [overrides].  The axis's confidence becomes 0.99, and the
    report's confidence is the rounded mean of the two axes' confidences
    capped at 0.99: it is 0.99 when both axes are overridden, and the mean of
    0.99 and the detected confidence of the other axis otherwise.  The
    detectors run before the overrides are applied, and the diagnostics carry
    the scores of [detect_framework]. *)
Theorem override_forces_axis (a : args) (root : project)
  (pkg : option package_data) :
  root_is_dir root = true ->
  exists r fw sty,
    main a root pkg = Some (Success r 0) /\
    detect_framework root (collect_deps pkg) = Some fw /\
    detect_style_system root (collect_deps pkg)
      (gather_source_stats root max_files_default) = Some sty /\
    (arg_framework a <> "auto" ->
       framework r = arg_framework a /\
       evidence_framework r = ["override: framework=" ++ arg_framework a]%string /\
       get (overrides r) "framework" = Some (arg_framework a) /\
       (arg_style a = "auto" ->
          confidence r = report_confidence 0.99 (snd sty))) /\
    (arg_style a <> "auto" ->
       style_system r = arg_style a /\
       evidence_style_system r = ["override: style=" ++ arg_style a]%string /\
       get (overrides r) "style_system" = Some (arg_style a) /\
       (arg_framework a = "auto" ->
          confidence r = report_confidence (snd (fst (fst fw))) 0.99)) /\
    (arg_framework a <> "auto" -> arg_style a <> "auto" ->
       confidence r = 0.99%float) /\
    diagnostics_framework_scores r =
      map (fun kv => (fst kv, round2 (snd kv))) (snd fw).
Proof.
  intros Hdir. unfold main. rewrite Hdir. simpl.
  set (deps0 := collect_deps pkg).
  set (st0 := gather_source_stats root max_files_default).
  destruct (framework_facts_parts root deps0)
    as (w & c & ev & sc & Hfw & _).
  destruct (style_facts_parts root deps0 st0)
    as (t & sw & sev & sc' & _ & Hsty & _).
  rewrite Hfw. simpl.
  destruct (detect_language root st0) as [language language_evidence].
  rewrite Hsty. simpl.
  destruct (detect_package_manager root) as [package_manager pm_evidence].
  eexists. exists (w, c, ev, sc), (sw, sev, sc').
  split; [reflexivity|]. split; [reflexivity|]. split; [reflexivity|].
  cbn [framework evidence_framework overrides confidence style_system
       evidence_style_system diagnostics_framework_scores snd fst].
  unfold resolve_axes.
  split; [|split; [|split]].
  - intros Hf. rewrite (neq_auto _ Hf).
    repeat split.
    + now destruct (negb (String.eqb (arg_style a) "auto")).
    + now destruct (negb (String.eqb (arg_style a) "auto")).
    + destruct (negb (String.eqb (arg_style a) "auto")); reflexivity.
    + intros Hs. rewrite (eq_auto _ Hs). now destruct sev.
  - intros Hs. rewrite (neq_auto _ Hs).
    repeat split.
    + now destruct (negb (String.eqb (arg_framework a) "auto")).
    + now destruct (negb (String.eqb (arg_framework a) "auto")).
    + destruct (negb (String.eqb (arg_framework a) "auto")); reflexivity.
    + intros Hf. rewrite (eq_auto _ Hf). now destruct ev.
  - intros Hf Hs. rewrite (neq_auto _ Hf), (neq_auto _ Hs). reflexivity.
  - reflexivity.
Qed.

(** On the empty project with the framework forced to [vue], the report
    names [vue]. *)
Lemma override_forces_axis_witness :
  root_is_dir empty_project = true /\
  exists r,
    main override_vue empty_project None = Some (Success r 0) /\
    framework r = "vue".
Proof.
  split; [reflexivity|].
  destruct (override_forces_axis override_vue empty_project None eq_refl)
    as (r & fw & sty & Hmain & _ & _ & Hfw & _).
  exists r. split; [exact Hmain|].
  apply Hfw. discriminate.
Defined.

End Classifiers.

(** ** The source statistics *)

Section SourceStats.
Import Py DetectStack Spec.
Local Open Scope list_scope.
Local Open Scope nat_scope.

Lemma count_file_bound (f : string) (c : source_stats) :
  suffix_total (count_file f c) <= S (suffix_total c) /\
  module_total (count_file f c) <= S (module_total c).
Proof.
  unfold count_file.
  generalize (lower (suffix f)) (lower f). intros sfx lower_name.
  cbv zeta.
  repeat match goal with
         | |- context [String.eqb sfx ?x] => destruct (String.eqb sfx x)
         end;
    repeat match goal with
           | |- context [endswith lower_name ?x] =>
               destruct (endswith lower_name x)
           end;
    unfold suffix_total, module_total, bump; simpl; lia.
Qed.

Lemma count_files_bound (files : list string) (c : source_stats) :
  suffix_total (count_files files c) <= suffix_total c + List.length files /\
  module_total (count_files files c) <= module_total c + List.length files.
Proof.
  revert c. induction files as [|f files IH]; intros c; simpl; [lia|].
  destruct (IH (count_file f c)) as [H1 H2].
  destruct (count_file_bound f c) as [H3 H4].
  unfold count_files in *. lia.
Qed.

(** The inner loop: it goes on while fewer than [max_files] files have been
    scanned, and returns at the first file beyond. *)
Lemma scan_files_spec (max_files : nat) (files : list string)
  (c : source_stats) (n : nat) :
  n <= max_files ->
  match scan_files max_files files (c, n) with
  | Continue (c', n') =>
      n + List.length files <= max_files /\
      n' = n + List.length files /\ c' = count_files files c
  | Return c' =>
      max_files < n + List.length files /\
      c' = count_files (firstn (max_files - n) files) c
  end.
Proof.
  revert c n. induction files as [|f files IH]; intros c n Hn; simpl.
  - repeat split; lia.
  - destruct (max_files <=? n) eqn:E.
    + apply Nat.leb_le in E. assert (max_files - n = 0) as -> by lia.
      simpl. split; [lia | reflexivity].
    + apply Nat.leb_gt in E.
      specialize (IH (count_file f c) (S n) E).
      destruct (scan_files max_files files (count_file f c, S n))
        as [[c' n']|c'].
      * destruct IH as (H1 & H2 & H3). repeat split; try lia. exact H3.
      * destruct IH as (H1 & H2). split; [lia|].
        replace (max_files - n) with (S (max_files - S n)) by lia.
        exact H2.
Qed.

Lemma count_files_app (l1 l2 : list string) (c : source_stats) :
  count_files (l1 ++ l2) c = count_files l2 (count_files l1 c).
Proof. unfold count_files. apply fold_left_app. Qed.

(** The outer loop over the walk. *)
Lemma scan_walk_spec (max_files : nat) (w : list (list string))
  (c : source_stats) (n : nat) :
  n <= max_files ->
  match scan_walk max_files w (c, n) with
  | Continue (c', n') =>
      n + List.length (List.concat w) <= max_files /\
      n' = n + List.length (List.concat w) /\ c' = count_files (List.concat w) c
  | Return c' =>
      max_files < n + List.length (List.concat w) /\
      c' = count_files (firstn (max_files - n) (List.concat w)) c
  end.
Proof.
  revert c n. induction w as [|files w IH]; intros c n Hn; simpl.
  - repeat split; lia.
  - pose proof (scan_files_spec max_files files c n Hn) as Hf.
    destruct (scan_files max_files files (c, n)) as [[c1 n1]|c1].
    + destruct Hf as (H1 & -> & ->).
      specialize (IH (count_files files c) (n + List.length files) H1).
      destruct (scan_walk max_files w
                  (count_files files c, n + List.length files))
        as [[c' n']|c'].
      * destruct IH as (H2 & -> & ->).
        rewrite length_app, count_files_app. repeat split; lia.
      * destruct IH as (H2 & ->).
        rewrite length_app. split; [lia|].
        rewrite firstn_app, count_files_app.
        replace (firstn (max_files - n) files) with files
          by (symmetry; apply firstn_all2; lia).
        now replace (max_files - n - List.length files)
          with (max_files - (n + List.length files)) by lia.
    + destruct Hf as (H1 & ->).
      rewrite length_app. split; [lia|].
      rewrite firstn_app.
      replace (max_files - n - List.length files) with 0 by lia.
      simpl. now rewrite app_nil_r.
Qed.

(** C9. [gather_source_stats] returns, on every project tree, the counts of
    the first [max_files] files of the walk and of no other: when the tree
    has more files the loop returns early with these partial counts, and no
    exception is raised.  No more than [max_files] files are counted, under
    the suffixes and under the module suffixes.  The default bound is 4000. *)
Theorem source_stats_bounded (root : project) (max_files : nat) :
  max_files_default = 4000 /\
  gather_source_stats root max_files =
    count_files (firstn max_files (walk_files root)) no_stats /\
  match scan_walk max_files (walk (tree root)) (no_stats, 0) with
  | Return counts =>
      max_files < List.length (walk_files root) /\
      counts = gather_source_stats root max_files
  | Continue (counts, scanned) =>
      scanned = List.length (walk_files root) /\ scanned <= max_files /\
      counts = count_files (walk_files root) no_stats
  end /\
  suffix_total (gather_source_stats root max_files) <= max_files /\
  module_total (gather_source_stats root max_files) <= max_files.
Proof.
  assert (Hg : gather_source_stats root max_files =
               count_files (firstn max_files (walk_files root)) no_stats).
  { unfold gather_source_stats, walk_files.
    pose proof (scan_walk_spec max_files (walk (tree root)) no_stats 0
                  (Nat.le_0_l _)) as H.
    destruct (scan_walk max_files (walk (tree root)) (no_stats, 0))
      as [[c' n']|c'].
    - destruct H as (H1 & _ & ->). now rewrite firstn_all2 by lia.
    - destruct H as (_ & ->). now rewrite Nat.sub_0_r. }
  split; [reflexivity|]. split; [exact Hg|]. split.
  - pose proof (scan_walk_spec max_files (walk (tree root)) no_stats 0
                  (Nat.le_0_l _)) as H.
    unfold gather_source_stats, walk_files.
    destruct (scan_walk max_files (walk (tree root)) (no_stats, 0))
      as [[c' n']|c'].
    + destruct H as (H1 & -> & ->). repeat split; lia.
    + destruct H as (H1 & _). split; [lia | reflexivity].
  - rewrite Hg.
    destruct (count_files_bound (firstn max_files (walk_files root)) no_stats)
      as [H1 H2].
    pose proof (firstn_le_length max_files (walk_files root)) as H3.
    change (suffix_total no_stats) with 0 in H1.
    change (module_total no_stats) with 0 in H2.
    split; lia.
Qed.

End SourceStats.

(** ** The HTML inspector *)

Section Inspector.
Import Py Re InspectHtml Spec.
Local Open Scope list_scope.
Local Open Scope nat_scope.

Lemma del_app (l r : list string) (idx : nat) :
  idx < List.length l ->
  del (l ++ r) idx = option_map (fun l' => l' ++ r) (del l idx).
Proof.
  revert idx. induction l as [|x l IH]; simpl; intros idx H; [lia|].
  destruct idx as [|idx]; [reflexivity|].
  rewrite IH by lia. now destruct (del l idx).
Qed.

Lemma del_last (l : list string) (x : string) :
  del (l ++ [x]) (List.length l) = Some l.
Proof.
  induction l as [|y l IH]; simpl; [reflexivity|]. now rewrite IH.
Qed.

(** The search below index [n] never looks at what lies above it. *)
Lemma close_tag_app (n : nat) (l r : list string) (tag : string) :
  n <= List.length l ->
  close_tag n (l ++ r) tag = option_map (fun l' => l' ++ r) (close_tag n l tag).
Proof.
  induction n as [|idx IH]; simpl; intros H; [reflexivity|].
  rewrite nth_error_app1 by lia.
  destruct (nth_error l idx) as [x|] eqn:E; simpl.
  - destruct (String.eqb x tag); [apply del_app; lia | apply IH; lia].
  - apply nth_error_None in E. lia.
Qed.

Lemma remove_innermost_last (tag x : string) (st : list string) :
  remove_innermost tag (st ++ [x]) =
  if String.eqb x tag then st else remove_innermost tag st ++ [x].
Proof.
  unfold remove_innermost. rewrite rev_app_distr. simpl.
  destruct (String.eqb x tag); [apply rev_involutive | reflexivity].
Qed.

(** The loop of [handle_endtag] raises nothing and removes the innermost
    open [tag], if there is one. *)
Lemma close_tag_spec (st : list string) (tag : string) :
  close_tag (List.length st) st tag = Some (remove_innermost tag st).
Proof.
  induction st as [|x st IH] using rev_ind; [reflexivity|].
  rewrite length_app, Nat.add_comm. simpl.
  rewrite nth_error_app2, Nat.sub_diag by lia. simpl.
  rewrite remove_innermost_last.
  destruct (String.eqb x tag); [apply del_last|].
  rewrite close_tag_app, IH by lia. reflexivity.
Qed.

Lemma handle_endtag_spec (tag : string) (s : DraftInspector) :
  exists s', handle_endtag tag s = Some s' /\
             stack s' = remove_innermost tag (stack s) /\
             tag_counter s' = tag_counter s /\
             class_counter s' = class_counter s /\
             interactive_elements s' = interactive_elements s.
Proof.
  unfold handle_endtag.
  destruct (String.eqb tag "style" && in_style s); simpl;
    rewrite close_tag_spec; simpl; eexists; repeat split.
Qed.

(** No sequence of handler calls raises. *)
Lemma feed_total (events : list event) (s : DraftInspector) :
  exists s', feed events s = Some s'.
Proof.
  revert s. induction events as [|e events IH]; intros s; simpl.
  - now exists s.
  - destruct e as [tag a|tag a|tag|data]; simpl; try apply IH.
    destruct (handle_endtag_spec tag s) as (s' & -> & _). simpl. apply IH.
Qed.

(** C4, as stated, fails: after [<div><span></div>] the stack is not empty,
    the [span] that was never closed is still on it. *)
Lemma unclosed_span_counterexample :
  match feed unclosed_span init with
  | Some s => stack s = ["span"] /\ stack s <> []
  | None => False
  end.
Proof. simpl. split; [reflexivity | discriminate]. Qed.

(** C4, amended.  A closing tag removes from the stack the innermost open
    tag of its name, wherever it stands, and leaves a stack without that
    name as it is; no handler call raises, on any sequence of tags; after
    [<div><span></div>] the stack holds the unclosed [span] alone. *)
Theorem closing_tag_removes_innermost (events : list event)
  (s : DraftInspector) (tag : string) :
  (exists s', handle_endtag tag s = Some s' /\
              stack s' = remove_innermost tag (stack s)) /\
  (exists s', feed events s = Some s') /\
  (exists s', feed unclosed_span init = Some s' /\ stack s' = ["span"]).
Proof.
  split; [|split].
  - destruct (handle_endtag_spec tag s) as (s' & H & Hs & _). now exists s'.
  - apply feed_total.
  - eexists. split; reflexivity.
Qed.






Lemma count_incr (c : dict nat) (k k0 : string) :
  count (incr c k) k0 = count c k0 + (if String.eqb k k0 then 1 else 0).
Proof.
  unfold count, incr.
  destruct (String.eqb k k0) eqn:E.
  - apply String.eqb_eq in E. subst k0.
    destruct (get c k); rewrite get_set_same; lia.
  - assert (k <> k0) by (intros ->; now rewrite String.eqb_refl in E).
    destruct (get c k); rewrite get_set_other by assumption; lia.
Qed.

Lemma count_fold (ks : list string) (c : dict nat) (k0 : string) :
  count (fold_left incr ks c) k0 = count c k0 + occurrences k0 ks.
Proof.
  revert c. induction ks as [|k ks IH]; intros c; simpl; [lia|].
  rewrite IH, count_incr. unfold occurrences. simpl.
  destruct (string_dec k k0) as [->|N].
  - rewrite String.eqb_refl. lia.
  - apply String.eqb_neq in N. rewrite N. lia.
Qed.

Lemma mem_in (x : string) (l : list string) : mem x l = true <-> In x l.
Proof.
  unfold mem. rewrite existsb_exists. split.
  - intros (y & Hy & E). apply String.eqb_eq in E. now subst.
  - intros H. exists x. split; [exact H | apply String.eqb_refl].
Qed.




(** The dictionary the handler builds holds, for every name, what the tag
    gives it where it is written last. *)
Lemma get_attrs_from (a : attrs) (d : dict (option string)) (name : string) :
  get (fold_left (fun d kv => set d (fst kv) (snd kv)) a d) name =
  match attribute a name with
  | Some v => Some v
  | None => get d name
  end.
Proof.
  revert d. induction a as [|[k v] a IH]; intros d; [reflexivity|].
  cbn [fold_left attribute fst snd]. rewrite IH.
  destruct (attribute a name); [reflexivity|].
  destruct (String.eqb k name) eqn:E.
  - apply String.eqb_eq in E. subst k. apply get_set_same.
  - apply String.eqb_neq in E. rewrite get_set_other by exact E.
    reflexivity.
Qed.

Lemma get_attrs_dict (a : attrs) (name : string) :
  get (attrs_dict a) name = attribute a name.
Proof.
  unfold attrs_dict. rewrite get_attrs_from. now destruct (attribute a name).
Qed.

Lemma is_interactive_qualifies (tag : string) (a : attrs) :
  is_interactive tag (attrs_dict a) = qualifies (tag, a).
Proof.
  unfold is_interactive, qualifies, dget, truthy. rewrite !get_attrs_dict.
  cbn [fst snd]. unfold INTERACTIVE_TAGS.
  destruct (attribute a "onclick") as [[v|]|],
           (attribute a "role") as [[r|]|]; reflexivity.
Qed.

(** What an opening tag changes in the counters and in the samples. *)
Lemma handle_starttag_counts (tag : string) (a : attrs) (s : DraftInspector) :
  tag_counter (handle_starttag tag a s) = incr (tag_counter s) tag /\
  class_counter (handle_starttag tag a s) =
    fold_left incr (class_tokens a) (class_counter s) /\
  interactive_elements (handle_starttag tag a s) =
    interactive_elements s ++
      (if qualifies (tag, a) then [sample_of (tag, a)] else []).
Proof.
  rewrite <- is_interactive_qualifies.
  unfold handle_starttag, class_tokens, sample_of, or_empty.
  rewrite <- !get_attrs_dict. simpl.
  repeat split.
  - now destruct (truthy (dget (attrs_dict a) "class")).
  - destruct (is_interactive tag (attrs_dict a));
      [reflexivity | now rewrite app_nil_r].
Qed.

Lemma handle_startendtag_counts (tag : string) (a : attrs) (s : DraftInspector) :
  tag_counter (handle_startendtag tag a s) = tag_counter (handle_starttag tag a s) /\
  class_counter (handle_startendtag tag a s) =
    class_counter (handle_starttag tag a s) /\
  interactive_elements (handle_startendtag tag a s) =
    interactive_elements (handle_starttag tag a s).
Proof.
  unfold handle_startendtag.
  destruct (stack (handle_starttag tag a s)); [repeat split|].
  destruct (String.eqb _ tag); repeat split.
Qed.

(** The counters and the samples after a whole draft. *)
Lemma feed_counts (events : list event) (s s' : DraftInspector) :
  feed events s = Some s' ->
  tag_counter s' =
    fold_left incr (map fst (start_tags events)) (tag_counter s) /\
  class_counter s' =
    fold_left incr (flat_map (fun ta => class_tokens (snd ta)) (start_tags events))
      (class_counter s) /\
  interactive_elements s' =
    interactive_elements s ++ map sample_of (filter qualifies (start_tags events)).
Proof.
  revert s. induction events as [|e events IH]; intros s; simpl.
  - intros H. injection H as <-. now rewrite app_nil_r.
  - destruct e as [tag a|tag a|tag|data]; simpl.
    + intros H. apply IH in H. destruct H as (H1 & H2 & H3).
      destruct (handle_starttag_counts tag a s) as (E1 & E2 & E3).
      rewrite H1, H2, H3, E1, E2, E3, fold_left_app, <- app_assoc.
      repeat split. now destruct (qualifies (tag, a)).
    + intros H. apply IH in H. destruct H as (H1 & H2 & H3).
      destruct (handle_startendtag_counts tag a s) as (F1 & F2 & F3).
      destruct (handle_starttag_counts tag a s) as (E1 & E2 & E3).
      rewrite H1, H2, H3, F1, F2, F3, E1, E2, E3, fold_left_app, <- app_assoc.
      repeat split. now destruct (qualifies (tag, a)).
    + destruct (handle_endtag_spec tag s) as (s1 & -> & _ & E1 & E2 & E3).
      simpl. intros H. apply IH in H. now rewrite E1, E2, E3 in H.
    + intros H. apply IH in H. unfold handle_data in H.
      now destruct (in_style s).
Qed.








Lemma truthy_spec (v : option string) :
  truthy v = true <-> exists s, v = Some s /\ s <> "".
Proof.
  unfold truthy, nonempty. destruct v as [s|].
  - rewrite negb_true_iff, String.eqb_neq. split.
    + intros H. now exists s.
    + intros (s' & E & H). now injection E as ->.
  - split; [discriminate | intros (s & E & _); discriminate].
Qed.

(** The condition of the code says what the amended claim says. *)
Lemma qualifies_spec (tag : string) (a : attrs) :
  qualifies (tag, a) = true <-> interactive_last tag a.
Proof.
  unfold qualifies, interactive_last. cbn [fst snd].
  rewrite !orb_true_iff, mem_in.
  assert (Ho : match attribute a "onclick" with
               | Some (Some v) => nonempty v
               | _ => false
               end = true <->
               exists v, attribute a "onclick" = Some (Some v) /\ v <> "").
  { destruct (attribute a "onclick") as [[v|]|].
    - unfold nonempty. rewrite negb_true_iff, String.eqb_neq. split.
      + intros H. now exists v.
      + intros (v' & E & H). now injection E as ->.
    - split; [discriminate | intros (v' & E & _); discriminate].
    - split; [discriminate | intros (v' & E & _); discriminate]. }
  assert (Hr : match attribute a "role" with
               | Some (Some r) => String.eqb r "button"
               | _ => false
               end = true <->
               attribute a "role" = Some (Some "button")).
  { destruct (attribute a "role") as [[r|]|].
    - rewrite String.eqb_eq. split; [now intros -> | now intros [= ->]].
    - split; discriminate.
    - split; discriminate. }
  rewrite Ho, Hr. tauto.
Qed.

(** An attribute that is written once is read where it is written. *)
Lemma attribute_in (a : attrs) (name : string) (v : option string) :
  attribute a name = Some v -> In (name, v) a.
Proof.
  induction a as [|[k w] a IH]; cbn [attribute In]; [discriminate|].
  destruct (attribute a name) as [v'|].
  - intros H. injection H as ->. right. now apply IH.
  - destruct (String.eqb k name) eqn:Ek; [|discriminate].
    apply String.eqb_eq in Ek. subst k. intros H. injection H as ->. now left.
Qed.

Lemma attribute_once (a : attrs) (name : string) (v : option string) :
  NoDup (map fst a) -> (attribute a name = Some v <-> In (name, v) a).
Proof.
  intros Hn. split; [apply attribute_in|].
  induction a as [|[k w] a IH]; cbn [map fst attribute In] in *; [intros []|].
  inversion Hn as [|? ? Hk Hn']; subst. specialize (IH Hn').
  intros [H|H].
  - injection H as -> ->.
    destruct (attribute a name) as [v'|] eqn:E.
    + exfalso. apply Hk. apply attribute_in in E.
      now apply (in_map fst) in E.
    + now rewrite String.eqb_refl.
  - rewrite (IH H). reflexivity.
Qed.

Lemma interactive_once (tag : string) (a : attrs) :
  NoDup (map fst a) -> (interactive_last tag a <-> interactive_spec tag a).
Proof.
  intros Hn. unfold interactive_last, interactive_spec.
  rewrite (attribute_once a "role" (Some "button") Hn).
  split; (intros [H|[(v & E & H)|H]]; auto; right; left; exists v;
          split; [now apply (attribute_once a "onclick" (Some v) Hn) | exact H]).
Qed.

(** C7, as stated, fails: a tag that carries a non-empty [onclick] and then
    an empty one is not recorded, the dictionary of the handler keeping the
    attribute written last. *)
Lemma repeated_onclick_counterexample :
  interactive_spec "p" twice_onclick /\
  exists s,
    feed [StartTag "p" twice_onclick] init = Some s /\
    interactive_elements s = [] /\
    interactive_elements_out (out_summary (build_output "draft.html" s)) = 0.
Proof.
  split.
  - right. left. exists "x()". split; [now left | discriminate].
  - eexists. split; [reflexivity|]. split; reflexivity.
Qed.

(** C7, amended.  An opening tag is recorded as an interactive element
    exactly when its name is one of button, a, input, select, textarea,
    summary, or the [onclick] attribute it carries is a non-empty text, or
    the [role] attribute it carries is exactly [button], an attribute that
    the tag writes more than once being read where it is written last; on a
    tag that writes no attribute twice this is the condition of the
    specification.  Every such opening tag is recorded, in document order,
    and none other; the reported count is their number, and only
    [sample_interactive] is cut to the first 20. *)
Theorem interactive_elements_recorded (path : string) (events : list event) :
  (forall tag a,
     is_interactive tag (attrs_dict a) = true <-> interactive_last tag a) /\
  (forall tag a,
     NoDup (map fst a) -> (interactive_last tag a <-> interactive_spec tag a)) /\
  (forall tag a, qualifies (tag, a) = true <-> interactive_last tag a) /\
  exists s,
    feed events init = Some s /\
    interactive_elements s =
      map sample_of (filter qualifies (start_tags events)) /\
    interactive_elements_out (out_summary (build_output path s)) =
      List.length (filter qualifies (start_tags events)) /\
    sample_interactive (build_output path s) =
      firstn 20 (map sample_of (filter qualifies (start_tags events))).
Proof.
  split; [|split; [apply interactive_once | split; [apply qualifies_spec|]]].
  - intros tag a. rewrite is_interactive_qualifies. apply qualifies_spec.
  - destruct (feed_total events init) as (s & Hs). exists s.
    destruct (feed_counts events init s Hs) as (_ & _ & H).
    simpl in H. simpl. rewrite H, length_map. repeat split; auto.
Qed.

(** A [div] that carries an [onclick] and an [id], each once, is interactive
    in the words of the specification, and is recorded with its [id]. *)
Lemma interactive_elements_recorded_witness :
  interactive_spec "div" [("id", Some "cta"); ("onclick", Some "go()")] /\
  exists s,
    feed call_to_action init = Some s /\
    interactive_elements s =
      [{| s_tag := "div"; s_id := Some "cta"; s_class := Some "";
          s_role := Some "" |}].
Proof.
  destruct (interactive_elements_recorded "draft.html" call_to_action)
    as (Hcode & Honce & _ & s & Hfeed & Hrec & _).
  split.
  - apply Honce.
    + repeat constructor; simpl; intuition discriminate.
    + apply Hcode. reflexivity.
  - exists s. split; [exact Hfeed|]. rewrite Hrec. reflexivity.
Defined.

(** *** [unique_limited] *)

Lemma firstn_exact {A} (l r : list A) :
  firstn (List.length l) (l ++ r) = l.
Proof.
  rewrite firstn_app, Nat.sub_diag, firstn_all. simpl. apply app_nil_r.
Qed.

(** The loop, from any of its states below the limit. *)
Lemma unique_limited_loop_spec (limit : nat) (items seen result : list string) :
  List.length result < limit ->
  unique_limited_loop limit items seen result =
  firstn limit (result ++ dedup_from seen (clean items)).
Proof.
  revert seen result.
  induction items as [|item items IH]; intros seen result Hlen; simpl.
  - rewrite app_nil_r. symmetry. apply firstn_all2. lia.
  - unfold clean in *. simpl.
    destruct (nonempty (strip item)) eqn:N; simpl; [|now apply IH].
    destruct (mem (strip item) seen) eqn:M; [now apply IH|].
    rewrite length_app. simpl.
    destruct (limit <=? List.length result + 1) eqn:L.
    + apply Nat.leb_le in L.
      assert (limit = List.length (result ++ [strip item]))
        as -> by (rewrite length_app; simpl; lia).
      change (strip item :: dedup_from (strip item :: seen)
                              (filter nonempty (map strip items)))
        with ([strip item] ++ dedup_from (strip item :: seen)
                                (filter nonempty (map strip items))).
      rewrite app_assoc. symmetry. apply firstn_exact.
    + apply Nat.leb_gt in L.
      rewrite IH by (rewrite length_app; simpl; lia).
      now rewrite <- app_assoc.
Qed.

Lemma filter_filter {A} (p q : A -> bool) (l : list A) :
  filter p (filter q l) = filter (fun x => q x && p x) l.
Proof.
  induction l as [|x l IH]; simpl; [reflexivity|].
  destruct (q x); simpl; [destruct (p x)|]; now rewrite IH.
Qed.

Lemma dedup_from_filter (seen l : list string) :
  dedup_from seen l = filter (fun x => negb (mem x seen)) (dedup l).
Proof.
  revert seen. induction l as [|x l IH]; intros seen; simpl; [reflexivity|].
  rewrite filter_filter.
  destruct (mem x seen) eqn:M; simpl.
  - rewrite IH. apply filter_ext_in. intros y _.
    destruct (String.eqb y x) eqn:E; simpl; [|reflexivity].
    apply String.eqb_eq in E. subst y. now rewrite M.
  - rewrite IH. f_equal. apply filter_ext. intros y. unfold mem. simpl.
    destruct (String.eqb y x); simpl; [reflexivity|].
    now destruct (existsb (String.eqb y) seen).
Qed.

Lemma unique_limited_spec (items : list string) (limit : nat) :
  0 < limit ->
  unique_limited items limit = firstn limit (dedup (clean items)).
Proof.
  intros H. unfold unique_limited.
  rewrite unique_limited_loop_spec by exact H. simpl.
  rewrite dedup_from_filter. f_equal.
  rewrite <- (filter_true (dedup (clean items))) at 2. reflexivity.
Qed.

Lemma dedup_in (x : string) (l : list string) : In x (dedup l) -> In x l.
Proof.
  induction l as [|y l IH]; simpl; [auto|].
  intros [H|H]; [now left|].
  apply filter_In in H. right. tauto.
Qed.

Lemma dedup_nodup (l : list string) : NoDup (dedup l).
Proof.
  induction l as [|x l IH]; simpl; constructor.
  - intros H. apply filter_In in H. destruct H as [_ H].
    now rewrite String.eqb_refl in H.
  - now apply NoDup_filter.
Qed.

Lemma firstn_in {A} (n : nat) (x : A) (l : list A) :
  In x (firstn n l) -> In x l.
Proof.
  intros H. rewrite <- (firstn_skipn n l). apply in_or_app. now left.
Qed.

Lemma firstn_nodup {A} (n : nat) (l : list A) : NoDup l -> NoDup (firstn n l).
Proof.
  intros H. rewrite <- (firstn_skipn n l) in H.
  now apply NoDup_app_remove_r in H.
Qed.

(** [unique_limited] gives a token list in the sense of the specification. *)
Lemma unique_limited_token_list (captures : list string) (limit : nat) :
  0 < limit -> token_list limit captures (unique_limited captures limit).
Proof.
  intros H. unfold token_list. rewrite unique_limited_spec by exact H.
  split; [reflexivity|]. split; [|split; [|split]].
  - apply firstn_nodup, dedup_nodup.
  - apply firstn_le_length.
  - intros Hin. apply firstn_in, dedup_in in Hin.
    unfold clean in Hin. apply filter_In in Hin. now destruct Hin.
  - apply Forall_forall. intros x Hin.
    apply firstn_in, dedup_in in Hin.
    unfold clean in Hin. apply filter_In in Hin. destruct Hin as [Hin _].
    apply in_map_iff in Hin. destruct Hin as (item & <- & Hitem).
    now exists item.
Qed.

(** C8. Each of the five sequences [extract_tokens] returns is the captures
    of its pattern trimmed, without the empty ones, without a text already
    kept, cut at 40 entries.  [font-size: 14px;] gives the font size [14px];
    [color:#FFF] and [color: #ffffff] give two colours, [#FFF] and
    [#ffffff]. *)
Theorem tokens_deduplicated_and_capped (css_text : string) :
  let t := extract_tokens css_text in
  token_list 40 (findall colors_re false css_text) (colors t) /\
  token_list 40 (findall font_sizes_re true css_text) (font_sizes t) /\
  token_list 40 (findall spacings_re true css_text) (spacings t) /\
  token_list 40 (findall radii_re true css_text) (radii t) /\
  token_list 40 (findall shadows_re true css_text) (shadows t) /\
  font_sizes (extract_tokens "font-size: 14px;") = ["14px"] /\
  colors (extract_tokens ("color:#FFF" ++ newline ++ "color: #ffffff")%string)
    = ["#FFF"; "#ffffff"].
Proof.
  cbv zeta. unfold extract_tokens. simpl.
  repeat (split; [apply unique_limited_token_list; lia|]).
  split; vm_compute; reflexivity.
Qed.

End Inspector.


(** ** The inspector: the stack, the samples and the raw text *)

Section InspectorState.
Import Py Re InspectHtml Spec.
Local Open Scope list_scope.
Local Open Scope nat_scope.

Lemma last_snoc (l : list string) (x : string) : last_or_empty (l ++ [x]) = x.
Proof. unfold last_or_empty. apply last_last. Qed.

Lemma stack_starttag (tag : string) (a : attrs) (s : DraftInspector) :
  stack (handle_starttag tag a s) = stack s ++ [tag].
Proof. reflexivity. Qed.

(** A self-closing tag always finds its own name on top and pops it. *)
Lemma stack_startendtag (tag : string) (a : attrs) (s : DraftInspector) :
  stack (handle_startendtag tag a s) = stack s.
Proof.
  unfold handle_startendtag. rewrite stack_starttag.
  destruct (stack s ++ [tag]) eqn:E; [now destruct (stack s)|].
  rewrite <- E, last_snoc, String.eqb_refl. simpl. apply removelast_last.
Qed.

Lemma remove_first_absent (tag : string) (l : list string) :
  ~ In tag l -> remove_first tag l = l.
Proof.
  induction l as [|x l IH]; simpl; intros H; [reflexivity|].
  destruct (String.eqb x tag) eqn:E.
  - apply String.eqb_eq in E. subst. tauto.
  - rewrite IH; tauto.
Qed.

Lemma remove_first_length (tag : string) (l : list string) :
  In tag l -> S (List.length (remove_first tag l)) = List.length l.
Proof.
  induction l as [|x l IH]; simpl; intros H; [contradiction|].
  destruct (String.eqb x tag) eqn:E; [reflexivity|].
  simpl. rewrite IH; [reflexivity|].
  destruct H as [->|H]; [|exact H]. now rewrite String.eqb_refl in E.
Qed.

Lemma remove_first_incl (tag x : string) (l : list string) :
  In x (remove_first tag l) -> In x l.
Proof.
  induction l as [|y l IH]; simpl; [auto|].
  destruct (String.eqb y tag); simpl; [now right | intros [H|H]; auto].
Qed.

Lemma remove_innermost_absent (tag : string) (st : list string) :
  ~ In tag st -> remove_innermost tag st = st.
Proof.
  intros H. unfold remove_innermost.
  rewrite remove_first_absent by (now rewrite <- in_rev).
  apply rev_involutive.
Qed.

Lemma remove_innermost_length (tag : string) (st : list string) :
  In tag st -> S (List.length (remove_innermost tag st)) = List.length st.
Proof.
  intros H. unfold remove_innermost.
  rewrite length_rev, remove_first_length by (now rewrite <- in_rev).
  apply length_rev.
Qed.

Lemma remove_innermost_incl (tag x : string) (st : list string) :
  In x (remove_innermost tag st) -> In x st.
Proof.
  unfold remove_innermost. rewrite <- in_rev. intros H.
  apply remove_first_incl in H. now rewrite <- in_rev in H.
Qed.

Lemma remove_innermost_top (tag : string) (st : list string) :
  remove_innermost tag (st ++ [tag]) = st.
Proof. rewrite remove_innermost_last. now rewrite String.eqb_refl. Qed.

(** What a closing tag leaves alone. *)
Lemma handle_endtag_frame (tag : string) (s : DraftInspector) :
  exists s',
    handle_endtag tag s = Some s' /\
    stack s' = remove_innermost tag (stack s) /\
    tag_counter s' = tag_counter s /\
    class_counter s' = class_counter s /\
    semantic_sections s' = semantic_sections s /\
    interactive_elements s' = interactive_elements s /\
    images s' = images s /\ stylesheets s' = stylesheets s /\
    scripts s' = scripts s /\ inline_styles s' = inline_styles s /\
    root_children s' = root_children s.
Proof.
  unfold handle_endtag.
  destruct (String.eqb tag "style" && in_style s); simpl;
    rewrite close_tag_spec; simpl; eexists; repeat split.
Qed.

Lemma feed_app (l1 l2 : list event) (s : DraftInspector) :
  feed (l1 ++ l2) s = bind (feed l1 s) (feed l2).
Proof.
  revert s. induction l1 as [|e l1 IH]; intros s; simpl; [reflexivity|].
  destruct (handle e s) as [s1|]; simpl; [apply IH | reflexivity].
Qed.

(** X1. Opening a tag pushes its name on the stack; a self-closing tag and
    text leave the stack as it was; a closing tag never raises, pops its name
    when it is on top, shortens the stack by exactly one entry when the name
    is anywhere on it and leaves it unchanged otherwise. *)
Theorem stack_follows_tags (tag : string) (a : attrs) (data : string)
  (s : DraftInspector) :
  stack (handle_starttag tag a s) = stack s ++ [tag] /\
  stack (handle_startendtag tag a s) = stack s /\
  stack (handle_data data s) = stack s /\
  exists s',
    handle_endtag tag s = Some s' /\
    (forall below, stack s = below ++ [tag] -> stack s' = below) /\
    (In tag (stack s) -> S (List.length (stack s')) = List.length (stack s)) /\
    (~ In tag (stack s) -> stack s' = stack s).
Proof.
  split; [reflexivity|]. split; [apply stack_startendtag|]. split.
  - unfold handle_data. now destruct (in_style s).
  - destruct (handle_endtag_frame tag s) as (s' & H & Hs & _).
    exists s'. split; [exact H|]. rewrite Hs. repeat split.
    + intros below ->. apply remove_innermost_top.
    + apply remove_innermost_length.
    + apply remove_innermost_absent.
Qed.

(** On the stack [html; body; div], [</body>] removes [body] from under
    [div], and [</span>] changes nothing. *)
Lemma stack_follows_tags_witness :
  exists s1 s2,
    handle_endtag "body" (with_stack init ["html"; "body"; "div"]) = Some s1 /\
    List.length (stack s1) = 2 /\
    handle_endtag "span" (with_stack init ["html"; "body"; "div"]) = Some s2 /\
    stack s2 = ["html"; "body"; "div"].
Proof.
  destruct (stack_follows_tags "body" [] "" (with_stack init ["html"; "body"; "div"]))
    as (_ & _ & _ & s1 & H1 & _ & Hin & _).
  destruct (stack_follows_tags "span" [] "" (with_stack init ["html"; "body"; "div"]))
    as (_ & _ & _ & s2 & H2 & _ & _ & Hout).
  exists s1, s2. split; [exact H1|]. split.
  - assert (E : S (List.length (stack s1)) = 3) by (apply Hin; simpl; tauto).
    now injection E.
  - split; [exact H2|]. apply Hout. simpl.
    intros [H|[H|[H|[]]]]; discriminate H.
Defined.

(** A properly nested draft leaves the stack as it found it. *)
Lemma balanced_stack (events : list event) :
  balanced events ->
  forall s, exists s', feed events s = Some s' /\ stack s' = stack s.
Proof.
  induction 1 as [|data rest _ IH|tag a rest _ IH|tag a body rest _ IHb _ IHr];
    intros s.
  - now exists s.
  - simpl. destruct (IH (handle_data data s)) as (s' & H & Hs).
    exists s'. split; [exact H|]. rewrite Hs.
    unfold handle_data. now destruct (in_style s).
  - simpl. destruct (IH (handle_startendtag tag a s)) as (s' & H & Hs).
    exists s'. split; [exact H|]. now rewrite Hs, stack_startendtag.
  - simpl. rewrite feed_app.
    destruct (IHb (handle_starttag tag a s)) as (s1 & H1 & Hs1).
    rewrite H1. simpl.
    destruct (handle_endtag_frame tag s1) as (s2 & H2 & Hs2 & _).
    rewrite H2. simpl.
    destruct (IHr s2) as (s' & H & Hs).
    exists s'. split; [exact H|].
    now rewrite Hs, Hs2, Hs1, stack_starttag, remove_innermost_top.
Qed.

(** X2. On a properly nested draft every closing tag pops the element it
    closes: the stack after the draft is the stack before it, and empty when
    the draft is the whole document. *)
Theorem balanced_draft_restores_stack (events : list event)
  (s : DraftInspector) :
  balanced events ->
  (exists s', feed events s = Some s' /\ stack s' = stack s) /\
  (exists s', feed events init = Some s' /\ stack s' = []).
Proof.
  intros H. split; [now apply balanced_stack|].
  destruct (balanced_stack events H init) as (s' & Hf & Hs).
  now exists s'.
Qed.

Lemma nested_cards_balanced : balanced nested_cards.
Proof.
  unfold nested_cards.
  apply (balanced_element "div" _
           [StartTag "div" [("class", Some "card")];
            StartTag "button" [("onclick", Some "x()")];
            Data "Go"; EndTag "button"; EndTag "div"] []);
    [|constructor].
  apply (balanced_element "div" _
           [StartTag "button" [("onclick", Some "x()")];
            Data "Go"; EndTag "button"] []); [|constructor].
  apply (balanced_element "button" _ [Data "Go"] []); repeat constructor.
Qed.

(** The nested cards are properly nested and leave an empty stack. *)
Lemma balanced_draft_restores_stack_witness :
  balanced nested_cards /\
  exists s', feed nested_cards init = Some s' /\ stack s' = [].
Proof.
  split; [exact nested_cards_balanced|].
  exact (proj2 (balanced_draft_restores_stack nested_cards init
                  nested_cards_balanced)).
Defined.

(** The handler reads an attribute where the tag writes it last. *)
Lemma dget_attr (tag : string) (a : attrs) (name : string) :
  dget (attrs_dict a) name = attr (tag, a) name.
Proof. unfold dget, attr. now rewrite get_attrs_dict. Qed.

(** What an opening tag adds to each list, and what a self-closing tag
    shares with it. *)
Lemma handle_starttag_lists (tag : string) (a : attrs) (s : DraftInspector) :
  semantic_sections (handle_starttag tag a s) =
    (if mem tag SEMANTIC_TAGS then incr (semantic_sections s) tag
     else semantic_sections s) /\
  images (handle_starttag tag a s) = images s ++ image_of (tag, a) /\
  stylesheets (handle_starttag tag a s) = stylesheets s ++ stylesheet_of (tag, a) /\
  scripts (handle_starttag tag a s) = scripts s ++ script_of (tag, a) /\
  inline_styles (handle_starttag tag a s) =
    inline_styles s ++ inline_style_of (tag, a) /\
  root_children (handle_starttag tag a s) =
    (if String.eqb (last_or_empty (stack s)) "body"
        && (List.length (root_children s) <? 30)
     then root_children s ++
            [{| s_tag := tag; s_id := dget_or (attrs_dict a) "id" "";
                s_class := dget_or (attrs_dict a) "class" ""; s_role := None |}]
     else root_children s).
Proof.
  unfold image_of, stylesheet_of, script_of, inline_style_of. cbn [fst snd].
  rewrite <- (dget_attr tag a "src"), <- (dget_attr tag a "href"),
    <- (dget_attr tag a "rel"), <- (dget_attr tag a "style").
  unfold handle_starttag. simpl.
  repeat split.
  - destruct (String.eqb tag "img" && truthy (dget (attrs_dict a) "src"));
      [reflexivity | now rewrite app_nil_r].
  - destruct (String.eqb tag "link" && truthy (dget (attrs_dict a) "href"));
      simpl; [|now rewrite app_nil_r].
    destruct (contains "stylesheet" (lower (text (dget (attrs_dict a) "rel"))));
      [reflexivity | now rewrite app_nil_r].
  - destruct (String.eqb tag "script" && truthy (dget (attrs_dict a) "src"));
      [reflexivity | now rewrite app_nil_r].
  - destruct (truthy (dget (attrs_dict a) "style"));
      [reflexivity | now rewrite app_nil_r].
Qed.

Lemma handle_startendtag_lists (tag : string) (a : attrs) (s : DraftInspector) :
  semantic_sections (handle_startendtag tag a s) =
    semantic_sections (handle_starttag tag a s) /\
  images (handle_startendtag tag a s) = images (handle_starttag tag a s) /\
  stylesheets (handle_startendtag tag a s) =
    stylesheets (handle_starttag tag a s) /\
  scripts (handle_startendtag tag a s) = scripts (handle_starttag tag a s) /\
  inline_styles (handle_startendtag tag a s) =
    inline_styles (handle_starttag tag a s) /\
  root_children (handle_startendtag tag a s) =
    root_children (handle_starttag tag a s).
Proof.
  unfold handle_startendtag.
  destruct (stack (handle_starttag tag a s)); [repeat split|].
  destruct (String.eqb _ tag); repeat split.
Qed.

Lemma handle_data_frame (data : string) (s : DraftInspector) :
  tag_counter (handle_data data s) = tag_counter s /\
  class_counter (handle_data data s) = class_counter s /\
  semantic_sections (handle_data data s) = semantic_sections s /\
  images (handle_data data s) = images s /\
  stylesheets (handle_data data s) = stylesheets s /\
  scripts (handle_data data s) = scripts s /\
  inline_styles (handle_data data s) = inline_styles s /\
  root_children (handle_data data s) = root_children s /\
  stack (handle_data data s) = stack s.
Proof. unfold handle_data. destruct (in_style s); repeat split. Qed.

(** The semantic counter and the raw lists after a whole draft. *)
Lemma feed_lists (events : list event) (s s' : DraftInspector) :
  feed events s = Some s' ->
  semantic_sections s' =
    fold_left incr
      (filter (fun t => mem t SEMANTIC_TAGS) (map fst (start_tags events)))
      (semantic_sections s) /\
  images s' = images s ++ flat_map image_of (start_tags events) /\
  stylesheets s' = stylesheets s ++ flat_map stylesheet_of (start_tags events) /\
  scripts s' = scripts s ++ flat_map script_of (start_tags events) /\
  inline_styles s' =
    inline_styles s ++ flat_map inline_style_of (start_tags events).
Proof.
  revert s. induction events as [|e events IH]; intros s.
  - simpl. intros H. injection H as <-. now rewrite !app_nil_r.
  - assert (Hstart : forall tag a s1,
               semantic_sections s1 = semantic_sections (handle_starttag tag a s) ->
               images s1 = images (handle_starttag tag a s) ->
               stylesheets s1 = stylesheets (handle_starttag tag a s) ->
               scripts s1 = scripts (handle_starttag tag a s) ->
               inline_styles s1 = inline_styles (handle_starttag tag a s) ->
               feed events s1 = Some s' ->
               semantic_sections s' =
                 fold_left incr
                   (filter (fun t => mem t SEMANTIC_TAGS)
                      (tag :: map fst (start_tags events)))
                   (semantic_sections s) /\
               images s' =
                 images s ++ image_of (tag, a) ++ flat_map image_of (start_tags events) /\
               stylesheets s' =
                 stylesheets s ++ stylesheet_of (tag, a)
                   ++ flat_map stylesheet_of (start_tags events) /\
               scripts s' =
                 scripts s ++ script_of (tag, a)
                   ++ flat_map script_of (start_tags events) /\
               inline_styles s' =
                 inline_styles s ++ inline_style_of (tag, a)
                   ++ flat_map inline_style_of (start_tags events)).
    { intros tag a s1 F1 F2 F3 F4 F5 H.
      apply IH in H. destruct H as (H1 & H2 & H3 & H4 & H5).
      destruct (handle_starttag_lists tag a s) as (E1 & E2 & E3 & E4 & E5 & _).
      rewrite H1, H2, H3, H4, H5, F1, F2, F3, F4, F5, E1, E2, E3, E4, E5,
        <- !app_assoc.
      repeat split. cbn [filter].
      now destruct (mem tag SEMANTIC_TAGS). }
    destruct e as [tag a|tag a|tag|data]; cbn [feed handle bind start_tags map flat_map fst].
    + now apply Hstart.
    + destruct (handle_startendtag_lists tag a s)
        as (F1 & F2 & F3 & F4 & F5 & _).
      now apply Hstart.
    + destruct (handle_endtag_frame tag s)
        as (s1 & -> & _ & _ & _ & E1 & _ & E2 & E3 & E4 & E5 & _).
      cbn [bind]. intros H. apply IH in H. now rewrite E1, E2, E3, E4, E5 in H.
    + intros H. apply IH in H.
      destruct (handle_data_frame data s)
        as (_ & _ & E1 & E2 & E3 & E4 & E5 & _).
      now rewrite E1, E2, E3, E4, E5 in H.
Qed.

Lemma occurrences_filter (p : string -> bool) (x : string) (l : list string) :
  occurrences x (filter p l) = if p x then occurrences x l else 0.
Proof.
  unfold occurrences. induction l as [|y l IH]; simpl.
  - now destruct (p x).
  - destruct (p y) eqn:Py; simpl.
    + destruct (string_dec y x) as [->|N]; rewrite IH, ?Py;
        [reflexivity | now destruct (p x)].
    + destruct (string_dec y x) as [->|N]; rewrite IH;
        [now rewrite Py | now destruct (p x)].
Qed.

(** X3. The semantic counter is the tag counter restricted to the eight
    semantic tags: a semantic tag has the same count in both, any other tag
    has none in the semantic counter. *)
Theorem semantic_counts_are_tag_counts (events : list event) :
  exists s,
    feed events init = Some s /\
    forall tag,
      count (semantic_sections s) tag =
      if mem tag ["header"; "main"; "section"; "footer"; "nav"; "article";
                  "aside"; "form"]
      then count (tag_counter s) tag else 0.
Proof.
  destruct (feed_total events init) as (s & Hs). exists s.
  split; [exact Hs|]. intros tag.
  destruct (feed_lists events init s Hs) as (H1 & _).
  destruct (feed_counts events init s Hs) as (H2 & _).
  rewrite H1, H2, !count_fold, occurrences_filter.
  unfold SEMANTIC_TAGS.
  match goal with
  | |- context [mem tag ?l] => destruct (mem tag l)
  end; reflexivity.
Qed.

(** X4. No count ever goes down: from any state of the inspector, after any
    further tags and text, every tag, class and semantic count is at
    least what it was. *)
Theorem counts_never_decrease (events : list event) (s : DraftInspector) :
  exists s',
    feed events s = Some s' /\
    forall k,
      count (tag_counter s) k <= count (tag_counter s') k /\
      count (class_counter s) k <= count (class_counter s') k /\
      count (semantic_sections s) k <= count (semantic_sections s') k.
Proof.
  destruct (feed_total events s) as (s' & Hs). exists s'.
  split; [exact Hs|]. intros k.
  destruct (feed_lists events s s' Hs) as (H1 & _).
  destruct (feed_counts events s s' Hs) as (H2 & H3 & _).
  rewrite H1, H2, H3, !count_fold. lia.
Qed.

Lemma last_in (l : list string) (x : string) :
  last_or_empty l = x -> x <> "" -> In x l.
Proof.
  unfold last_or_empty. intros H Hx.
  destruct l as [|y l]; [simpl in H; congruence|].
  rewrite <- H.
  destruct (@exists_last _ (y :: l)) as (l' & z & E); [discriminate|].
  rewrite E, last_last. apply in_or_app. right. now left.
Qed.

(** Without an opening [body] tag, [body] never comes on the stack and no
    root child is recorded. *)
Lemma feed_without_body (events : list event) (s s' : DraftInspector) :
  ~ In "body" (stack s) ->
  ~ In "body" (map fst (start_tags events)) ->
  feed events s = Some s' ->
  root_children s' = root_children s /\ ~ In "body" (stack s').
Proof.
  revert s. induction events as [|e events IH]; intros s Hst Htags; simpl.
  - intros H. injection H as <-. now split.
  - assert (Hparent : String.eqb (last_or_empty (stack s)) "body" = false).
    { apply String.eqb_neq. intros E. apply Hst.
      apply last_in; [exact E | discriminate]. }
    destruct e as [tag a|tag a|tag|data]; simpl in *.
    + intros H. apply IH in H.
      * destruct (handle_starttag_lists tag a s) as (_ & _ & _ & _ & _ & E).
        rewrite E, Hparent in H. exact H.
      * rewrite stack_starttag, in_app_iff. simpl. tauto.
      * tauto.
    + intros H. apply IH in H.
      * destruct (handle_startendtag_lists tag a s)
          as (_ & _ & _ & _ & _ & F).
        destruct (handle_starttag_lists tag a s) as (_ & _ & _ & _ & _ & E).
        rewrite F, E, Hparent in H. exact H.
      * now rewrite stack_startendtag.
      * tauto.
    + destruct (handle_endtag_frame tag s)
        as (s1 & -> & E1 & _ & _ & _ & _ & _ & _ & _ & _ & E2).
      simpl. intros H. apply IH in H.
      * now rewrite E2 in H.
      * rewrite E1. intros Hin. now apply remove_innermost_incl in Hin.
      * exact Htags.
    + intros H. apply IH in H.
      * destruct (handle_data_frame data s) as (_ & _ & _ & _ & _ & _ & _ & E & _).
        now rewrite E in H.
      * destruct (handle_data_frame data s) as (_ & _ & _ & _ & _ & _ & _ & _ & E).
        now rewrite E.
      * exact Htags.
Qed.

Lemma feed_root_children_bound (events : list event) (s s' : DraftInspector) :
  List.length (root_children s) <= 30 ->
  feed events s = Some s' ->
  List.length (root_children s') <= 30.
Proof.
  revert s. induction events as [|e events IH]; intros s Hlen; simpl.
  - intros H. now injection H as <-.
  - assert (Hstart : forall tag a,
               List.length (root_children (handle_starttag tag a s)) <= 30).
    { intros tag a.
      destruct (handle_starttag_lists tag a s) as (_ & _ & _ & _ & _ & E).
      rewrite E.
      destruct (String.eqb (last_or_empty (stack s)) "body"); simpl;
        [|exact Hlen].
      destruct (List.length (root_children s) <? 30) eqn:L; [|exact Hlen].
      apply Nat.ltb_lt in L. rewrite length_app. simpl. lia. }
    destruct e as [tag a|tag a|tag|data]; simpl.
    + apply IH, Hstart.
    + apply IH.
      destruct (handle_startendtag_lists tag a s) as (_ & _ & _ & _ & _ & F).
      rewrite F. apply Hstart.
    + destruct (handle_endtag_frame tag s)
        as (s1 & -> & _ & _ & _ & _ & _ & _ & _ & _ & _ & E).
      simpl. apply IH. now rewrite E.
    + apply IH.
      destruct (handle_data_frame data s) as (_ & _ & _ & _ & _ & _ & _ & E & _).
      now rewrite E.
Qed.

(** X5. No more than 30 root children are ever recorded, and a draft that
    never opens a [body] tag records none. *)
Theorem root_children_bounded (events : list event) :
  exists s,
    feed events init = Some s /\
    List.length (root_children s) <= 30 /\
    (~ In "body" (map fst (start_tags events)) -> root_children s = []).
Proof.
  destruct (feed_total events init) as (s & Hs). exists s.
  split; [exact Hs|]. split.
  - apply (feed_root_children_bound events init s); [simpl; lia | exact Hs].
  - intros H.
    now destruct (feed_without_body events init s (fun F => F) H Hs).
Qed.

(** The nested cards have no [body]: no root child is recorded. *)
Lemma root_children_bounded_witness :
  exists s, feed nested_cards init = Some s /\ root_children s = [].
Proof.
  destruct (root_children_bounded nested_cards) as (s & Hs & _ & H).
  exists s. split; [exact Hs|]. apply H. simpl.
  intros [E|[E|[E|[]]]]; discriminate E.
Defined.

(** X6. The report's three asset lists are the [src] of the [img] tags, the
    [href] of the [link] tags whose [rel] contains [stylesheet] in any case,
    and the [src] of the [script] tags, each taken in document order when it
    is a non-empty text, then trimmed, without blanks, without a text already
    kept, and cut at 50 entries.  The attributes are read off the tag as it
    is written, where the tag writes them last. *)
Theorem assets_deduplicated_and_capped (path : string) (events : list event) :
  exists s,
    feed events init = Some s /\
    let sm := out_summary (build_output path s) in
    token_list 50 (flat_map image_of (start_tags events)) (external_images sm) /\
    token_list 50 (flat_map stylesheet_of (start_tags events))
      (external_stylesheets sm) /\
    token_list 50 (flat_map script_of (start_tags events)) (external_scripts sm).
Proof.
  destruct (feed_total events init) as (s & Hs). exists s.
  split; [exact Hs|].
  destruct (feed_lists events init s Hs) as (_ & H1 & H2 & H3 & _).
  simpl in H1, H2, H3. cbv zeta. simpl.
  rewrite H1, H2, H3.
  repeat split; apply unique_limited_token_list; lia.
Qed.

(** On a draft with a style sheet, an icon, a script with [src] and one
    without, and three images, two of them the same: one style sheet, one
    script and one image are reported. *)
Lemma assets_deduplicated_and_capped_witness :
  exists s,
    feed asset_draft init = Some s /\
    external_images (out_summary (build_output "draft.html" s)) = ["a.png"] /\
    external_stylesheets (out_summary (build_output "draft.html" s)) =
      ["site.css"] /\
    external_scripts (out_summary (build_output "draft.html" s)) = ["app.js"].
Proof.
  destruct (assets_deduplicated_and_capped "draft.html" asset_draft)
    as (s & Hs & (Hi & _) & (Hl & _) & (Hj & _)).
  exists s. split; [exact Hs|].
  rewrite Hi, Hl, Hj. repeat split.
Defined.

Lemma feed_data (texts : list string) (s : DraftInspector) :
  feed (map Data texts) s =
  Some (if in_style s then
          {| tag_counter := tag_counter s; class_counter := class_counter s;
             semantic_sections := semantic_sections s;
             interactive_elements := interactive_elements s;
             images := images s; stylesheets := stylesheets s;
             scripts := scripts s; inline_styles := inline_styles s;
             style_blocks := style_blocks s; in_style := true;
             style_buffer := style_buffer s ++ texts;
             stack := stack s; root_children := root_children s |}
        else s).
Proof.
  revert s. induction texts as [|d texts IH]; intros s; simpl.
  - destruct s as [a b c d e f g h i j k l m]. simpl.
    destruct j; [now rewrite app_nil_r | reflexivity].
  - rewrite IH. unfold handle_data.
    destruct (in_style s) eqn:E; simpl; [|now rewrite E].
    now rewrite <- app_assoc.
Qed.

(** X7. A [<style>] element contributes one style block: the concatenation
    of its text nodes, trimmed, unless that is empty.  It leaves the stack as
    it was and no buffered text behind.  Text outside a [<style>] element
    changes nothing: in any state with no [<style>] element open, text nodes
    leave the whole state as it is. *)
Theorem style_element_is_captured (a : attrs) (texts : list string)
  (s : DraftInspector) :
  (exists s',
     feed (style_element a texts) s = Some s' /\
     style_blocks s' =
       style_blocks s ++
         (if nonempty (strip (String.concat "" texts))
          then [strip (String.concat "" texts)] else []) /\
     in_style s' = false /\ style_buffer s' = [] /\ stack s' = stack s) /\
  (in_style s = false -> feed (map Data texts) s = Some s).
Proof.
  split; [|intros H; now rewrite feed_data, H].
  unfold style_element. cbn [feed handle bind].
  rewrite feed_app, feed_data. cbn [in_style handle_starttag bind].
  rewrite String.eqb_refl. cbn [feed handle bind].
  unfold handle_endtag. cbn [in_style andb String.eqb Ascii.eqb].
  simpl.
  rewrite close_tag_spec, remove_innermost_top. simpl.
  eexists. split; [reflexivity|]. simpl.
  destruct (nonempty (strip (String.concat "" texts)));
    [repeat split | now rewrite app_nil_r].
Qed.

(** After the nested cards no [<style>] element is open, and the text that
    follows changes nothing. *)
Lemma style_element_is_captured_witness :
  exists s,
    feed nested_cards init = Some s /\
    feed (map Data ["body { margin: 0 }"; "more"]) s = Some s.
Proof.
  destruct (feed_total nested_cards init) as (s & Hs).
  exists s. split; [exact Hs|].
  apply (style_element_is_captured [] ["body { margin: 0 }"; "more"] s).
  vm_compute in Hs. injection Hs as <-. reflexivity.
Defined.

(** *** The ranking of the counters *)

Lemma insert_desc_perm {A} (key : A -> nat) (x : A) (l : list A) :
  Permutation (insert_desc Nat.ltb key x l) (x :: l).
Proof.
  induction l as [|y l IH]; simpl; [reflexivity|].
  destruct (key x <? key y); [|reflexivity].
  rewrite IH. apply perm_swap.
Qed.

Lemma sorted_desc_perm {A} (key : A -> nat) (l : list A) :
  Permutation (sorted_desc Nat.ltb key l) l.
Proof.
  induction l as [|x l IH]; simpl; [reflexivity|].
  rewrite insert_desc_perm. now constructor.
Qed.

Lemma insert_desc_sorted {A} (key : A -> nat) (x : A) (l : list A) :
  StronglySorted (fun a b => key b <= key a) l ->
  StronglySorted (fun a b => key b <= key a) (insert_desc Nat.ltb key x l).
Proof.
  induction 1 as [|y l Hs IH Hy]; simpl; [repeat constructor|].
  destruct (key x <? key y) eqn:E.
  - apply Nat.ltb_lt in E. constructor; [exact IH|].
    apply Forall_forall. intros z Hz.
    apply (Permutation_in _ (insert_desc_perm key x l)) in Hz.
    destruct Hz as [<-|Hz]; [lia|].
    rewrite Forall_forall in Hy. auto.
  - apply Nat.ltb_ge in E. constructor; [now constructor|].
    constructor; [exact E|].
    eapply Forall_impl; [|exact Hy]. simpl. intros z Hz. lia.
Qed.

Lemma sorted_desc_sorted {A} (key : A -> nat) (l : list A) :
  StronglySorted (fun a b => key b <= key a) (sorted_desc Nat.ltb key l).
Proof.
  induction l as [|x l IH]; simpl; [constructor|].
  now apply insert_desc_sorted.
Qed.

Lemma sorted_app_inv {A} (R : A -> A -> Prop) (l1 l2 : list A) :
  StronglySorted R (l1 ++ l2) ->
  StronglySorted R l1 /\ Forall (fun x => Forall (R x) l2) l1.
Proof.
  induction l1 as [|x l1 IH]; simpl; intros H.
  - split; constructor.
  - apply StronglySorted_inv in H. destruct H as [H Hx].
    destruct (IH H) as [H1 H2].
    apply Forall_app in Hx. destruct Hx as [Hx1 Hx2].
    split; constructor; auto.
Qed.

(** [most_common(n)]: the [n] first entries of a descending arrangement of
    the counter; the entries left out count no more than any entry kept. *)
Lemma most_common_spec (n : nat) (c : dict nat) :
  exists rest,
    Permutation (most_common n c ++ rest) c /\
    StronglySorted (fun x y => snd y <= snd x) (most_common n c) /\
    Forall (fun x => Forall (fun y => snd y <= snd x) rest) (most_common n c) /\
    List.length (most_common n c) <= n.
Proof.
  exists (skipn n (most_common_all c)). unfold most_common.
  pose proof (sorted_desc_sorted snd c) as Hs.
  fold (most_common_all c) in Hs.
  rewrite <- (firstn_skipn n (most_common_all c)) in Hs.
  apply sorted_app_inv in Hs. destruct Hs as [Hs1 Hs2].
  split; [|split; [exact Hs1|split; [exact Hs2|apply firstn_le_length]]].
  rewrite firstn_skipn. apply sorted_desc_perm.
Qed.

(** X8. [top_tags] holds at most 15 entries of the tag counter in descending
    order of count, and no tag left out counts more than a tag reported; the
    semantic sections are all reported, in descending order;
    [repeated_classes] holds at most 30 entries of the class counter, each
    counted at least twice, in descending order. *)
Theorem report_rankings (path : string) (s : DraftInspector) :
  let o := build_output path s in
  (exists rest,
     Permutation (top_tags (out_summary o) ++ rest) (tag_counter s) /\
     Forall (fun x => Forall (fun y => snd y <= snd x) rest)
       (top_tags (out_summary o))) /\
  StronglySorted (fun x y => snd y <= snd x) (top_tags (out_summary o)) /\
  List.length (top_tags (out_summary o)) <= 15 /\
  Permutation (semantic_sections_out (out_summary o)) (semantic_sections s) /\
  StronglySorted (fun x y => snd y <= snd x)
    (semantic_sections_out (out_summary o)) /\
  Forall (fun cc => 2 <= snd cc /\ In cc (class_counter s)) (repeated_classes o) /\
  StronglySorted (fun x y => snd y <= snd x) (repeated_classes o) /\
  List.length (repeated_classes o) <= 30.
Proof.
  cbv zeta. unfold build_output.
  cbn [out_summary top_tags semantic_sections_out repeated_classes].
  destruct (most_common_spec 15 (tag_counter s)) as (rest & Hp & Hs & Hr & Hl).
  destruct (most_common_spec 30 (class_counter s))
    as (crest & Hcp & Hcs & _ & Hcl).
  split; [now exists rest|]. split; [exact Hs|]. split; [exact Hl|].
  split; [apply sorted_desc_perm|]. split; [apply sorted_desc_sorted|].
  split; [|split].
  - apply Forall_forall. intros cc Hcc. apply filter_In in Hcc.
    destruct Hcc as [Hin H2]. apply Nat.leb_le in H2. split; [exact H2|].
    apply (Permutation_in _ Hcp). apply in_or_app. now left.
  - generalize Hcs. generalize (most_common 30 (class_counter s)).
    induction 1 as [|x l Hsl IH Hx]; cbn [filter]; [constructor|].
    destruct (2 <=? snd x); [|exact IH].
    constructor; [exact IH|].
    apply Forall_forall. intros y Hy. apply filter_In in Hy.
    rewrite Forall_forall in Hx. apply Hx. tauto.
  - etransitivity; [apply filter_length_le | exact Hcl].
Qed.

(** *** [unique_limited] at its edges *)

Lemma unique_limited_loop_zero (items seen : list string) :
  unique_limited_loop 0 items seen [] = firstn 1 (dedup_from seen (clean items)).
Proof.
  induction items as [|item items IH]; simpl; [reflexivity|].
  unfold clean in *. simpl.
  destruct (nonempty (strip item)); simpl; [|exact IH].
  destruct (mem (strip item) seen); [exact IH | reflexivity].
Qed.

Lemma lstrip_idem (l : list ascii) : lstrip_chars (lstrip_chars l) = lstrip_chars l.
Proof.
  induction l as [|c l IH]; simpl; [reflexivity|].
  destruct (is_space c) eqn:E; [exact IH|]. simpl. now rewrite E.
Qed.

Lemma lstrip_fixed (c : ascii) (l : list ascii) :
  is_space c = false -> lstrip_chars (c :: l) = c :: l.
Proof. intros E. simpl. now rewrite E. Qed.

(** Stripping on the right keeps a first character that is not a space. *)
Lemma rstrip_head (c : ascii) (l : list ascii) :
  is_space c = false ->
  exists l', rev (lstrip_chars (rev (c :: l))) = c :: l'.
Proof.
  intros E. simpl rev.
  induction (rev l) as [|x r IH]; simpl.
  - rewrite E. now exists [].
  - destruct (is_space x); [exact IH|].
    simpl. rewrite rev_app_distr. simpl. eexists. reflexivity.
Qed.

Lemma chars_str (l : list ascii) : chars (str l) = l.
Proof. apply list_ascii_of_string_of_list_ascii. Qed.

Lemma strip_idem (x : string) : strip (strip x) = strip x.
Proof.
  unfold strip. rewrite chars_str. f_equal.
  set (m := lstrip_chars (chars x)).
  assert (Hm : lstrip_chars m = m) by apply lstrip_idem.
  set (r := lstrip_chars (rev m)).
  assert (Hr : lstrip_chars r = r) by apply lstrip_idem.
  assert (Hl : lstrip_chars (rev r) = rev r).
  { destruct m as [|c m'] eqn:Em; [reflexivity|].
    assert (E : is_space c = false).
    { simpl in Hm. destruct (is_space c) eqn:E; [|reflexivity].
      exfalso. clear -Hm E.
      assert (List.length (lstrip_chars m') <= List.length m').
      { clear. induction m' as [|a l IH]; simpl; [lia|].
        destruct (is_space a); simpl; lia. }
      rewrite Hm in H. simpl in H. lia. }
    destruct (rstrip_head c m' E) as (l' & Hl'). fold r in Hl'.
    rewrite Hl'. now apply lstrip_fixed. }
  now rewrite Hl, rev_involutive, Hr.
Qed.

Lemma dedup_fixed (l : list string) : NoDup l -> dedup l = l.
Proof.
  induction 1 as [|x l Hx Hl IH]; simpl; [reflexivity|].
  rewrite IH. f_equal.
  apply forallb_filter_id, forallb_forall. intros y Hy.
  apply negb_true_iff, String.eqb_neq. intros ->. contradiction.
Qed.

(** X9. With a positive limit [unique_limited] changes nothing when applied
    to its own result.  With limit 0 the result is not empty: the length is
    compared with the limit after an entry has been added, so the first
    entry kept is returned. *)
Theorem unique_limited_edges (items : list string) (limit : nat) :
  (0 < limit ->
   unique_limited (unique_limited items limit) limit = unique_limited items limit) /\
  unique_limited items 0 = firstn 1 (dedup (clean items)).
Proof.
  split.
  - intros H.
    destruct (unique_limited_token_list items limit H)
      as (_ & Hn & Hl & He & Hf).
    rewrite (unique_limited_spec (unique_limited items limit)) by exact H.
    set (r := unique_limited items limit) in *.
    assert (Hc : clean r = r).
    { unfold clean. rewrite Forall_forall in Hf.
      assert (Hm : map strip r = r).
      { rewrite <- (map_id r) at 2. apply map_ext_in. intros x Hx.
        destruct (Hf x Hx) as (item & _ & ->). apply strip_idem. }
      rewrite Hm. apply forallb_filter_id, forallb_forall. intros x Hx.
      unfold nonempty. apply negb_true_iff, String.eqb_neq.
      intros ->. contradiction. }
    rewrite Hc, dedup_fixed by exact Hn. now apply firstn_all2.
  - unfold unique_limited. rewrite unique_limited_loop_zero.
    rewrite dedup_from_filter. f_equal.
    rewrite <- (filter_true (dedup (clean items))) at 2. reflexivity.
Qed.

(** With limit 40, [a] repeated and padded gives [a] once, again and
    again. *)
Lemma unique_limited_edges_witness :
  0 < 40 /\
  unique_limited (unique_limited [" a"; "a "; ""] 40) 40 =
  unique_limited [" a"; "a "; ""] 40.
Proof.
  split; [lia|].
  apply (proj1 (unique_limited_edges [" a"; "a "; ""] 40)). lia.
Defined.


End InspectorState.


(** ** The classifiers: additivity, baselines and composition *)

Section ClassifierRuns.
Import Py DetectStack Spec.
Local Open Scope list_scope.

Lemma run_adds_tally (name : string) (calls : list add_call) (t t' : tally)
  (b : float) (e : list string) :
  run_adds calls t = Some t' ->
  get (scores t) name = Some b ->
  get (evidence t) name = Some e ->
  get (scores t') name = Some (weights_from b (calls_for name calls)) /\
  get (evidence t') name = Some (e ++ reasons (calls_for name calls)).
Proof.
  revert t b e. induction calls as [|[[n p] r] calls IH]; intros t b e; simpl.
  - intros H Hs He. injection H as <-. now rewrite app_nil_r.
  - intros H Hs He.
    apply bind_some in H. destruct H as (t1 & Ha & H).
    apply bind_some in Ha. destruct Ha as (s0 & Hs0 & Ha).
    apply bind_some in Ha. destruct Ha as (e0 & He0 & Ha).
    injection Ha as <-.
    destruct (String.eqb n name) eqn:E.
    + apply String.eqb_eq in E. subst n.
      rewrite Hs in Hs0. injection Hs0 as <-.
      rewrite He in He0. injection He0 as <-.
      destruct (IH _ (b + p)%float (e ++ [r]) H) as [H1 H2];
        simpl; try apply get_set_same.
      split; [exact H1|]. now rewrite H2, <- app_assoc.
    + apply String.eqb_neq in E.
      apply (IH _ b e H); simpl; now rewrite get_set_other.
Qed.

Lemma start_evidence (init : dict float) (name : string) (b : float) :
  get init name = Some b -> get (evidence (start init)) name = Some [].
Proof.
  unfold start. simpl. induction init as [|[k v] init IH]; simpl;
    [discriminate|].
  destruct (String.eqb k name); [reflexivity | exact IH].
Qed.

Lemma run_adds_absent (name : string) (calls : list add_call) (t t' : tally) :
  run_adds calls t = Some t' ->
  get (scores t) name = None -> get (scores t') name = None.
Proof.
  revert t. induction calls as [|[[n p] r] calls IH]; intros t; simpl.
  - now intros [= <-].
  - intros H Hn.
    apply bind_some in H. destruct H as (t1 & Ha & H).
    apply bind_some in Ha. destruct Ha as (s0 & Hs0 & Ha).
    apply bind_some in Ha. destruct Ha as (e0 & _ & Ha).
    injection Ha as <-. apply (IH _ H). simpl.
    rewrite get_set_other; [exact Hn|]. intros ->. congruence.
Qed.

Lemma key_has_value {V} (d : dict V) (name : string) :
  In name (keys d) -> get d name <> None.
Proof.
  unfold keys. induction d as [|[k v] d IH]; simpl; [contradiction|].
  destruct (String.eqb k name) eqn:E; [discriminate|].
  intros [->|H]; [now rewrite String.eqb_refl in E | auto].
Qed.

(** The tally of a detector, label by label; the winner is one of the
    labels the detector started with. *)
Lemma detector_tally (rules : list rule) (init : dict float) (t : tally) :
  run_rules rules (start init) = Some t ->
  (forall name b,
     get init name = Some b ->
     get (scores t) name = Some (weights_from b (calls_for name (fired rules))) /\
     get (evidence t) name = Some (reasons (calls_for name (fired rules)))) /\
  (forall top_name top_score second_score,
     top_two (scores t) = Some (top_name, top_score, second_score) ->
     exists b, get init top_name = Some b).
Proof.
  intros Ht. rewrite run_rules_fired in Ht. split.
  - intros name b Hb.
    apply (run_adds_tally name _ _ _ b [] Ht); [exact Hb|].
    now apply (start_evidence init name b).
  - intros tn ts ss Htop.
    destruct (get init tn) as [b|] eqn:Hb; [now exists b|].
    exfalso.
    apply top_two_in, in_map with (f := fst) in Htop.
    apply key_has_value in Htop. apply Htop.
    now apply (run_adds_absent tn _ _ _ Ht).
Qed.

(** X10. Scores are purely additive and the evidence is append-only: when a
    detector has run, the score of every label is its baseline plus the
    weights of the [add] calls made for it, added in the order of the rules,
    and its evidence is the reasons of these calls in that order.  This holds
    for [detect_framework], whose returned evidence is the winner's, and for
    [detect_style_system]. *)
Theorem scores_are_additive (root : project) (deps : dict string)
  (st : source_stats) :
  (exists w conf ev sc,
     detect_framework root deps = Some (w, conf, ev, sc) /\
     ev = reasons (calls_for w (fired (framework_rules root (keys deps)))) /\
     forall name b,
       get framework_scores0 name = Some b ->
       get sc name =
       Some (weights_from b
               (calls_for name (fired (framework_rules root (keys deps)))))) /\
  (exists t w ev conf,
     style_tally root deps st = Some t /\
     detect_style_system root deps st = Some (w, ev, conf) /\
     ev = reasons (calls_for w (fired (style_rules root (keys deps) st))) /\
     forall name b,
       get style_scores0 name = Some b ->
       get (scores t) name =
       Some (weights_from b
               (calls_for name (fired (style_rules root (keys deps) st))))).
Proof.
  split.
  - destruct (framework_facts_parts root deps)
      as (w & conf & ev & sc & Hrun & _).
    exists w, conf, ev, sc. split; [exact Hrun|].
    unfold detect_framework in Hrun.
    apply bind_some in Hrun. destruct Hrun as (t & Ht & Hrun).
    apply bind_some in Hrun. destruct Hrun as ([[tn ts] ss] & Htop & Hrun).
    apply bind_some in Hrun. destruct Hrun as (ev' & Hev & Hrun).
    injection Hrun as <- _ <- <-.
    destruct (detector_tally _ _ _ Ht) as [Hall Hwin].
    split; [|intros name b Hb; now apply Hall].
    destruct (Hwin _ _ _ Htop) as (b & Hb).
    destruct (Hall tn b Hb) as [_ He]. rewrite He in Hev. now injection Hev.
  - destruct (style_facts_parts root deps st)
      as (t & w & ev & conf & Ht & Hrun & _).
    exists t, w, ev, conf. split; [exact Ht|]. split; [exact Hrun|].
    unfold detect_style_system in Hrun. rewrite Ht in Hrun. simpl in Hrun.
    apply bind_some in Hrun. destruct Hrun as ([[tn ts] ss] & Htop & Hrun).
    apply bind_some in Hrun. destruct Hrun as (ev' & Hev & Hrun).
    injection Hrun as <- <- _.
    destruct (detector_tally _ _ _ Ht) as [Hall Hwin].
    split; [|intros name b Hb; now apply Hall].
    destruct (Hwin _ _ _ Htop) as (b & Hb).
    destruct (Hall tn b Hb) as [_ He]. rewrite He in Hev. now injection Hev.
Qed.

(** On the empty project the score of [vanilla] is its baseline, no call
    having been made for it. *)
Lemma scores_are_additive_witness :
  exists w conf ev sc,
    detect_framework empty_project [] = Some (w, conf, ev, sc) /\
    get sc "vanilla" = Some 0.2%float.
Proof.
  destruct (scores_are_additive empty_project [] no_stats)
    as ((w & conf & ev & sc & Hrun & _ & Hsc) & _).
  exists w, conf, ev, sc. split; [exact Hrun|].
  exact (Hsc "vanilla" 0.2%float eq_refl).
Defined.

(** A second exhaustive analysis of [detect_framework]. *)
Lemma framework_more_facts_hold (root : project) (deps : dict string) :
  framework_more_facts (all_light (framework_rules root (keys deps)))
    (detect_framework root deps) = true.
Proof.
  unfold detect_framework, framework_rules.
  generalize (keys deps). intros dep_names.
  abstract_conditions. clear root deps dep_names.
  check_all_cases all_bool_ok.
Qed.

Lemma style_more_facts_hold (root : project) (deps : dict string)
  (st : source_stats) :
  style_more_facts (none_fired (style_rules root (keys deps) st))
    (style_tally root deps st) (detect_style_system root deps st) = true.
Proof.
  unfold detect_style_system, style_tally, style_rules.
  generalize (keys deps). intros dep_names.
  cbv zeta.
  abstract_conditions.
  generalize (st module_css + st module_scss + st module_less)%nat.
  intros module_total.
  check_all_cases all_bool_ok.
Qed.

Lemma eqb_bool_true (a b : bool) : Bool.eqb a b = true -> a = b.
Proof. now destruct a, b. Qed.

Lemma is_nil_spec {A} (l : list A) : is_nil l = true <-> l = [].
Proof. destruct l; simpl; split; congruence. Qed.


(** X12. The baseline label wins only for want of anything else.
    [detect_framework] returns [vanilla] exactly when every [add] call made
    weighs less than 0.2, that is when no rule fired but perhaps the one on a
    pages directory; [detect_style_system] returns [css] exactly when no rule
    fired, and then with confidence 0.52.  On each axis the evidence returned
    is empty exactly when the baseline label wins. *)
Theorem baseline_wins_by_default (root : project) (deps : dict string)
  (st : source_stats) :
  (exists w conf ev sc,
     detect_framework root deps = Some (w, conf, ev, sc) /\
     (w = "vanilla" <->
      all_light (framework_rules root (keys deps)) = true) /\
     (w = "vanilla" <-> ev = [])) /\
  (exists w ev conf,
     detect_style_system root deps st = Some (w, ev, conf) /\
     (w = "css" <-> none_fired (style_rules root (keys deps) st) = true) /\
     (w = "css" <-> ev = []) /\
     (w = "css" -> PrimFloat.eqb conf 0.52 = true)).
Proof.
  split.
  - pose proof (framework_more_facts_hold root deps) as H.
    unfold framework_more_facts in H.
    destruct (detect_framework root deps) as [[[[w conf] ev] sc]|];
      [|discriminate].
    apply andb_prop in H. destruct H as [H Hscores].
    apply andb_prop in H. destruct H as [H Hhi].
    apply andb_prop in H. destruct H as [H Hlo].
    apply andb_prop in H. destruct H as [Hlight Hnil].
    apply eqb_bool_true in Hlight, Hnil.
    exists w, conf, ev, sc. split; [reflexivity|].
    rewrite <- Hlight, <- is_nil_spec, <- Hnil, String.eqb_eq. tauto.
  - pose proof (style_more_facts_hold root deps st) as H.
    unfold style_more_facts in H.
    destruct (style_tally root deps st) as [t|]; [|discriminate].
    destruct (detect_style_system root deps st) as [[[w ev] conf]|];
      [|discriminate].
    apply andb_prop in H. destruct H as [H Hscores].
    apply andb_prop in H. destruct H as [H Hbase].
    apply andb_prop in H. destruct H as [H Hhi].
    apply andb_prop in H. destruct H as [H Hlo].
    apply andb_prop in H. destruct H as [H Hnil].
    apply andb_prop in H. destruct H as [Hspec Hnone].
    apply eqb_bool_true in Hnone, Hnil.
    exists w, ev, conf. split; [reflexivity|].
    rewrite <- Hnone, <- is_nil_spec, <- Hnil, String.eqb_eq.
    repeat split; try tauto.
    intros ->. exact Hbase.
Qed.

(** On the empty project no rule fires: [css] wins with confidence 0.52. *)
Lemma baseline_wins_by_default_witness :
  exists w ev conf,
    detect_style_system empty_project [] no_stats = Some (w, ev, conf) /\
    w = "css" /\ PrimFloat.eqb conf 0.52 = true.
Proof.
  destruct (baseline_wins_by_default empty_project [] no_stats)
    as (_ & w & ev & conf & Hrun & Hw & _ & Hc).
  assert (E : w = "css") by (apply Hw; reflexivity).
  exists w, ev, conf. split; [exact Hrun|]. split; [exact E | now apply Hc].
Defined.

(** X13. The confidences are tighter than their clamps: the framework
    confidence lies in [[0.35, 0.98]] and the style confidence in
    [[0.52, 0.97]], so the floor at 0.1 never applies; no framework score
    exceeds 2.0 and no style score 1.5. *)
Theorem confidence_and_score_bounds (root : project) (deps : dict string)
  (st : source_stats) :
  (exists w conf ev sc,
     detect_framework root deps = Some (w, conf, ev, sc) /\
     PrimFloat.leb 0.35 conf = true /\ PrimFloat.leb conf 0.98 = true /\
     forallb (fun kv => PrimFloat.leb (snd kv) 2.0) sc = true) /\
  (exists t w ev conf,
     style_tally root deps st = Some t /\
     detect_style_system root deps st = Some (w, ev, conf) /\
     PrimFloat.leb 0.52 conf = true /\ PrimFloat.leb conf 0.97 = true /\
     forallb (fun kv => PrimFloat.leb (snd kv) 1.5) (scores t) = true).
Proof.
  split.
  - pose proof (framework_more_facts_hold root deps) as H.
    unfold framework_more_facts in H.
    destruct (detect_framework root deps) as [[[[w conf] ev] sc]|];
      [|discriminate].
    apply andb_prop in H. destruct H as [H Hscores].
    apply andb_prop in H. destruct H as [H Hhi].
    apply andb_prop in H. destruct H as [H Hlo].
    apply andb_prop in H. destruct H as [Hlight Hnil].
    now exists w, conf, ev, sc.
  - pose proof (style_more_facts_hold root deps st) as H.
    unfold style_more_facts in H.
    destruct (style_tally root deps st) as [t|]; [|discriminate].
    destruct (detect_style_system root deps st) as [[[w ev] conf]|];
      [|discriminate].
    apply andb_prop in H. destruct H as [H Hscores].
    apply andb_prop in H. destruct H as [H Hbase].
    apply andb_prop in H. destruct H as [H Hhi].
    apply andb_prop in H. destruct H as [H Hlo].
    apply andb_prop in H. destruct H as [H Hnil].
    apply andb_prop in H. destruct H as [Hspec Hnone].
    now exists t, w, ev, conf.
Qed.


Lemma get_app {V} (d1 d2 : dict V) (k : string) :
  get (d1 ++ d2) k =
  match get d1 k with
  | Some v => Some v
  | None => get d2 k
  end.
Proof.
  induction d1 as [|[k' v'] d1 IH]; simpl; [reflexivity|].
  destruct (String.eqb k' k); [reflexivity | exact IH].
Qed.

Lemma get_set {V} (d : dict V) (k k' : string) (v : V) :
  get (set d k' v) k = if String.eqb k' k then Some v else get d k.
Proof.
  destruct (String.eqb k' k) eqn:E.
  - apply String.eqb_eq in E. subst k'. apply get_set_same.
  - apply String.eqb_neq in E. now apply get_set_other.
Qed.

(** [deps.update(block)]: the last binding of a name in [block] wins, and
    the names [block] does not bind keep their value. *)
Lemma get_update (d b : dict string) (k : string) :
  get (update d b) k =
  match get (rev b) k with
  | Some v => Some v
  | None => get d k
  end.
Proof.
  unfold update. revert d. induction b as [|[k' v'] b IH]; intros d; simpl;
    [reflexivity|].
  rewrite IH, get_app, get_set. simpl.
  destruct (get (rev b) k); [reflexivity|].
  now destruct (String.eqb k' k).
Qed.

(** X14. The dependencies [main] collects from [package.json]: a name
    declared in several blocks takes its version from the last of
    [dependencies], [devDependencies], [peerDependencies] that declares it,
    and a name no block declares is not a dependency.  Without a readable
    [package.json] object there are no dependencies. *)
Theorem later_blocks_take_precedence (data : package_data) (name : string) :
  get (collect_deps (Some data)) name = merged_value data name /\
  collect_deps None = [].
Proof.
  split; [|reflexivity].
  unfold collect_deps, merged_value, block_value. simpl.
  destruct (peerDependencies data) as [p|],
           (devDependencies data) as [d|],
           (dependencies data) as [b|];
    rewrite ?get_update; simpl;
    repeat match goal with
           | |- context [get (rev ?x) name] => destruct (get (rev x) name)
           end; reflexivity.
Qed.



(** X16. Without overrides the report is the detectors' verdict: the winners
    are those of [detect_framework] and [detect_style_system], no override is
    recorded, the confidence is the rounded mean of the two detected
    confidences, and the evidence of an axis is the winner's, except that the
    baseline winner, which has none, is reported with the single fallback
    entry. *)
Theorem report_without_overrides (a : args) (root : project)
  (pkg : option package_data) :
  root_is_dir root = true ->
  arg_framework a = "auto" -> arg_style a = "auto" ->
  exists r w conf ev sc sw sev sconf,
    main a root pkg = Some (Success r 0) /\
    detect_framework root (collect_deps pkg) = Some (w, conf, ev, sc) /\
    detect_style_system root (collect_deps pkg)
      (gather_source_stats root max_files_default) = Some (sw, sev, sconf) /\
    framework r = w /\ style_system r = sw /\ overrides r = [] /\
    confidence r = report_confidence conf sconf /\
    evidence_framework r =
      (if String.eqb w "vanilla" then ["fallback: framework=vanilla"]%string
       else ev) /\
    evidence_style_system r =
      (if String.eqb sw "css" then ["fallback: style_system=css"]%string
       else sev).
Proof.
  intros Hdir Hf Hs. unfold main. rewrite Hdir. simpl.
  set (deps0 := collect_deps pkg).
  set (st0 := gather_source_stats root max_files_default).
  pose proof (framework_more_facts_hold root deps0) as Hfw.
  pose proof (style_more_facts_hold root deps0 st0) as Hsty.
  unfold framework_more_facts in Hfw. unfold style_more_facts in Hsty.
  destruct (detect_framework root deps0) as [[[[w conf] ev] sc]|];
    [|discriminate].
  destruct (style_tally root deps0 st0) as [t|]; [|discriminate].
  destruct (detect_style_system root deps0 st0) as [[[sw sev] sconf]|];
    [|discriminate].
  simpl.
  destruct (detect_language root st0) as [language language_evidence].
  destruct (detect_package_manager root) as [package_manager pm_evidence].
  apply andb_prop in Hfw. destruct Hfw as [Hfw _].
  apply andb_prop in Hfw. destruct Hfw as [Hfw _].
  apply andb_prop in Hfw. destruct Hfw as [Hfw _].
  apply andb_prop in Hfw. destruct Hfw as [_ Hnil].
  apply andb_prop in Hsty. destruct Hsty as [Hsty _].
  apply andb_prop in Hsty. destruct Hsty as [Hsty _].
  apply andb_prop in Hsty. destruct Hsty as [Hsty _].
  apply andb_prop in Hsty. destruct Hsty as [Hsty _].
  apply andb_prop in Hsty. destruct Hsty as [_ Hsnil].
  apply eqb_bool_true in Hnil, Hsnil.
  eexists. exists w, conf, ev, sc, sw, sev, sconf.
  split; [reflexivity|]. split; [reflexivity|]. split; [reflexivity|].
  cbn [framework style_system overrides confidence evidence_framework
       evidence_style_system].
  unfold resolve_axes. rewrite (eq_auto _ Hf), (eq_auto _ Hs).
  cbn [ax_framework ax_style_system ax_overrides ax_fw_confidence
       ax_style_confidence ax_fw_evidence ax_style_evidence].
  repeat split.
  - rewrite Hnil. destruct ev; [|reflexivity].
    simpl in Hnil. apply String.eqb_eq in Hnil. now subst w.
  - rewrite Hsnil. destruct sev; [|reflexivity].
    simpl in Hsnil. apply String.eqb_eq in Hsnil. now subst sw.
Qed.

(** On the empty project both baselines win, with their fallback entries. *)
Lemma report_without_overrides_witness :
  exists r,
    main no_override empty_project None = Some (Success r 0) /\
    overrides r = [] /\
    evidence_framework r = ["fallback: framework=vanilla"]%string /\
    evidence_style_system r = ["fallback: style_system=css"]%string.
Proof.
  destruct (report_without_overrides no_override empty_project None
              eq_refl eq_refl eq_refl)
    as (r & w & conf & ev & sc & sw & sev & sconf & Hmain & Hfw & Hsty
        & _ & _ & Ho & _ & Hef & Hes).
  exists r. split; [exact Hmain|]. split; [exact Ho|].
  vm_compute in Hfw. injection Hfw as <- _ _ _.
  vm_compute in Hsty. injection Hsty as <- _ _.
  split; [exact Hef | exact Hes].
Defined.

End ClassifierRuns.

(** ** The source statistics: pruning, monotonicity, module files *)

Section SourceStatsMore.
Import Py DetectStack Spec.
Local Open Scope list_scope.
Local Open Scope nat_scope.

Lemma walk_same_outside_excluded :
  forall d d', same_outside_excluded d d' -> walk d = walk d'.
Proof.
  fix IH 3. intros d d' H. destruct H as [files subdirs subdirs' HF].
  cbn [walk]. f_equal.
  revert subdirs subdirs' HF.
  fix IHF 3. intros subdirs subdirs' HF.
  destruct HF as [|[n s] [n' s'] l l' [Hn Hs] HF].
  - reflexivity.
  - simpl in Hn. subst n'. cbn [fst snd] in Hs.
    destruct (mem n EXCLUDED_DIRS) eqn:E.
    + apply IHF, HF.
    + destruct Hs as [Hs|Hs]; [discriminate|].
      rewrite (IH _ _ Hs). f_equal. apply IHF, HF.
Qed.

(** X17. [gather_source_stats] never looks inside an excluded directory, at
    any depth: two project trees that differ at most inside directories
    named in [EXCLUDED_DIRS] give the same statistics, whatever the bound. *)
Theorem excluded_directories_are_not_scanned (root : project) (t : dir)
  (max_files : nat) :
  same_outside_excluded (tree root) t ->
  gather_source_stats (with_tree root t) max_files =
  gather_source_stats root max_files.
Proof.
  intros H. unfold gather_source_stats. cbn [tree with_tree].
  now rewrite (walk_same_outside_excluded _ _ H).
Qed.

(** The files installed under [node_modules] change nothing. *)
Lemma excluded_directories_are_not_scanned_witness :
  same_outside_excluded installed_tree bare_tree /\
  gather_source_stats (with_tree empty_project bare_tree) 4000 =
  gather_source_stats (with_tree empty_project installed_tree) 4000.
Proof.
  assert (H : same_outside_excluded installed_tree bare_tree).
  { constructor. constructor.
    - split; [reflexivity|]. left. reflexivity.
    - constructor; [|constructor]. split; [reflexivity|]. right.
      constructor. constructor. }
  split; [exact H|].
  exact (excluded_directories_are_not_scanned
           (with_tree empty_project installed_tree) bare_tree 4000 H).
Defined.

(** [gather_source_stats] counts the first [max_files] files of the walk. *)
Lemma gather_source_stats_spec (root : project) (max_files : nat) :
  gather_source_stats root max_files =
  count_files (firstn max_files (walk_files root)) no_stats.
Proof.
  unfold gather_source_stats, walk_files.
  pose proof (scan_walk_spec max_files (walk (tree root)) no_stats 0
                (Nat.le_0_l _)) as H.
  destruct (scan_walk max_files (walk (tree root)) (no_stats, 0))
    as [[c' n']|c'].
  - destruct H as (H1 & _ & ->). now rewrite firstn_all2 by lia.
  - destruct H as (_ & ->). now rewrite Nat.sub_0_r.
Qed.

Lemma count_file_grows (f : string) (c : source_stats) (k : stat) :
  c k <= count_file f c k.
Proof.
  unfold count_file.
  generalize (lower (suffix f)) (lower f). intros sfx lower_name.
  cbv zeta.
  repeat match goal with
         | |- context [String.eqb sfx ?x] => destruct (String.eqb sfx x)
         end;
    repeat match goal with
           | |- context [endswith lower_name ?x] =>
               destruct (endswith lower_name x)
           end;
    unfold bump; destruct k; simpl; lia.
Qed.

Lemma count_files_grow (files : list string) (c : source_stats) (k : stat) :
  c k <= count_files files c k.
Proof.
  revert c. induction files as [|f files IH]; intros c; [apply Nat.le_refl|].
  unfold count_files in *. simpl.
  pose proof (count_file_grows f c k). specialize (IH (count_file f c)). lia.
Qed.

Lemma firstn_le_split {A} (l : list A) (m m' : nat) :
  m <= m' -> exists rest, firstn m' l = firstn m l ++ rest.
Proof.
  revert m m'. induction l as [|x l IH]; intros m m' H.
  - exists []. now rewrite !firstn_nil.
  - destruct m as [|m].
    + now exists (firstn m' (x :: l)).
    + destruct m' as [|m']; [lia|].
      destruct (IH m m') as (rest & E); [lia|].
      exists rest. simpl. now rewrite E.
Qed.

(** X18. Raising the bound never lowers a count: with [max_files <=
    max_files'], every statistic gathered under [max_files] is at most the
    one gathered under [max_files']; and once the bound reaches the number
    of files of the walk, the statistics no longer depend on it. *)
Theorem source_stats_grow_with_bound (root : project) (max_files max_files' : nat) :
  max_files <= max_files' ->
  (forall k,
     gather_source_stats root max_files k <=
     gather_source_stats root max_files' k) /\
  (List.length (walk_files root) <= max_files ->
   gather_source_stats root max_files' = gather_source_stats root max_files).
Proof.
  intros H. rewrite !gather_source_stats_spec. split.
  - intros k.
    destruct (firstn_le_split (walk_files root) _ _ H) as (rest & ->).
    rewrite count_files_app. apply count_files_grow.
  - intros Hl. now rewrite !firstn_all2 by lia.
Qed.

Lemma source_stats_grow_with_bound_witness :
  gather_source_stats (with_tree empty_project installed_tree) 1 tsx <=
  gather_source_stats (with_tree empty_project installed_tree) 2 tsx.
Proof.
  apply (source_stats_grow_with_bound
           (with_tree empty_project installed_tree) 1 2).
  lia.
Defined.

(** Strings as lists of characters. *)
Lemma chars_of_str (l : list ascii) : chars (str l) = l.
Proof. apply list_ascii_of_string_of_list_ascii. Qed.

Lemma str_of_chars (s : string) : str (chars s) = s.
Proof. apply string_of_list_ascii_of_string. Qed.

Lemma length_chars (s : string) : String.length s = List.length (chars s).
Proof. induction s as [|c s IH]; simpl; [reflexivity | now rewrite IH]. Qed.

Lemma prefix_app (a b : list ascii) :
  String.prefix (str a) (str b) = true -> exists r, b = a ++ r.
Proof.
  revert b. induction a as [|c a IH]; intros b; simpl.
  - intros _. now exists b.
  - destruct b as [|c' b]; simpl; [discriminate|].
    destruct (ascii_dec c c') as [->|]; [|discriminate].
    intros H. destruct (IH b H) as (r & ->). now exists r.
Qed.

Lemma endswith_app (s p : string) :
  endswith s p = true -> exists q, chars s = q ++ chars p.
Proof.
  unfold endswith. intros H. apply prefix_app in H. destruct H as (r & H).
  exists (rev r).
  rewrite <- (rev_involutive (chars s)), H, rev_app_distr.
  now rewrite rev_involutive.
Qed.

Lemma lower_char_dot (c : ascii) : lower_char c = "."%char -> c = "."%char.
Proof.
  destruct c as [[] [] [] [] [] [] [] []]; vm_compute; intros H;
    first [reflexivity | discriminate H].
Qed.

Lemma rfind_dot_app (a b : list ascii) (i : nat) (found : option nat) :
  rfind_dot (a ++ b) i found =
  rfind_dot b (i + List.length a) (rfind_dot a i found).
Proof.
  revert i found. induction a as [|c a IH]; intros i found; simpl.
  - now rewrite Nat.add_0_r.
  - rewrite IH. f_equal. lia.
Qed.

Lemma rfind_dot_none (l : list ascii) (i : nat) (found : option nat) :
  ~ In "."%char l -> rfind_dot l i found = found.
Proof.
  revert i found. induction l as [|c l IH]; intros i found H; simpl;
    [reflexivity|].
  rewrite IH by (intros H'; apply H; now right).
  destruct (Ascii.eqb c ".") eqn:E; [|reflexivity].
  apply Ascii.eqb_eq in E. exfalso. apply H. now left.
Qed.

Lemma substring_all (l : list ascii) :
  String.substring 0 (List.length l) (str l) = str l.
Proof. induction l as [|c l IH]; simpl; [reflexivity | now rewrite IH]. Qed.

Lemma substring_from (a b : list ascii) :
  String.substring (List.length a) (List.length b) (str (a ++ b)) = str b.
Proof.
  induction a as [|c a IH]; simpl; [apply substring_all | exact IH].
Qed.

(** The suffix of a name of the form [a ++ "." ++ b], with [a] and [b]
    not empty and no dot in [b]. *)
Lemma suffix_last_dot (a b : list ascii) :
  a <> [] -> b <> [] -> ~ In "."%char b ->
  suffix (str (a ++ "."%char :: b)) = str ("."%char :: b).
Proof.
  intros Ha Hb Hdot. unfold suffix.
  rewrite chars_of_str, rfind_dot_app. simpl.
  rewrite rfind_dot_none by exact Hdot.
  rewrite length_chars, chars_of_str, length_app. simpl.
  assert (0 < List.length a) by (destruct a; [congruence | simpl; lia]).
  assert (0 < List.length b) by (destruct b; [congruence | simpl; lia]).
  replace (0 <? List.length a) with true by (symmetry; apply Nat.ltb_lt; lia).
  replace (List.length a <? List.length a + S (List.length b) - 1) with true
    by (symmetry; apply Nat.ltb_lt; lia).
  simpl.
  replace (List.length a + S (List.length b) - List.length a)
    with (List.length ("."%char :: b)) by (simpl; lia).
  apply substring_from.
Qed.

(** A name that ends, in lower case, with [".module." ++ ext] has the
    suffix ["." ++ ext] in lower case, when [ext] is not empty and holds no
    dot. *)
Lemma module_file_suffix (f ext : string) :
  ext <> "" -> ~ In "."%char (chars ext) ->
  endswith (lower f) (module_suffix ext) = true ->
  lower (suffix f) = ("." ++ ext)%string.
Proof.
  intros Hne Hdot H. apply endswith_app in H. destruct H as (q & H).
  unfold lower in H at 1. rewrite chars_of_str in H.
  change (chars (module_suffix ext))
    with (chars ".module" ++ "."%char :: chars ext) in H.
  apply map_eq_app in H. destruct H as (q0 & m & Hf & Hq & Hm).
  apply map_eq_app in Hm. destruct Hm as (pre & m' & -> & Hpre & Hm').
  destruct m' as [|d tl]; [discriminate|]. simpl in Hm'.
  injection Hm' as Hd Htl. apply lower_char_dot in Hd. subst d.
  assert (Hf' : f = str ((q0 ++ pre) ++ "."%char :: tl)).
  { now rewrite <- app_assoc, <- Hf, str_of_chars. }
  rewrite Hf', suffix_last_dot.
  - unfold lower. rewrite chars_of_str. simpl. rewrite Htl.
    change (lower_char ".") with "."%char. simpl. now rewrite str_of_chars.
  - intros E. apply app_eq_nil in E. destruct E as [_ ->]. discriminate.
  - intros ->. simpl in Htl. destruct ext; [congruence | discriminate].
  - intros Hin. apply Hdot. rewrite <- Htl.
    change "."%char with (lower_char "."). now apply in_map.
Qed.

Lemma count_file_modules (f : string) (c : source_stats) :
  c module_css <= c css -> c module_scss <= c scss ->
  c module_less <= c less ->
  count_file f c module_css <= count_file f c css /\
  count_file f c module_scss <= count_file f c scss /\
  count_file f c module_less <= count_file f c less.
Proof.
  intros H1 H2 H3.
  assert (Hcss := module_file_suffix f "css").
  assert (Hscss := module_file_suffix f "scss").
  assert (Hless := module_file_suffix f "less").
  unfold count_file, module_suffix in *.
  revert Hcss Hscss Hless.
  generalize (lower (suffix f)) (lower f). intros sfx lower_name.
  cbv zeta. simpl String.append.
  destruct (endswith lower_name ".module.css") eqn:Ecss.
  { intros Hcss _ _. rewrite Hcss; [|discriminate| |reflexivity].
    - unfold bump. simpl. lia.
    - simpl. intros [E|[E|[E|[]]]]; discriminate E. }
  destruct (endswith lower_name ".module.scss") eqn:Escss.
  { intros _ Hscss _. rewrite Hscss; [|discriminate| |reflexivity].
    - unfold bump. simpl. lia.
    - simpl. intros [E|[E|[E|[E|[]]]]]; discriminate E. }
  destruct (endswith lower_name ".module.less") eqn:Eless.
  { intros _ _ Hless. rewrite Hless; [|discriminate| |reflexivity].
    - unfold bump. simpl. lia.
    - simpl. intros [E|[E|[E|[E|[]]]]]; discriminate E. }
  intros _ _ _.
  repeat match goal with
         | |- context [String.eqb sfx ?x] => destruct (String.eqb sfx x)
         end;
    unfold bump; simpl; lia.
Qed.

Lemma count_files_modules (files : list string) (c : source_stats) :
  c module_css <= c css -> c module_scss <= c scss ->
  c module_less <= c less ->
  count_files files c module_css <= count_files files c css /\
  count_files files c module_scss <= count_files files c scss /\
  count_files files c module_less <= count_files files c less.
Proof.
  revert c. induction files as [|f files IH]; intros c H1 H2 H3;
    [now repeat split|].
  destruct (count_file_modules f c H1 H2 H3) as (H4 & H5 & H6).
  exact (IH (count_file f c) H4 H5 H6).
Qed.

(** X19. Module style files are counted twice, by their suffix and as
    modules: in the statistics [gather_source_stats] returns, [module_css]
    is at most [css], [module_scss] at most [scss] and [module_less] at most
    [less]. *)
Theorem module_files_are_style_files (root : project) (max_files : nat) :
  let st := gather_source_stats root max_files in
  st module_css <= st css /\ st module_scss <= st scss /\
  st module_less <= st less.
Proof.
  cbv zeta. rewrite gather_source_stats_spec.
  apply count_files_modules; apply Nat.le_refl.
Qed.

End SourceStatsMore.

(** ** The target path: names *)

Section TargetNames.
Import Py SuggestTargetPath Spec.
Local Open Scope list_scope.

(** Facts on single characters, by cases on the 256 of them. *)
Lemma char_classes (c : ascii) :
  (is_alnum c = true ->
   (is_lower (lower_char c) || is_digit (lower_char c) = true) /\
   Ascii.eqb c "-" = false /\ Ascii.eqb (lower_char c) "-" = false /\
   (is_upper (upper_char c) || is_digit (upper_char c) = true)) /\
  (is_lower c || is_digit c = true ->
   lower_char c = c /\ is_upper c = false /\ is_alnum c = true) /\
  (is_upper c || is_digit c = true -> upper_char c = c /\ is_alnum c = true) /\
  lower_char (upper_char c) = lower_char c /\
  is_alnum (upper_char c) = is_alnum c.
Proof.
  destruct c as [[] [] [] [] [] [] [] []]; vm_compute;
    repeat split; intros; try reflexivity; try discriminate.
Qed.

Lemma alnum_lower (c : ascii) :
  is_alnum c = true -> is_lower (lower_char c) || is_digit (lower_char c) = true.
Proof. apply char_classes. Qed.

Lemma alnum_not_dash (c : ascii) : is_alnum c = true -> Ascii.eqb c "-" = false.
Proof. apply char_classes. Qed.

Lemma word_char (c : ascii) :
  is_lower c || is_digit c = true ->
  lower_char c = c /\ is_upper c = false /\ is_alnum c = true.
Proof. apply char_classes. Qed.

Lemma replace_runs_dashed (b : bool) (l : list ascii) :
  dashed b (replace_runs b l) = true.
Proof.
  revert b. induction l as [|c l IH]; intros b; simpl; [reflexivity|].
  destruct (is_alnum c) eqn:E; simpl.
  - rewrite E. apply IH.
  - destruct b; [apply IH|]. simpl. apply IH.
Qed.

Lemma lstrip_dashes_dashed (b : bool) (l : list ascii) :
  dashed b l = true -> dashed true (lstrip_dashes l) = true.
Proof.
  revert b. induction l as [|c l IH]; intros b; simpl; [reflexivity|].
  destruct (is_alnum c) eqn:E.
  - rewrite (alnum_not_dash c E). simpl. now rewrite E.
  - intros H. apply andb_prop in H. destruct H as [H H2].
    apply andb_prop in H. destruct H as [H1 _]. rewrite H1.
    now apply (IH true).
Qed.

Lemma lstrip_dashes_split (l : list ascii) :
  exists p, l = p ++ lstrip_dashes l /\ filter is_alnum p = [].
Proof.
  induction l as [|c l IH]; simpl.
  - now exists [].
  - destruct (Ascii.eqb c "-") eqn:E.
    + destruct IH as (p & H1 & H2).
      exists (c :: p). split; [simpl; now rewrite <- H1|].
      apply Ascii.eqb_eq in E. subst c. simpl. exact H2.
    + now exists [].
Qed.

Lemma lstrip_dashes_head (l : list ascii) :
  match lstrip_dashes l with
  | [] => True
  | c :: _ => Ascii.eqb c "-" = false
  end.
Proof.
  induction l as [|c l IH]; simpl; [exact I|].
  destruct (Ascii.eqb c "-") eqn:E; [exact IH | exact E].
Qed.

(** [strip_dashes l] is [l] without a run of dashes at each end, and its
    last character is not a dash. *)
Lemma strip_dashes_split (l : list ascii) :
  exists p q,
    l = p ++ strip_dashes l ++ q /\
    filter is_alnum p = [] /\ filter is_alnum q = [] /\
    match rev (strip_dashes l) with
    | [] => True
    | c :: _ => Ascii.eqb c "-" = false
    end.
Proof.
  unfold strip_dashes.
  destruct (lstrip_dashes_split l) as (p & H1 & H2).
  destruct (lstrip_dashes_split (rev (lstrip_dashes l))) as (q & H3 & H4).
  exists p, (rev q). split; [|split; [exact H2|split]].
  - rewrite <- rev_app_distr, <- H3, rev_involutive. exact H1.
  - clear H3. induction q as [|c q IH]; [reflexivity|].
    simpl in *. rewrite filter_app. simpl.
    destruct (is_alnum c); [discriminate|]. now rewrite IH.
  - rewrite rev_involutive. apply lstrip_dashes_head.
Qed.

Lemma dashed_prefix (b : bool) (l q : list ascii) :
  dashed b (l ++ q) = true -> dashed b l = true.
Proof.
  revert b. induction l as [|c l IH]; intros b; simpl; [reflexivity|].
  destruct (is_alnum c); [apply IH|].
  intros H. apply andb_prop in H. destruct H as [H H2]. rewrite H. simpl.
  now apply IH.
Qed.

Lemma dashed_worded (b : bool) (l : list ascii) (c : ascii) :
  dashed b (l ++ [c]) = true -> Ascii.eqb c "-" = false ->
  worded b (l ++ [c]) = true.
Proof.
  revert b. induction l as [|d l IH]; intros b; simpl.
  - destruct (is_alnum c); [reflexivity|]. intros H E. now rewrite E in H.
  - destruct (is_alnum d); [apply IH|].
    intros H E. apply andb_prop in H. destruct H as [H H2]. rewrite H. simpl.
    now apply IH.
Qed.

(** The text after the strip: empty, or words joined by single dashes. *)
Lemma strip_dashes_worded (l : list ascii) :
  let stripped := strip_dashes (replace_runs false l) in
  stripped = [] \/ worded true stripped = true.
Proof.
  cbv zeta. set (B := replace_runs false l).
  destruct (strip_dashes_split B) as (p & q & H1 & _ & _ & H4).
  assert (Hd : dashed true (strip_dashes B) = true).
  { pose proof (replace_runs_dashed false l) as H. fold B in H.
    apply lstrip_dashes_dashed in H.
    unfold strip_dashes.
    destruct (lstrip_dashes_split (rev (lstrip_dashes B))) as (q' & H3 & _).
    apply (f_equal (@rev ascii)) in H3.
    rewrite rev_involutive, rev_app_distr in H3.
    rewrite H3 in H. now apply dashed_prefix in H. }
  destruct (rev (strip_dashes B)) as [|c r] eqn:E.
  - left. apply (f_equal (@rev ascii)) in E. now rewrite rev_involutive in E.
  - right. apply (f_equal (@rev ascii)) in E. rewrite rev_involutive in E.
    simpl in E. rewrite E in *. now apply dashed_worded.
Qed.

Lemma worded_kebab (b : bool) (l : list ascii) :
  worded b l = true -> kebab_from b (map lower_char l) = true.
Proof.
  revert b. induction l as [|c l IH]; intros b; simpl; [trivial|].
  destruct (is_alnum c) eqn:E.
  - rewrite (alnum_lower c E). apply IH.
  - intros H. apply andb_prop in H. destruct H as [H H2].
    apply andb_prop in H. destruct H as [H1 H3].
    apply Ascii.eqb_eq in H1. subst c.
    change (lower_char "-") with "-"%char. simpl. rewrite H3. now apply IH.
Qed.

Lemma chars_lower (l : list ascii) : chars (lower (str l)) = map lower_char l.
Proof.
  unfold lower, chars, str.
  now rewrite !list_ascii_of_string_of_list_ascii.
Qed.

Lemma nonempty_chars (s : string) : nonempty s = false -> s = "".
Proof.
  unfold nonempty. destruct (String.eqb s "") eqn:E; [|discriminate].
  now apply String.eqb_eq in E.
Qed.

Lemma to_kebab_case_shape (value : string) :
  kebab_shape (to_kebab_case value) = true.
Proof.
  unfold to_kebab_case. cbv zeta.
  set (A := split_words (chars value)).
  destruct (nonempty (lower (str (strip_dashes (replace_runs false A)))))
    eqn:E; [|reflexivity].
  unfold kebab_shape. rewrite chars_lower.
  destruct (strip_dashes_worded A) as [H|H].
  - rewrite H in E. discriminate.
  - now apply worded_kebab.
Qed.

(** A text in kebab shape goes through every step unchanged. *)
Lemma split_words_fixed (l : list ascii) :
  forallb (fun c => negb (is_upper c)) l = true -> split_words l = l.
Proof.
  induction l as [|c l IH]; [reflexivity|].
  intros H. simpl in H. apply andb_prop in H. destruct H as [_ H].
  specialize (IH H). destruct l as [|c' l]; [reflexivity|].
  cbn [split_words]. cbn [split_words] in IH.
  simpl in H. apply andb_prop in H. destruct H as [H _].
  apply negb_true_iff in H. rewrite H, andb_false_r.
  now rewrite IH.
Qed.

Lemma kebab_no_capital (b : bool) (l : list ascii) :
  kebab_from b l = true -> forallb (fun c => negb (is_upper c)) l = true.
Proof.
  revert b. induction l as [|c l IH]; intros b; simpl; [reflexivity|].
  destruct (is_lower c || is_digit c) eqn:E.
  - destruct (word_char c E) as (_ & -> & _). apply IH.
  - intros H. apply andb_prop in H. destruct H as [H H2].
    apply andb_prop in H. destruct H as [H1 _].
    apply Ascii.eqb_eq in H1. subst c. simpl. now apply (IH true).
Qed.

Lemma replace_runs_fixed (b b' : bool) (l : list ascii) :
  kebab_from b l = true -> (b' = true -> b = true) ->
  replace_runs b' l = l.
Proof.
  revert b b'. induction l as [|c l IH]; intros b b'; simpl; [reflexivity|].
  destruct (is_lower c || is_digit c) eqn:E.
  - destruct (word_char c E) as (_ & _ & ->). intros H _.
    f_equal. now apply (IH false).
  - intros H Hb. apply andb_prop in H. destruct H as [H H2].
    apply andb_prop in H. destruct H as [H1 H3].
    apply Ascii.eqb_eq in H1. subst c.
    change (is_alnum "-") with false. cbv iota.
    destruct b; [discriminate|].
    destruct b'; [now specialize (Hb eq_refl)|].
    f_equal. now apply (IH true).
Qed.

Lemma lstrip_dashes_app (x y : list ascii) :
  x <> [] -> lstrip_dashes x = x -> lstrip_dashes (x ++ y) = x ++ y.
Proof.
  destruct x as [|c x]; [congruence|]. intros _. simpl.
  destruct (Ascii.eqb c "-") eqn:E; [|reflexivity].
  intros H. exfalso.
  pose proof (lstrip_dashes_split x) as (p & H1 & _).
  apply (f_equal (@List.length ascii)) in H1. rewrite H in H1.
  rewrite length_app in H1. simpl in H1. lia.
Qed.

Lemma kebab_rstrip (b : bool) (l : list ascii) :
  kebab_from b l = true -> lstrip_dashes (rev l) = rev l.
Proof.
  revert b. induction l as [|c l IH]; intros b; [reflexivity|].
  cbn [kebab_from rev].
  destruct (is_lower c || is_digit c) eqn:E.
  - intros H. destruct l as [|c' l].
    + simpl. destruct (word_char c E) as (_ & _ & Ha).
      now rewrite (alnum_not_dash c Ha).
    + apply lstrip_dashes_app; [|now apply (IH false)].
      simpl. now destruct (rev l).
  - intros H. apply andb_prop in H. destruct H as [H H2].
    destruct l as [|c' l]; [discriminate|].
    apply lstrip_dashes_app; [|now apply (IH true)].
    simpl. now destruct (rev l).
Qed.

Lemma kebab_lower (b : bool) (l : list ascii) :
  kebab_from b l = true -> map lower_char l = l.
Proof.
  revert b. induction l as [|c l IH]; intros b; simpl; [reflexivity|].
  destruct (is_lower c || is_digit c) eqn:E.
  - destruct (word_char c E) as (-> & _). intros H. f_equal. now apply (IH false).
  - intros H. apply andb_prop in H. destruct H as [H H2].
    apply andb_prop in H. destruct H as [H1 _].
    apply Ascii.eqb_eq in H1. subst c. f_equal. now apply (IH true).
Qed.

Lemma to_kebab_case_fixed (s : string) :
  kebab_shape s = true -> to_kebab_case s = s.
Proof.
  unfold kebab_shape, to_kebab_case. intros H. cbv zeta.
  rewrite (split_words_fixed _ (kebab_no_capital _ _ H)).
  rewrite (replace_runs_fixed true false _ H) by discriminate.
  assert (Hs : strip_dashes (chars s) = chars s).
  { unfold strip_dashes.
    assert (Hl : lstrip_dashes (chars s) = chars s).
    { destruct (chars s) as [|c l]; [reflexivity|].
      cbn [kebab_from lstrip_dashes] in *.
      destruct (is_lower c || is_digit c) eqn:E.
      - destruct (word_char c E) as (_ & _ & Ha).
        now rewrite (alnum_not_dash c Ha).
      - apply andb_prop in H. destruct H as [H _].
        apply andb_prop in H. destruct H as [_ H]. discriminate. }
    now rewrite Hl, (kebab_rstrip _ _ H), rev_involutive. }
  rewrite Hs.
  assert (Hl : lower (str (chars s)) = s).
  { replace (str (chars s)) with s
      by (symmetry; apply string_of_list_ascii_of_string).
    unfold lower. rewrite (kebab_lower _ _ H).
    apply string_of_list_ascii_of_string. }
  rewrite Hl. unfold nonempty.
  destruct s; [discriminate | reflexivity].
Qed.


(** [to_pascal_case]: the chunks. *)
Lemma chars_append (x y : string) : chars (x ++ y) = chars x ++ chars y.
Proof. induction x as [|c x IH]; simpl; [reflexivity | now rewrite IH]. Qed.

Lemma chars_concat (l : list string) :
  chars (String.concat "" l) = List.concat (map chars l).
Proof.
  induction l as [|x l IH]; [reflexivity|].
  destruct l as [|y l].
  - simpl. now rewrite app_nil_r.
  - change (String.concat "" (x :: y :: l))
      with (x ++ String.concat "" (y :: l))%string.
    now rewrite chars_append, IH.
Qed.

Lemma re_split_chunks (cur : list ascii) (b : bool) (l : list ascii) :
  (b = true -> cur = []) ->
  List.concat (map chars (re_split cur b l)) = rev cur ++ filter is_alnum l.
Proof.
  revert cur b. induction l as [|c l IH]; intros cur b Hb; simpl.
  - unfold chars, str. now rewrite list_ascii_of_string_of_list_ascii.
  - destruct (is_alnum c).
    + rewrite IH by discriminate. simpl. now rewrite <- app_assoc.
    + destruct b.
      * rewrite (Hb eq_refl). now rewrite IH.
      * simpl. rewrite IH by reflexivity. unfold chars, str.
        now rewrite list_ascii_of_string_of_list_ascii.
Qed.

Lemma re_split_alnum (cur : list ascii) (b : bool) (l : list ascii) :
  forallb is_alnum cur = true ->
  Forall (fun s => forallb is_alnum (chars s) = true) (re_split cur b l).
Proof.
  assert (Hs : forall cur, forallb is_alnum cur = true ->
               forallb is_alnum (chars (str (rev cur))) = true).
  { intros cur0 H. unfold chars, str.
    rewrite list_ascii_of_string_of_list_ascii, forallb_forall.
    intros x Hx. apply in_rev in Hx.
    rewrite forallb_forall in H. now apply H. }
  revert cur b. induction l as [|c l IH]; intros cur b Hc; simpl.
  - constructor; [now apply Hs | constructor].
  - destruct (is_alnum c) eqn:E.
    + apply IH. simpl. now rewrite E.
    + destruct b; [now apply IH|].
      constructor; [now apply Hs | now apply IH].
Qed.

Lemma re_split_word (cur : list ascii) (b : bool) (l : list ascii) :
  forallb is_alnum l = true -> re_split cur b l = [str (rev cur ++ l)].
Proof.
  revert cur b. induction l as [|c l IH]; intros cur b; simpl.
  - now rewrite app_nil_r.
  - intros H. apply andb_prop in H. destruct H as [-> H].
    rewrite IH by exact H. simpl. now rewrite <- app_assoc.
Qed.

Lemma capitalize_chars (s : string) :
  forallb is_alnum (chars s) = true ->
  forallb is_alnum (chars (capitalize s)) = true /\
  map lower_char (chars (capitalize s)) = map lower_char (chars s).
Proof.
  destruct s as [|c s]; simpl; [now split|].
  destruct (char_classes c) as (_ & _ & _ & -> & ->). now split.
Qed.

Lemma chunks_alnum (l : list string) :
  Forall (fun s => forallb is_alnum (chars s) = true) l ->
  forallb is_alnum (List.concat (map chars (map capitalize l))) = true /\
  map lower_char (List.concat (map chars (map capitalize l))) =
  map lower_char (List.concat (map chars l)).
Proof.
  induction 1 as [|s l Hs _ [IH1 IH2]]; simpl; [now split|].
  destruct (capitalize_chars s Hs) as [H1 H2].
  rewrite forallb_app, !map_app, H1, IH1, H2, IH2. now split.
Qed.

Lemma filter_nonempty_chars (l : list string) :
  List.concat (map chars (filter nonempty l)) = List.concat (map chars l).
Proof.
  induction l as [|s l IH]; simpl; [reflexivity|].
  destruct s as [|c s]; simpl; [exact IH | now rewrite IH].
Qed.

Lemma filter_nonempty_forall (P : string -> Prop) (l : list string) :
  Forall P l -> Forall (fun s => P s /\ s <> "") (filter nonempty l).
Proof.
  induction 1 as [|s l Hs _ IH]; simpl; [constructor|].
  destruct s as [|c s]; simpl; [exact IH|].
  constructor; [split; [exact Hs | discriminate] | exact IH].
Qed.

Lemma to_pascal_case_shape (value : string) :
  pascal_shape (to_pascal_case value) = true.
Proof.
  unfold to_pascal_case. cbv zeta.
  pose proof (re_split_alnum [] false (chars value) eq_refl) as H.
  apply filter_nonempty_forall in H.
  destruct (filter nonempty (re_split [] false (chars value)))
    as [|s l]; [reflexivity|].
  unfold pascal_shape. rewrite chars_concat.
  inversion H as [|? ? [Hs Hne] Hl]; subst.
  assert (Hl' : Forall (fun s => forallb is_alnum (chars s) = true) l).
  { eapply Forall_impl; [|exact Hl]. now intros ? [? _]. }
  destruct (chunks_alnum l Hl') as [Hc _].
  destruct s as [|c s]; [congruence|]. simpl in *.
  apply andb_prop in Hs. destruct Hs as [Hs1 Hs2].
  destruct (char_classes c) as ((_ & _ & _ & ->) & _); [exact Hs1|].
  now rewrite forallb_app, Hs2, Hc.
Qed.

Lemma to_pascal_case_fixed (s : string) :
  pascal_shape s = true -> to_pascal_case s = s.
Proof.
  unfold pascal_shape, to_pascal_case. cbv zeta.
  destruct (chars s) as [|c l] eqn:E; [discriminate|].
  intros H. apply andb_prop in H. destruct H as [H1 H2].
  destruct (char_classes c) as (_ & _ & [Hu Ha] & _); [exact H1|].
  rewrite re_split_word by (simpl; now rewrite Ha).
  assert (Hs : str (rev [] ++ c :: l) = s).
  { change (rev [] ++ c :: l) with (c :: l). rewrite <- E.
    apply string_of_list_ascii_of_string. }
  rewrite Hs. destruct s as [|c' s]; [discriminate|].
  simpl. injection E as -> _. now rewrite Hu.
Qed.

(** The letters and digits of the hint survive every step. *)
Lemma list_ind2 {A} (P : list A -> Prop) :
  P [] -> (forall c, P [c]) ->
  (forall c c' l, P l -> P (c' :: l) -> P (c :: c' :: l)) ->
  forall l, P l.
Proof.
  intros H0 H1 H2 l.
  assert (H : P l /\ forall c, P (c :: l)).
  { induction l as [|c l [IH1 IH2]]; [now split|].
    split; [apply IH2|]. intros c'. now apply H2. }
  apply H.
Qed.

Lemma split_words_step (c c' : ascii) (l : list ascii) :
  split_words (c :: c' :: l) =
  if (is_lower c || is_digit c) && is_upper c'
  then c :: "-"%char :: c' :: split_words l
  else c :: split_words (c' :: l).
Proof. reflexivity. Qed.

Lemma split_words_spelling (l : list ascii) :
  filter is_alnum (split_words l) = filter is_alnum l.
Proof.
  induction l as [|c|c c' l IH1 IH2] using list_ind2; [reflexivity..|].
  rewrite split_words_step.
  destruct ((is_lower c || is_digit c) && is_upper c').
  - change (c :: "-"%char :: c' :: split_words l)
      with ([c] ++ ["-"%char] ++ [c'] ++ split_words l).
    change (c :: c' :: l) with ([c] ++ [c'] ++ l).
    rewrite !filter_app, IH1.
    now change (filter is_alnum ["-"%char]) with (@nil ascii).
  - change (c :: split_words (c' :: l)) with ([c] ++ split_words (c' :: l)).
    change (c :: c' :: l) with ([c] ++ c' :: l).
    now rewrite !filter_app, IH2.
Qed.

Lemma replace_runs_spelling (b : bool) (l : list ascii) :
  filter is_alnum (replace_runs b l) = filter is_alnum l.
Proof.
  revert b. induction l as [|c l IH]; intros b; simpl; [reflexivity|].
  destruct (is_alnum c) eqn:E; simpl.
  - now rewrite E, IH.
  - destruct b; [apply IH|]. simpl. apply IH.
Qed.

Lemma strip_dashes_spelling (l : list ascii) :
  filter is_alnum (strip_dashes l) = filter is_alnum l.
Proof.
  destruct (strip_dashes_split l) as (p & q & H1 & H2 & H3 & _).
  rewrite H1 at 2. now rewrite !filter_app, H2, H3, app_nil_r.
Qed.

Lemma worded_spelling (b : bool) (l : list ascii) :
  worded b l = true ->
  filter (fun c => negb (Ascii.eqb c "-")) (map lower_char l) =
  map lower_char (filter is_alnum l).
Proof.
  revert b. induction l as [|c l IH]; intros b; simpl; [reflexivity|].
  destruct (is_alnum c) eqn:E.
  - destruct (char_classes c) as ((_ & _ & -> & _) & _); [exact E|].
    simpl. intros H. now rewrite (IH false).
  - intros H. apply andb_prop in H. destruct H as [H H2].
    apply andb_prop in H. destruct H as [H1 _].
    apply Ascii.eqb_eq in H1. subst c. simpl. now apply (IH true).
Qed.

Lemma kebab_spelling (value : string) :
  (spelling value <> [] ->
   filter (fun c => negb (Ascii.eqb c "-")) (chars (to_kebab_case value)) =
   spelling value) /\
  (spelling value = [] -> to_kebab_case value = "restored-design").
Proof.
  unfold spelling, to_kebab_case. cbv zeta.
  set (A := split_words (chars value)).
  set (C := strip_dashes (replace_runs false A)).
  assert (HF : filter is_alnum C = filter is_alnum (chars value)).
  { unfold C, A.
    now rewrite strip_dashes_spelling, replace_runs_spelling,
      split_words_spelling. }
  rewrite <- HF.
  destruct (strip_dashes_worded A) as [H|H]; fold C in H.
  - rewrite H. split; [now intros []|reflexivity].
  - assert (Hne : nonempty (lower (str C)) = true).
    { destruct C as [|c C']; [discriminate | reflexivity]. }
    rewrite Hne, chars_lower. split.
    + intros _. now apply (worded_spelling true).
    + intros E. exfalso. destruct C as [|c C']; [discriminate|].
      simpl in H, E. destruct (is_alnum c); [discriminate|].
      now rewrite andb_false_r in H.
Qed.

Lemma pascal_spelling (value : string) :
  (spelling value <> [] ->
   map lower_char (chars (to_pascal_case value)) = spelling value) /\
  (spelling value = [] -> to_pascal_case value = "RestoredDesign").
Proof.
  unfold spelling, to_pascal_case. cbv zeta.
  pose proof (re_split_chunks [] false (chars value) (fun _ => eq_refl)) as HF.
  simpl in HF. rewrite <- HF, <- filter_nonempty_chars.
  pose proof (re_split_alnum [] false (chars value) eq_refl) as Ha.
  apply filter_nonempty_forall in Ha.
  destruct (filter nonempty (re_split [] false (chars value))) as [|s l].
  - split; [now intros []|reflexivity].
  - split.
    + intros _. rewrite chars_concat. apply chunks_alnum.
      eapply Forall_impl; [|exact Ha]. now intros ? [? _].
    + intros E. exfalso. inversion Ha as [|? ? [_ Hne] _]; subst.
      destruct s as [|c s]; [congruence|]. simpl in E.
      destruct (map lower_char (List.concat (map chars l))); discriminate.
Qed.

(** X20. The route name [to_kebab_case] returns is always made of words of
    lower-case letters and digits joined by single dashes, so that it is
    never empty and holds no slash or dot; a name of that shape is returned
    unchanged, and the function is idempotent. *)
Theorem kebab_names_are_normal (value : string) :
  kebab_shape (to_kebab_case value) = true /\
  (kebab_shape value = true -> to_kebab_case value = value) /\
  to_kebab_case (to_kebab_case value) = to_kebab_case value.
Proof.
  split; [apply to_kebab_case_shape|]. split.
  - apply to_kebab_case_fixed.
  - apply to_kebab_case_fixed, to_kebab_case_shape.
Qed.

Lemma kebab_names_are_normal_witness :
  kebab_shape "login-form" = true /\ to_kebab_case "login-form" = "login-form".
Proof.
  split; [reflexivity|].
  destruct (kebab_names_are_normal "login-form") as (_ & H & _).
  apply H. reflexivity.
Defined.

(** X21. The component name [to_pascal_case] returns is always made of
    letters and digits and never starts with a lower-case letter; a name of
    that shape is returned unchanged, and the function is idempotent. *)
Theorem pascal_names_are_normal (value : string) :
  pascal_shape (to_pascal_case value) = true /\
  (pascal_shape value = true -> to_pascal_case value = value) /\
  to_pascal_case (to_pascal_case value) = to_pascal_case value.
Proof.
  split; [apply to_pascal_case_shape|]. split.
  - apply to_pascal_case_fixed.
  - apply to_pascal_case_fixed, to_pascal_case_shape.
Qed.

Lemma pascal_names_are_normal_witness :
  pascal_shape "LoginForm" = true /\ to_pascal_case "LoginForm" = "LoginForm".
Proof.
  split; [reflexivity|].
  destruct (pascal_names_are_normal "LoginForm") as (_ & H & _).
  apply H. reflexivity.
Defined.

(** X22. Both names spell the hint: when the hint holds a letter or digit,
    the route name without its dashes and the component name in lower case
    are the letters and digits of the hint, in order and in lower case;
    when it holds none, the names are the defaults [restored-design] and
    [RestoredDesign]. *)
Theorem names_spell_the_hint (value : string) :
  (spelling value <> [] ->
   filter (fun c => negb (Ascii.eqb c "-")) (chars (to_kebab_case value)) =
   spelling value /\
   map lower_char (chars (to_pascal_case value)) = spelling value) /\
  (spelling value = [] ->
   to_kebab_case value = "restored-design" /\
   to_pascal_case value = "RestoredDesign").
Proof.
  destruct (kebab_spelling value) as [K1 K2].
  destruct (pascal_spelling value) as [P1 P2].
  split; intros H; split; auto.
Qed.

Lemma names_spell_the_hint_witness :
  to_kebab_case "../.." = "restored-design" /\
  map lower_char (chars (to_pascal_case "hero section 2")) =
  chars "herosection2".
Proof.
  split.
  - destruct (names_spell_the_hint "../..") as (_ & H).
    apply H. reflexivity.
  - destruct (names_spell_the_hint "hero section 2") as (H & _).
    apply H. discriminate.
Defined.

End TargetNames.

(** ** The target path: location, extension and confirmation *)

Section TargetPath.
Import Py SuggestTargetPath Spec.
Local Open Scope list_scope.

Lemma choose_extension_known (framework language : string) :
  In (choose_extension framework language) extensions.
Proof.
  unfold choose_extension, extensions, mem. simpl.
  repeat match goal with
         | |- context [String.eqb ?a ?b] => destruct (String.eqb a b)
         end; simpl; tauto.
Qed.

Lemma alnum_path_char (c : ascii) :
  is_alnum c = true -> path_char c = true /\ Ascii.eqb "." c = false.
Proof.
  destruct c as [[] [] [] [] [] [] [] []]; vm_compute;
    first [now split | discriminate].
Qed.

Lemma alnum_path_chars (l : list ascii) :
  forallb is_alnum l = true ->
  forallb path_char l = true /\ filter (Ascii.eqb ".") l = [].
Proof.
  induction l as [|c l IH]; cbn [forallb filter]; [now split|].
  intros H. apply andb_prop in H. destruct H as [Hc H].
  destruct (IH H) as [H1 H2].
  destruct (alnum_path_char c Hc) as [-> ->]. now split.
Qed.

Lemma kebab_path_chars (b : bool) (l : list ascii) :
  kebab_from b l = true ->
  forallb path_char l = true /\ filter (Ascii.eqb ".") l = [].
Proof.
  revert b. induction l as [|c l IH]; intros b;
    cbn [forallb filter kebab_from]; [now split|].
  destruct (is_lower c || is_digit c) eqn:E.
  - intros H. destruct (IH _ H) as [H1 H2].
    destruct (word_char c E) as (_ & _ & Ha).
    destruct (alnum_path_char c Ha) as [-> ->]. now split.
  - intros H. apply andb_prop in H. destruct H as [H H2].
    apply andb_prop in H. destruct H as [H1 _].
    apply Ascii.eqb_eq in H1. subst c.
    destruct (IH _ H2) as [H3 H4].
    change (path_char "-") with true.
    change (Ascii.eqb "." "-") with false. now split.
Qed.

Lemma pascal_path_chars (s : string) :
  pascal_shape s = true ->
  forallb path_char (chars s) = true /\ filter (Ascii.eqb ".") (chars s) = [].
Proof.
  unfold pascal_shape. destruct (chars s) as [|c l]; [discriminate|].
  intros H. apply andb_prop in H. destruct H as [H1 H2].
  destruct (char_classes c) as (_ & _ & [_ Ha] & _); [exact H1|].
  apply alnum_path_chars. cbn [forallb]. now rewrite Ha.
Qed.

(** A path made of a fixed directory, names and an extension. *)
Lemma stays_inside_parts (s : string) :
  match chars s with
  | [] => false
  | c :: _ => is_lower c
  end = true ->
  forallb path_char (chars s) = true ->
  List.length (filter (Ascii.eqb ".") (chars s)) = 1 ->
  stays_inside s = true.
Proof.
  intros H1 H2 H3. unfold stays_inside, dots. now rewrite H1, H2, H3.
Qed.

(** X23. The path [default_path] suggests stays inside the project, whatever
    the name hint, framework and scope: with the extension
    [choose_extension] gives, it starts with a lower-case letter, holds only
    letters, digits, dashes, slashes and a plus, and a single dot, so that it
    is relative and no part of it is [..]. *)
Theorem suggested_path_stays_inside (root : DetectStack.project)
  (framework scope name language : string) :
  stays_inside
    (path_str
       (default_path root framework scope name
          (choose_extension framework language))) = true.
Proof.
  pose proof (choose_extension_known framework language) as He.
  generalize dependent (choose_extension framework language). intros ext He.
  destruct (kebab_path_chars _ _ (to_kebab_case_shape name)) as [K1 K2].
  destruct (pascal_path_chars _ (to_pascal_case_shape name)) as [P1 P2].
  unfold default_path. cbv zeta.
  generalize dependent (to_kebab_case name). intros route_name K1 K2.
  generalize dependent (to_pascal_case name). intros component_name P1 P2.
  assert (Hparts : forall d stem tl,
            match chars d with [] => false | c :: _ => is_lower c end = true ->
            forallb path_char (chars d) = true ->
            filter (Ascii.eqb ".") (chars d) = [] ->
            forallb path_char (chars stem) = true ->
            filter (Ascii.eqb ".") (chars stem) = [] ->
            forallb path_char (chars tl) = true ->
            List.length (filter (Ascii.eqb ".") (chars tl)) = 1 ->
            stays_inside (d ++ "/" ++ stem ++ tl) = true).
  { intros d stem tl D1 D2 D3 S1 S2 T1 T2. apply stays_inside_parts.
    - rewrite chars_append. destruct (chars d); [discriminate | exact D1].
    - rewrite ?chars_append, ?forallb_app, ?filter_app, ?length_app. now rewrite D2, S1, T1.
    - rewrite ?chars_append, ?forallb_app, ?filter_app, ?length_app. now rewrite D3, S2, T2. }
  repeat match goal with
         | |- context [if String.eqb ?a ?b then _ else _] =>
             destruct (String.eqb a b)
         | |- context [if DetectStack.path_exists ?a ?b then _ else _] =>
             destruct (DetectStack.path_exists a b)
         end;
    unfold extensions in He; simpl in He;
    destruct He as [<-|[<-|[<-|[<-|[<-|[]]]]]];
    unfold path_str; cbn [String.concat];
    first
      [ apply Hparts; (reflexivity || assumption)
      | apply (Hparts _ _ (_ ++ _)%string); rewrite ?chars_append, ?forallb_app, ?filter_app, ?length_app;
        first [ reflexivity | assumption
              | rewrite ?K1, ?K2, ?P1, ?P2; reflexivity ] ].
Qed.


Lemma prefix_of_app (a b : list ascii) :
  String.prefix (str a) (str (a ++ b)) = true.
Proof.
  induction a as [|c a IH]; simpl; [now destruct (str b)|].
  destruct (ascii_dec c c); [exact IH | congruence].
Qed.

Lemma endswith_append (x p : string) : endswith (x ++ p) p = true.
Proof.
  unfold endswith. rewrite chars_append, rev_app_distr. apply prefix_of_app.
Qed.

Lemma append_assoc (x y z : string) :
  ((x ++ y) ++ z = x ++ y ++ z)%string.
Proof. induction x as [|c x IH]; simpl; [reflexivity | now rewrite IH]. Qed.

(** The last operand decides how the path ends. *)
Lemma endswith_file (dirs : list string) (stem ext : string) :
  endswith (path_str (dirs ++ [stem ++ "." ++ ext]%string)) ("." ++ ext) = true.
Proof.
  unfold path_str.
  assert (H : exists x,
            String.concat "/" (dirs ++ [stem ++ "." ++ ext]%string) =
            (x ++ ("." ++ ext))%string).
  { induction dirs as [|d dirs (x & IH)].
    - now exists stem.
    - exists (d ++ "/" ++ x)%string.
      change (String.concat "/" ((d :: dirs) ++ [stem ++ "." ++ ext]%string))
        with (String.concat "/" (d :: (dirs ++ [stem ++ "." ++ ext]%string))).
      destruct (dirs ++ [(stem ++ "." ++ ext)%string]) as [|y l] eqn:E.
      + now destruct dirs.
      + change (String.concat "/" (d :: y :: l))
          with (d ++ "/" ++ String.concat "/" (y :: l))%string.
        now rewrite IH, !append_assoc. }
  destruct H as (x & ->). apply endswith_append.
Qed.

(** X24. The file [default_path] suggests has the extension
    [choose_extension] gives for the framework and language, for each of the
    seven frameworks the command line admits. *)
Theorem suggested_file_has_the_extension (root : DetectStack.project)
  (framework scope name language : string) :
  In framework framework_labels ->
  let extension := choose_extension framework language in
  endswith
    (path_str (default_path root framework scope name extension))
    ("." ++ extension) = true.
Proof.
  intros H. cbv zeta. unfold framework_labels in H. simpl in H.
  unfold default_path. cbv zeta.
  generalize (to_kebab_case name) (to_pascal_case name).
  intros route_name component_name.
  destruct H as [<-|[<-|[<-|[<-|[<-|[<-|[<-|[]]]]]]]];
    unfold choose_extension;
    cbn -[endswith path_str String.append];
    repeat match goal with
           | |- context [if String.eqb ?a ?b then _ else _] =>
               destruct (String.eqb a b)
           | |- context [if DetectStack.path_exists ?a ?b then _ else _] =>
               destruct (DetectStack.path_exists a b)
           end;
    cbn -[endswith path_str String.append];
    match goal with
    | |- endswith (path_str [?d; (?s ++ _)%string]) ("." ++ ?e)%string = true =>
        exact (endswith_file [d] s e)
    | |- endswith (path_str [?d; ?k; (?s ++ _)%string]) ("." ++ ?e)%string
         = true =>
        exact (endswith_file [d; k] s e)
    | |- endswith (path_str [?d; ?k; "+page.svelte"%string]) _ = true =>
        exact (endswith_file [d; k] "+page" "svelte")
    end.
Qed.

Lemma suggested_file_has_the_extension_witness :
  endswith
    (path_str (default_path empty_project "next" "page" "loginForm" "tsx"))
    ".tsx" = true.
Proof.
  apply (suggested_file_has_the_extension empty_project "next" "page"
           "loginForm" "typescript").
  simpl. tauto.
Defined.


(** What [main] reports when it reports. *)
Lemma main_report (a : args) (root : DetectStack.project)
  (pkg : DetectStack.package_file) (explicit : string -> target) (r : report)
  (status : nat) :
  main a root pkg explicit = Some (Success r status) ->
  status = 0 /\
  scope r = arg_scope a /\ overwrite r = arg_overwrite a /\
  List.length (reasoning r) = 3 /\
  (needs_confirmation r, confirmation_reasons r) =
  confirmation (framework r) (arg_framework a) (arg_overwrite a)
    (path_exists r).
Proof.
  unfold main. destruct (negb (DetectStack.root_is_dir root)); [discriminate|].
  destruct (load_dependencies pkg) as [deps|]; [|discriminate].
  cbn [bind].
  destruct (nonempty (arg_target a));
    match goal with
    | |- context [confirmation ?f ?o ?w ?e] =>
        destruct (confirmation f o w e) as [nc reasons] eqn:E
    end;
    intros H; injection H as <- <-; cbn; now rewrite E.
Qed.


(** X26. The confirmation flag is explained and protects existing files:
    in a report, [needs_confirmation] is set exactly when a reason is given,
    and there are at most two reasons; an existing target under
    [--overwrite ask] or [new], and a framework that fell back to [vanilla],
    always ask for confirmation; under [--overwrite replace] nothing but the
    fallback to [vanilla] does. *)
Theorem confirmation_is_explained (a : args) (root : DetectStack.project)
  (pkg : DetectStack.package_file) (explicit : string -> target)
  (r : report) :
  main a root pkg explicit = Some (Success r 0) ->
  (needs_confirmation r = true <-> confirmation_reasons r <> []) /\
  List.length (confirmation_reasons r) <= 2 /\
  (path_exists r = true -> In (arg_overwrite a) ["ask"; "new"] ->
   needs_confirmation r = true) /\
  (framework r = "vanilla" -> arg_framework a = "auto" ->
   needs_confirmation r = true) /\
  (arg_overwrite a = "replace" -> needs_confirmation r = true ->
   framework r = "vanilla" /\ arg_framework a = "auto").
Proof.
  intros H. apply main_report in H. destruct H as (_ & _ & _ & _ & H).
  unfold confirmation in H. cbv zeta in H. unfold mem in H.
  cbn [existsb] in H.
  destruct (String.eqb (framework r) "vanilla") eqn:Ef;
    destruct (String.eqb (arg_framework a) "auto") eqn:Eo;
    destruct (path_exists r);
    destruct (String.eqb (arg_overwrite a) "ask") eqn:E1;
    destruct (String.eqb (arg_overwrite a) "new") eqn:E2;
    destruct (String.eqb (arg_overwrite a) "patch") eqn:E3;
    cbn in H; injection H as -> ->;
    rewrite ?String.eqb_eq in *; rewrite ?String.eqb_neq in *;
    (split; [split; [discriminate || (intros _; discriminate)
                    | try reflexivity; intros X; now contradiction X]|]);
    (split; [cbn; lia|]);
    (split; [cbn; intros; try reflexivity; try discriminate;
             intuition congruence|]);
    (split; [intros; try reflexivity; congruence|]);
    intros Hr; rewrite Hr in *; try discriminate; intros; try discriminate;
    auto.
Qed.

Lemma confirmation_is_explained_witness :
  exists r,
    main default_args empty_project DetectStack.NoFile no_target =
    Some (Success r 0) /\
    framework r = "vanilla" /\ needs_confirmation r = true /\
    confirmation_reasons r = ["framework fallback to vanilla"].
Proof.
  eexists. split; [reflexivity|]. split; [reflexivity|].
  split; [|reflexivity].
  eapply (confirmation_is_explained default_args empty_project
            DetectStack.NoFile no_target); reflexivity.
Defined.

(** X27. The scope [section] is treated as [component]: the two command
    lines lead to the same outcome, the same path, confirmation and reasons,
    and the reports differ by their [scope] entry only. *)
Theorem section_is_component (a : args) (root : DetectStack.project)
  (pkg : DetectStack.package_file) (explicit : string -> target) :
  main (with_scope a "section") root pkg explicit =
  match main (with_scope a "component") root pkg explicit with
  | Some (Success r status) =>
      Some (Success (report_with_scope r "section") status)
  | other => other
  end.
Proof.
  unfold main.
  destruct (negb (DetectStack.root_is_dir root)); [reflexivity|].
  destruct (load_dependencies pkg) as [deps|]; [|reflexivity].
  cbn [bind with_scope arg_scope arg_framework arg_language arg_target
       arg_name arg_overwrite].
  change (String.eqb "section" "section") with true.
  change (String.eqb "component" "section") with false. cbv iota.
  destruct (nonempty (arg_target a));
    match goal with
    | |- context [confirmation ?f ?o ?w ?e] =>
        destruct (confirmation f o w e)
    end; reflexivity.
Qed.

End TargetPath.

(** ** The two scripts on one project *)

Section Agreement.
Import Py DetectStack Spec.
Local Open Scope list_scope.

Lemma all_light_heavy (rules : list rule) (k : nat) (r : rule) :
  all_light rules = true -> nth_error rules k = Some r -> heavy r = true ->
  fires r = false.
Proof.
  unfold all_light, fired. revert k.
  induction rules as [|r0 rules IH]; intros k Hl Hk Hh;
    [now destruct k|].
  simpl in Hl. rewrite forallb_app in Hl.
  apply andb_prop in Hl. destruct Hl as [H0 Hl].
  destruct k as [|k]; [|now apply (IH k)].
  injection Hk as ->. destruct (fires r); [|reflexivity].
  unfold heavy in Hh. apply existsb_exists in Hh.
  destruct Hh as (call & Hin & Hc).
  rewrite forallb_forall in H0. rewrite (H0 call Hin) in Hc. discriminate.
Qed.

(** X28. The two scripts agree on the fallback: on a project where
    [detect_framework] of [detect_stack.py] returns [vanilla],
    [infer_framework] of [suggest_target_path.py], left on [auto], returns
    [vanilla] too. *)
Theorem fallback_agrees_across_scripts (root : project) (deps : dict string)
  (conf : float) (ev : list string) (sc : dict float) :
  detect_framework root deps = Some ("vanilla", conf, ev, sc) ->
  SuggestTargetPath.infer_framework root deps "auto" = "vanilla".
Proof.
  intros H.
  pose proof (framework_more_facts_hold root deps) as Hf.
  rewrite H in Hf. unfold framework_more_facts in Hf.
  apply andb_prop in Hf. destruct Hf as [Hf _].
  apply andb_prop in Hf. destruct Hf as [Hf _].
  apply andb_prop in Hf. destruct Hf as [Hf _].
  apply andb_prop in Hf. destruct Hf as [Hl _].
  apply eqb_bool_true in Hl. symmetry in Hl.
  change (String.eqb "vanilla" "vanilla") with true in Hl.
  pose proof (fun k r => all_light_heavy _ k r Hl) as Hr.
  pose proof (Hr 0 _ eq_refl eq_refl) as Hnext.
  pose proof (Hr 1 _ eq_refl eq_refl) as Hreact.
  pose proof (Hr 4 _ eq_refl eq_refl) as Hnuxt.
  pose proof (Hr 5 _ eq_refl eq_refl) as Hvue.
  pose proof (Hr 7 _ eq_refl eq_refl) as Htaro.
  pose proof (Hr 8 _ eq_refl eq_refl) as Hsvelte.
  pose proof (Hr 9 _ eq_refl eq_refl) as Hkit.
  pose proof (Hr 11 _ eq_refl eq_refl) as Hconfig.
  pose proof (Hr 12 _ eq_refl eq_refl) as Happ.
  cbn [fires] in *.
  apply orb_false_elim in Hconfig. destruct Hconfig as [Hconfig _].
  unfold SuggestTargetPath.infer_framework.
  change (negb (String.eqb "auto" "auto")) with false. cbv iota zeta.
  now rewrite Hnext, Hnuxt, Htaro, Hkit, Hsvelte, Hvue, Hreact, Happ, Hconfig,
    andb_false_r.
Qed.

Lemma fallback_agrees_across_scripts_witness :
  SuggestTargetPath.infer_framework empty_project [] "auto" = "vanilla".
Proof.
  eapply (fallback_agrees_across_scripts empty_project []).
  vm_compute. reflexivity.
Defined.

End Agreement.

(** ** The tokens: what the patterns capture *)

Section Tokens.
Import Py Re InspectHtml Spec.
Local Open Scope list_scope.
Local Open Scope nat_scope.

Lemma between_span (before w after rest : list ascii) :
  between (before, rest) (rev w ++ before, after) = str w.
Proof.
  unfold between. cbn [fst snd]. rewrite length_app, length_rev.
  replace (List.length w + List.length before - List.length before)
    with (List.length (rev w) + 0) by (rewrite length_rev; lia).
  rewrite firstn_app_2. cbn [firstn]. now rewrite app_nil_r, rev_involutive.
Qed.

(** The matcher is sound: a continuation is only ever called at a position
    the pattern spans to. *)
Lemma matches_spans {R} (r : regex) :
  forall before text cap (k : cursor -> option string -> option R) x,
    matches r (before, text) cap k = Some x ->
    exists w after cap',
      text = w ++ after /\ spans r before w after cap cap' /\
      k (rev w ++ before, after) cap' = Some x.
Proof.
  induction r as [|p|r1 IH1 r2 IH2|r1 IH1 r2 IH2|r IH|r IH|];
    intros before text cap k x H.
  - exists [], text, cap. repeat split; [constructor | exact H].
  - cbn in H. destruct text as [|c rest]; [discriminate|].
    destruct (p c) eqn:E; [|discriminate].
    exists [c], rest, cap. repeat split; [now constructor | exact H].
  - cbn [matches] in H. apply IH1 in H.
    destruct H as (w1 & a1 & cap1 & -> & S1 & H).
    apply IH2 in H. destruct H as (w2 & a & cap2 & -> & S2 & H).
    exists (w1 ++ w2), a, cap2. rewrite app_assoc. split; [reflexivity|].
    split; [now apply spans_cat with (cap1 := cap1)|].
    now rewrite rev_app_distr, <- app_assoc.
  - cbn [matches] in H.
    destruct (matches r1 (before, text) cap k) as [y|] eqn:E.
    + injection H as ->. apply IH1 in E.
      destruct E as (w & a & cap' & -> & S1 & E).
      exists w, a, cap'. repeat split; [now apply spans_alt_left | exact E].
    + apply IH2 in H. destruct H as (w & a & cap' & -> & S2 & H).
      exists w, a, cap'. repeat split; [now apply spans_alt_right | exact H].
  - cbn [matches] in H. revert H.
    generalize (remaining (before, text)) at 1. intros fuel.
    revert before text cap. induction fuel as [|fuel IHf];
      intros before text cap H.
    + exists [], text, cap. repeat split; [constructor | exact H].
    + match type of H with
      | match ?m with _ => _ end = _ => destruct m as [y|] eqn:E
      end.
      * injection H as ->. apply IH in E.
        destruct E as (w1 & a1 & cap1 & -> & S1 & E).
        destruct (remaining (rev w1 ++ before, a1) <? remaining (before, w1 ++ a1));
          [|discriminate].
        apply IHf in E. destruct E as (w2 & a & cap2 & -> & S2 & E).
        exists (w1 ++ w2), a, cap2. rewrite app_assoc. split; [reflexivity|].
        split; [now apply spans_star_step with (cap1 := cap1)|].
        now rewrite rev_app_distr, <- app_assoc.
      * exists [], text, cap. repeat split; [constructor | exact H].
  - cbn [matches] in H. apply IH in H.
    destruct H as (w & a & cap' & -> & S1 & H).
    exists w, a, (Some (str w)). split; [reflexivity|].
    split; [now apply spans_group with (cap1 := cap')|].
    now rewrite between_span in H.
  - cbn [matches] in H. destruct (at_boundary (before, text)) eqn:E;
      [|discriminate].
    exists [], text, cap. repeat split; [now constructor | exact H].
Qed.

(** Every item of [findall] is the text of a match, or of its group. *)
Lemma findall_from_items (fuel : nat) (r : regex) (has_group : bool)
  (c : cursor) (item : string) :
  In item (findall_from fuel r has_group c) ->
  exists before w after cap',
    spans r before w after None cap' /\
    item = if has_group then match cap' with Some s => s | None => "" end
           else str w.
Proof.
  revert c. induction fuel as [|fuel IH]; intros [before text]; [intros []|].
  cbn [findall_from].
  destruct (matches r (before, text) None (fun c' cap => Some (c', cap)))
    as [[c' cap]|] eqn:E.
  - apply matches_spans in E. destruct E as (w & a & cap' & -> & S1 & E).
    injection E as <- <-.
    assert (Hitem : exists before0 w0 after0 cap0,
              spans r before0 w0 after0 None cap0 /\
              (if has_group then match cap' with Some s => s | None => "" end
               else between (before, w ++ a) (rev w ++ before, a)) =
              (if has_group then match cap0 with Some s => s | None => "" end
               else str w0)).
    { exists before, w, a, cap'. split; [exact S1|].
      now rewrite between_span. }
    destruct (remaining (rev w ++ before, a) <? remaining (before, w ++ a)).
    + intros [<-|H]; [exact Hitem | now apply IH in H].
    + cbn [snd fst]. destruct (w ++ a) as [|x rest].
      * intros [<-|[]]. exact Hitem.
      * intros [<-|H]; [exact Hitem | now apply IH in H].
  - cbn [snd fst]. destruct text as [|x rest]; [intros []|].
    intros H. now apply IH in H.
Qed.


Lemma spans_star_chr (p : ascii -> bool) (r : regex) before w after cap cap' :
  spans r before w after cap cap' -> r = Star (Chr p) ->
  forallb p w = true /\ cap' = cap.
Proof.
  induction 1 as [| | | | | |r0 b w1 w2 a c0 c1 c2 S1 _ S2 IH2| |];
    intros E; try discriminate E.
  - now split.
  - injection E as ->. inversion S1; subst.
    destruct (IH2 eq_refl) as [H2 ->]. cbn [app forallb].
    split; [|reflexivity].
    match goal with Hp : p _ = true |- _ => now rewrite Hp end.
Qed.

(** The group of a declaration pattern: one character of a value at least,
    and characters of a value only. *)
Lemma declaration_capture (names : list string) before w after cap' :
  spans (declaration_re names) before w after None cap' ->
  exists v, cap' = Some (str v) /\ v <> [] /\ forallb value_char v = true.
Proof.
  unfold declaration_re, seq, plus. cbn [fold_right]. intros H.
  inversion H as [| |? ? ? ? ? ? ? ? ? _ H1| | | | | |]; subst; clear H.
  inversion H1 as [| |? ? ? ? ? ? ? ? ? _ H2| | | | | |]; subst; clear H1.
  inversion H2 as [| |? ? ? ? ? ? ? ? ? _ H3| | | | | |]; subst; clear H2.
  inversion H3 as [| |? ? ? ? ? ? ? ? ? _ H4| | | | | |]; subst; clear H3.
  inversion H4 as [| |? ? ? ? ? ? ? ? ? H5 H6| | | | | |]; subst; clear H4.
  inversion H6; subst; clear H6.
  inversion H5 as [| | | | | | |? ? ? ? ? ? H7|]; subst; clear H5.
  inversion H7 as [| |? ? ? ? ? ? ? ? ? H8 H9| | | | | |]; subst; clear H7.
  inversion H8; subst; clear H8.
  destruct (spans_star_chr _ _ _ _ _ _ _ H9 eq_refl) as [Hv _].
  eexists. split; [reflexivity|]. split; [discriminate|].
  cbn [app forallb]. apply andb_true_iff. split; [|exact Hv].
  match goal with Hp : _ = true |- _ => exact Hp end.
Qed.

Lemma lstrip_chars_forallb (p : ascii -> bool) (l : list ascii) :
  forallb p l = true -> forallb p (lstrip_chars l) = true.
Proof.
  induction l as [|c l IH]; [trivial|]. intros H. cbn [lstrip_chars].
  destruct (is_space c); [|exact H].
  cbn [forallb] in H. apply andb_prop in H. now apply IH.
Qed.

Lemma forallb_rev {A} (p : A -> bool) (l : list A) :
  forallb p l = true -> forallb p (rev l) = true.
Proof.
  rewrite !forallb_forall. intros H x Hx. apply H. now apply in_rev.
Qed.

Lemma strip_forallb (p : ascii -> bool) (s : string) :
  forallb p (chars s) = true -> forallb p (chars (strip s)) = true.
Proof.
  intros H. unfold strip. rewrite chars_str.
  now apply forallb_rev, lstrip_chars_forallb, forallb_rev,
    lstrip_chars_forallb.
Qed.

(** A token is an item of [findall], stripped and not empty. *)
Lemma token_origin (items : list string) (t : string) :
  In t (unique_limited items 40) ->
  t <> "" /\ strip t = t /\ exists item, In item items /\ t = strip item.
Proof.
  rewrite unique_limited_spec by lia. intros H.
  apply firstn_in, dedup_in in H. unfold clean in H.
  apply filter_In in H. destruct H as [H Hne].
  apply in_map_iff in H. destruct H as (item & <- & Hitem).
  split; [|split; [apply strip_idem | now exists item]].
  intros E. rewrite E in Hne. discriminate.
Qed.

Lemma declared_value (names : list string) (css t : string) :
  In t (unique_limited (findall (declaration_re names) true css) 40) ->
  t <> "" /\ strip t = t /\ forallb value_char (chars t) = true.
Proof.
  intros H. apply token_origin in H.
  destruct H as (Hne & Hs & item & Hitem & ->).
  split; [exact Hne|]. split; [exact Hs|].
  apply findall_from_items in Hitem.
  destruct Hitem as (b & w & a & cap' & Hspan & ->).
  apply declaration_capture in Hspan. destruct Hspan as (v & -> & _ & Hv).
  apply strip_forallb. now rewrite chars_str.
Qed.

(** X29. The values [extract_tokens] reports for font sizes, spacings, radii
    and shadows are clean: every one is trimmed, not empty, and holds no
    semicolon and no brace, whatever the style text. *)
Theorem declared_values_are_clean (css_text t : string) :
  let tk := extract_tokens css_text in
  In t (font_sizes tk ++ spacings tk ++ radii tk ++ shadows tk) ->
  t <> "" /\ strip t = t /\ forallb value_char (chars t) = true.
Proof.
  cbv zeta. unfold extract_tokens. cbn [font_sizes spacings radii shadows].
  rewrite !in_app_iff.
  intros [H|[H|[H|H]]]; revert H; apply declared_value.
Qed.

Lemma declared_values_are_clean_witness :
  In "2rem" (font_sizes (extract_tokens sample_css)) /\
  forallb value_char (chars "2rem") = true.
Proof.
  assert (H : In "2rem" (font_sizes (extract_tokens sample_css)))
    by (vm_compute; left; reflexivity).
  split; [exact H|].
  apply (declared_values_are_clean sample_css "2rem").
  apply in_or_app. left. exact H.
Defined.


(** Texts that [strip] leaves alone. *)
Lemma strip_fixed_snoc (c d : ascii) (m : list ascii) :
  is_space c = false -> is_space d = false ->
  strip (str (c :: m ++ [d])) = str (c :: m ++ [d]).
Proof.
  intros Hc Hd. unfold strip. rewrite chars_str.
  rewrite lstrip_fixed by exact Hc.
  change (c :: m ++ [d]) with ((c :: m) ++ [d]) at 1.
  rewrite rev_app_distr. cbn [rev app].
  rewrite lstrip_fixed by exact Hd.
  change (d :: rev m ++ [c]) with ([d] ++ rev (c :: m)).
  now rewrite rev_app_distr, rev_involutive.
Qed.

Lemma strip_fixed (l : list ascii) :
  2 <= List.length l ->
  is_space (hd " "%char l) = false -> is_space (last l " "%char) = false ->
  strip (str l) = str l.
Proof.
  intros Hlen Hh Hl. destruct l as [|c l]; [simpl in Hlen; lia|].
  destruct (exists_last (l := l)) as (m & d & ->).
  { intros ->. simpl in Hlen. lia. }
  change (c :: m ++ [d]) with ((c :: m) ++ [d]) in Hl.
  rewrite last_last in Hl. now apply strip_fixed_snoc.
Qed.

Lemma hex_not_space (c : ascii) : is_hex c = true -> is_space c = false.
Proof.
  destruct c as [[] [] [] [] [] [] [] []]; vm_compute;
    first [reflexivity | discriminate].
Qed.

Lemma after_prefix_app (p l : list ascii) : after_prefix p (p ++ l) = Some l.
Proof.
  induction p as [|c p IH]; [reflexivity|].
  cbn [after_prefix app]. now rewrite Ascii.eqb_refl.
Qed.

Lemma functional_color_intro (name : string) (body : list ascii) :
  In name ["rgb("; "rgba("; "hsl("; "hsla("]%string ->
  forallb not_closing body = true ->
  color_shape (str (chars name ++ body ++ [")"%char])) = true /\
  strip (str (chars name ++ body ++ [")"%char])) =
  str (chars name ++ body ++ [")"%char]).
Proof.
  intros Hn Hb. split.
  - unfold color_shape. apply orb_true_iff. right.
    unfold functional_color. apply existsb_exists. exists name.
    split; [exact Hn|].
    rewrite chars_str, after_prefix_app, rev_app_distr. cbn [rev app].
    now apply forallb_rev.
  - apply strip_fixed.
    + rewrite !length_app. cbn [List.length].
      destruct Hn as [<-|[<-|[<-|[<-|[]]]]]; cbn; lia.
    + destruct Hn as [<-|[<-|[<-|[<-|[]]]]]; reflexivity.
    + rewrite app_assoc, last_last. reflexivity.
Qed.

(** What the colour pattern matches. *)
Lemma color_span before w after cap cap' :
  spans colors_re before w after cap cap' ->
  color_shape (str w) = true /\ strip (str w) = str w.
Proof.
  intros H. unfold colors_re in H.
  change hex_digit with (Chr is_hex) in H.
  change (none_of ")") with (Chr not_closing) in H.
  unfold seq, lit, chr, Re.repeat in H.
  cbn [fold_right map chars list_ascii_of_string exactly at_most Nat.sub] in H.
  unfold opt in H.
  repeat match goal with
         | H : spans (Cat _ _) _ _ _ _ _ |- _ => inversion H; subst; clear H
         | H : spans (Alt _ _) _ _ _ _ _ |- _ => inversion H; subst; clear H
         | H : spans Eps _ _ _ _ _ |- _ => inversion H; subst; clear H
         | H : spans (Chr _) _ _ _ _ _ |- _ => inversion H; subst; clear H
         | H : spans WordBoundary _ _ _ _ _ |- _ => inversion H; subst; clear H
         | H : spans (Star (Chr _)) _ _ _ _ _ |- _ =>
             apply (fun S => spans_star_chr _ _ _ _ _ _ _ S eq_refl) in H;
             destruct H as [H _]
         end;
    repeat match goal with
           | H : Ascii.eqb _ _ = true |- _ => apply Ascii.eqb_eq in H; subst
           end;
    cbn [app];
    try (split;
         [ unfold color_shape; apply orb_true_iff; left;
           unfold hex_color; rewrite chars_str; cbn [List.length Nat.leb andb forallb];
           repeat (apply andb_true_iff; split); first [reflexivity | assumption]
         | apply strip_fixed;
           [ cbn [List.length]; lia
           | reflexivity
           | cbn [last]; apply hex_not_space; assumption ] ]).
  - apply (functional_color_intro "rgba("); [cbn; tauto | assumption].
  - apply (functional_color_intro "rgb("); [cbn; tauto | assumption].
  - apply (functional_color_intro "hsla("); [cbn; tauto | assumption].
  - apply (functional_color_intro "hsl("); [cbn; tauto | assumption].
Qed.

(** X30. Every colour [extract_tokens] reports is well formed: it is [#]
    followed by three to eight hexadecimal digits, or it starts with [rgb(],
    [rgba(], [hsl(] or [hsla(] and ends at its first closing parenthesis. *)
Theorem colors_are_well_formed (css_text t : string) :
  In t (colors (extract_tokens css_text)) -> color_shape t = true.
Proof.
  unfold extract_tokens. cbn [colors]. intros H.
  apply token_origin in H. destruct H as (_ & _ & item & Hitem & ->).
  apply findall_from_items in Hitem.
  destruct Hitem as (b & w & a & cap' & Hspan & ->).
  apply color_span in Hspan. destruct Hspan as [Hshape Hstrip].
  now rewrite Hstrip.
Qed.

Lemma colors_are_well_formed_witness :
  colors (extract_tokens sample_css) = ["#1a2b3c"; "rgba(0, 0, 0, .5)"]%string /\
  color_shape "rgba(0, 0, 0, .5)" = true.
Proof.
  assert (H : colors (extract_tokens sample_css) =
              ["#1a2b3c"; "rgba(0, 0, 0, .5)"]%string)
    by (vm_compute; reflexivity).
  split; [exact H|].
  apply (colors_are_well_formed sample_css). rewrite H. right. now left.
Defined.

End Tokens.
